(** * IPP Revenue & Capture Lab: the analytics engine

    A shallow embedding of the aligner ([DataSources.alignData]) and of the
    computation engine ([Compute.calculateKPIs], [Compute.simulateBattery],
    [Compute.findRepresentativeWeeks]) together with the properties the
    specification states about them.

    Numbers.  A JavaScript number is modelled as a rational ([Q]) and the
    arithmetic is exact; the rounding error of IEEE-754 doubles, NaN and the
    infinities are outside the model.  Where the JavaScript code would
    produce NaN or an infinity by dividing by zero, the embedding raises the
    signal [NonFinite] instead (see [Outcome]), so that "no division hits a
    zero denominator" is a statement about the embedding.  Timestamps are
    integers ([Z], epoch seconds).

    Host.  What the JavaScript engine provides and the code only calls
    ([new Date], [localeCompare], [Math.sqrt]) is a parameter of the
    embedding; [Math.sqrt] returns the number the host rounds the root
    to.

    Besides the engine the development covers the rest of the data
    sources (the parser of the price feed, the cache in [localStorage],
    [fetchPrices], the synthetic PV profile), the proxy worker, the form
    and the workflow of [runAnalysis], and the memo formatter; what the
    browser, the network and the worker's runtime provide is again a
    parameter. *)

From Stdlib Require Import QArith Qround Lqa.
From stdpp Require Import gmap strings pretty list vector finite sorting.

Local Open Scope Q_scope.

(** ** Host functions *)

(** [Math.round]: the nearest integer, ties towards plus infinity. *)
Definition Math_round (x : Q) : Z := Qfloor (x + (1 # 2)).

Definition Math_floor (x : Q) : Z := Qfloor x.
Definition Math_ceil (x : Q) : Z := Qceiling x.

(** [Math.min(a, b)] and [Math.max(a, b)] on two numbers. *)
Definition Math_min (a b : Q) : Q := if Qlt_le_dec b a then b else a.
Definition Math_max (a b : Q) : Q := if Qlt_le_dec a b then b else a.

(** A length or a counter as a number. *)
Definition count_to_Q (n : nat) : Q := inject_Z (Z.of_nat n).

(** [x > 0] and [x < 0] as the conditions the code tests. *)
Definition is_pos (x : Q) : bool := if Qlt_le_dec 0 x then true else false.
Definition is_neg (x : Q) : bool := if Qlt_le_dec x 0 then true else false.

(** [Array.prototype.sort(cmp)]: the sort is stable, so with a comparator
    it is the stable insertion of every element, from the right, in front
    of the first element it does not compare greater than. *)
Section ArraySort.
Context {A : Type} (cmp : A → A → Q).

Fixpoint sort_insert (x : A) (l : list A) : list A :=
  match l with
  | [] => [x]
  | y :: l' =>
      if Qle_bool (cmp x y) 0 then x :: y :: l' else y :: sort_insert x l'
  end.

Definition Array_sort (l : list A) : list A := foldr sort_insert [] l.

(** The order the comparator stands for: [a] may stay in front of [b]. *)
Definition cmp_le (a b : A) : Prop := cmp a b <= 0.
End ArraySort.

(** A [Set] of timestamps iterates in insertion order: adding a member
    that is already present leaves the set as it is. *)
Definition Set_add (s : list Z) (x : Z) : list Z :=
  if decide (x ∈ s) then s else s ++ [x].

Definition Set_from (l : list Z) : list Z := foldl Set_add [] l.

(** A [Date] object, as far as the engine reads it: the local calendar
    year, month (0..11) and hour (0..23), and the UTC calendar date that
    [toISOString().split('T')[0]] prints.  Only valid dates are
    represented, which is what [new Date(ts * 1000)] gives for the epoch
    seconds of an hourly series. *)
Record JSDate := mkDate {
  getFullYear : Z;
  getMonth : fin 12;
  getHours : fin 24;
  isoDate : string
}.

(** ** Data model *)

Record PricePoint := mkPricePoint { p_timestamp : Z; p_price : Q }.
Record OutputPoint := mkOutputPoint { v_timestamp : Z; v_output : Q }.

Record AlignedRecord := mkAligned {
  timestamp : Z;
  price : Q;
  output : Q;
  date : JSDate
}.

(** ** Outcomes

    A call either returns a value or raises a signal: [NoData] is the
    error [calculateKPIs] throws on an empty series, [TypeError] is a
    property read on [undefined], and [NonFinite] stands for a NaN or an
    infinity entering the result (a division by zero, arithmetic on an
    array slot that does not exist). *)

Inductive Signal := NoData | NonFinite | TypeError.

Inductive Outcome (A : Type) :=
  | Ok (a : A)
  | Raise (s : Signal).
Arguments Ok {A} a.
Arguments Raise {A} s.

Global Instance Outcome_ret : MRet Outcome := @Ok.
Global Instance Outcome_bind : MBind Outcome := λ A B k m,
  match m with
  | Ok a => k a
  | Raise s => Raise s
  end.

(** The loop [for (const x of xs) { st = body(st, x) }] with a body that
    may raise. *)
Fixpoint foldM {St A : Type} (body : St → A → Outcome St) (st : St)
    (xs : list A) : Outcome St :=
  match xs with
  | [] => Ok st
  | x :: xs' => st' ← body st x; foldM body st' xs'
  end.

(** [x / y] with a denominator that is not a literal. *)
Definition divide (x y : Q) : Outcome Q :=
  if Qeq_bool y 0 then Raise NonFinite else Ok (x / y).

(** [arr[i]] read as a number: a slot that does not exist is [undefined],
    which is NaN in arithmetic and under [Math.round]. *)
Definition Array_at (arr : list Q) (i : Z) : Outcome Q :=
  if (i <? 0)%Z then Raise NonFinite
  else match arr !! Z.to_nat i with
       | Some x => Ok x
       | None => Raise NonFinite
       end.

(** [arr.slice(0, end)]: a negative [end] counts from the end. *)
Definition Array_slice0 {A : Type} (arr : list A) (end_ : Z) : list A :=
  if (end_ <? 0)%Z then take (Z.to_nat (Z.of_nat (length arr) + end_)) arr
  else take (Z.to_nat end_) arr.

(** A [Map] with string keys iterates in the order its keys were first
    set.  [Map_upsert k init f m] is the idiom
    [if (!m.has(k)) m.set(k, init); const e = m.get(k); e.field += ...]:
    the entry is created at the end when missing and then updated in
    place. *)
Fixpoint Map_upsert {V : Type} (k : string) (init : V) (f : V → V)
    (m : list (string * V)) : list (string * V) :=
  match m with
  | [] => [(k, f init)]
  | (k', v) :: m' =>
      if decide (k = k') then (k', f v) :: m'
      else (k', v) :: Map_upsert k init f m'
  end.

(** [m.get(k)]; [undefined] is [None]. *)
Fixpoint Map_get {V : Type} (k : string) (m : list (string * V)) : option V :=
  match m with
  | [] => None
  | (k', v) :: m' => if decide (k = k') then Some v else Map_get k m'
  end.

(** [String(n).padStart(2, '0')] *)
Definition padStart2 (s : string) : string :=
  match String.length s with
  | 0%nat => "00"
  | 1%nat => "0" +:+ s
  | _ => s
  end.

(** ** DataSources.alignData *)

Module DataSources.
Section Aligner.
(** [new Date(ms)] of the host, with its time zone. *)
Variable newDate : Z → JSDate.

Definition pvMap_of (pvProfile : list OutputPoint) : gmap Z Q :=
  foldl (λ m p, <[v_timestamp p := v_output p]> m) ∅ pvProfile.

Definition priceMap_of (prices : list PricePoint) : gmap Z Q :=
  foldl (λ m p, <[p_timestamp p := p_price p]> m) ∅ prices.

Definition allTimestamps_of (prices : list PricePoint)
    (pvProfile : list OutputPoint) : list Z :=
  Set_from (map p_timestamp prices ++ map v_timestamp pvProfile).

(** One turn of the loop that builds [aligned]. *)
Definition align_step (priceMap pvMap : gmap Z Q)
    (aligned : list AlignedRecord) (ts : Z) : list AlignedRecord :=
  match priceMap !! ts, pvMap !! ts with
  | Some p, Some o => aligned ++ [mkAligned ts p o (newDate (ts * 1000))]
  | _, _ => aligned
  end.

Definition by_timestamp (a b : AlignedRecord) : Q :=
  inject_Z (timestamp a - timestamp b).

Definition alignData (prices : list PricePoint)
    (pvProfile : list OutputPoint) : list AlignedRecord :=
  let pvMap := pvMap_of pvProfile in
  let priceMap := priceMap_of prices in
  let allTimestamps := allTimestamps_of prices pvProfile in
  let aligned := foldl (align_step priceMap pvMap) [] allTimestamps in
  Array_sort by_timestamp aligned.
End Aligner.
End DataSources.

(** ** Compute: the KPI calculator *)

Record Options := mkOptions {
  floorPrice : option Q;
  ppaPrice : option Q
}.

Record MonthlyRevenue := mkMonthlyRevenue {
  mr_month : string;
  revenue : Q;
  production : Q
}.

Record RiskMetrics := mkRiskMetrics { p5 : Z; p50 : Z; p95 : Z }.

Record MonthlyCaptureRate := mkMonthlyCaptureRate {
  mc_month : string;
  baseload : Q;
  capture : Q;
  rate : Q
}.

(** A histogram bin while it is being filled, and as it is returned. *)
Record Bin := mkBin {
  bin_range : string;
  bin_min : Z;
  bin_max : Z;
  allCount : nat;
  pvCount : nat
}.

Record BinPct := mkBinPct {
  range : string;
  pct_min : Z;
  allPct : Q;
  pvPct : Q
}.

Record NegativeHeatmap := mkNegativeHeatmap {
  heatmap : vec (vec nat 24) 12;
  counts : vec (vec nat 24) 12;
  maxCount : nat
}.

Record KPIs := mkKPIs {
  baseloadAvg : Q;
  capturePrice : Q;
  captureRate : Q;
  negativeHoursCount : nat;
  negativeMWh : Z;
  negativePercentage : Q;
  totalProduction : Z;
  merchantRevenue : Z;
  ppaRevenue : option Z;
  riskMetrics : RiskMetrics;
  monthlyCaptureRates : list MonthlyCaptureRate;
  priceDistribution : list BinPct;
  negativeHeatmap : NegativeHeatmap;
  dataPoints : nat
}.

(** ** Battery and representative-week data *)

Record BatteryConfig := mkBatteryConfig {
  powerMW : Q;
  energyMWh : Q;
  efficiency : Q;
  oneCyclePerDay : option bool   (* absent: the default [true] applies *)
}.

Record DailyResult := mkDailyResult {
  dr_date : JSDate;
  uplift : Q;
  shifted : Q
}.

Record BatteryResult := mkBatteryResult {
  totalUplift : Z;
  totalShiftedMWh : Z;
  effectiveCapturePrice : Q;
  negativeReduction : Q;
  upliftPercentage : Q;
  dailyResults : list DailyResult;
  config : BatteryConfig
}.

Record WeekMetric := mkWeekMetric {
  wm_data : list AlignedRecord;
  startDate : JSDate;
  volatility : Q;
  negativeHours : nat;
  avgCapture : Q
}.

Record RepresentativeWeeks := mkRepresentativeWeeks {
  typical : option WeekMetric;
  volatile : option WeekMetric;
  negative : option WeekMetric
}.

(** The constants of [CONFIG.BATTERY] the simulator reads. *)
Module CONFIG.
Module BATTERY.
Definition MIN_SOC : Q := 5 # 100.
Definition MAX_SOC : Q := 95 # 100.
End BATTERY.
(** The constants of [CONFIG.CACHE]: one hour in milliseconds, and the
    prefix of the keys the tool owns in [localStorage]. *)
Module CACHE.
Definition PRICE_TTL : Z := 60 * 60 * 1000.
Definition PREFIX : string := "cva_ipp_".
End CACHE.
End CONFIG.

(** A record of the aligned series as an object: [includes] compares
    references, and the reference of the record at position [i] of the
    series is [i]. *)
Definition Obj : Type := nat * AlignedRecord.

(** [arr[i]] on an array of objects; [undefined] is [None]. *)
Definition Array_get {A : Type} (arr : list A) (i : Z) : option A :=
  if (i <? 0)%Z then None else arr !! Z.to_nat i.

Module Compute.
Section Engine.
(** [String.prototype.localeCompare] of the host: negative, zero or
    positive. *)
Variable localeCompare : string → string → Q.
(** [Math.sqrt] of the host, rounded to a number. *)
Variable Math_sqrt : Q → Q.

(** [values.reduce((a, b) => a + b, 0)] *)
Definition sum (values : list Q) : Q := foldl Qplus 0 values.

Definition calculateMean (values : list Q) : Outcome Q :=
  if (length values =? 0)%nat then Ok 0
  else divide (sum values) (count_to_Q (length values)).

Definition calculateStdDev (values : list Q) : Outcome Q :=
  if (length values =? 0)%nat then Ok 0
  else
    mean ← calculateMean values;
    let squaredDiffs := map (λ v, (v - mean) ^ 2) values in
    m ← calculateMean squaredDiffs;
    Ok (Math_sqrt m).

Definition percentile (sortedArr : list Q) (p : Q) : Outcome Q :=
  if (length sortedArr =? 0)%nat then Ok 0
  else
    let idx := (p / 100) * (count_to_Q (length sortedArr) - 1) in
    let lower := Math_floor idx in
    let upper := Math_ceil idx in
    if (lower =? upper)%Z then Array_at sortedArr lower
    else
      lo ← Array_at sortedArr lower;
      hi ← Array_at sortedArr upper;
      Ok (lo * (inject_Z upper - idx) + hi * (idx - inject_Z lower)).

(** The key [`${year}-${String(month + 1).padStart(2, '0')}`]. *)
Definition monthKey (d : JSDate) : string :=
  pretty (getFullYear d) +:+ "-"
    +:+ padStart2 (pretty (S (fin_to_nat (getMonth d)))).

Definition calculateMonthlyRevenues (data : list AlignedRecord)
    : list MonthlyRevenue :=
  let monthlyMap :=
    foldl (λ monthlyMap d,
             Map_upsert (monthKey (date d)) (0, 0)
               (λ month, (month.1 + price d * output d,
                          month.2 + output d))
               monthlyMap)
          [] data in
  Array_sort (λ a b, localeCompare (mr_month a) (mr_month b))
    (map (λ e, mkMonthlyRevenue e.1 e.2.1 e.2.2) monthlyMap).

Definition calculateRiskMetrics (monthlyRevenues : list MonthlyRevenue)
    : Outcome RiskMetrics :=
  let revenues := map revenue monthlyRevenues in
  if (length revenues =? 0)%nat then Ok (mkRiskMetrics 0 0 0)
  else
    let revenues := Array_sort (λ a b, a - b) revenues in
    q5 ← percentile revenues 5;
    q50 ← percentile revenues 50;
    q95 ← percentile revenues 95;
    Ok (mkRiskMetrics (Math_round q5) (Math_round q50) (Math_round q95)).

(** The per-month accumulator of [calculateMonthlyCaptureRates]. *)
Record MonthAcc := mkMonthAcc {
  priceSum : Q;
  weightedPriceSum : Q;
  outputSum : Q;
  count : nat
}.

Definition monthRate (e : string * MonthAcc) : Outcome MonthlyCaptureRate :=
  let (month, data) := e in
  baseload ← divide (priceSum data) (count_to_Q (count data));
  capture ← (if is_pos (outputSum data)
             then divide (weightedPriceSum data) (outputSum data)
             else Ok 0);
  rate ← (if is_pos baseload
          then q ← divide capture baseload; Ok (q * 100)
          else Ok 0);
  Ok (mkMonthlyCaptureRate month
        (inject_Z (Math_round (baseload * 100)) / 100)
        (inject_Z (Math_round (capture * 100)) / 100)
        (inject_Z (Math_round (rate * 10)) / 10)).

Definition calculateMonthlyCaptureRates (data : list AlignedRecord)
    : Outcome (list MonthlyCaptureRate) :=
  let monthlyMap :=
    foldl (λ monthlyMap d,
             Map_upsert (monthKey (date d)) (mkMonthAcc 0 0 0 0)
               (λ month,
                  mkMonthAcc (priceSum month + price d)
                    (weightedPriceSum month + price d * output d)
                    (outputSum month + output d)
                    (S (count month)))
               monthlyMap)
          [] data in
  rates ← mapM monthRate monthlyMap;
  Ok (Array_sort (λ a b, localeCompare (mc_month a) (mc_month b)) rates).

(** [Math.min(...values)] and [Math.max(...values)] of an array whose
    first element is [v]. *)
Definition spread_min (v : Q) (values : list Q) : Q :=
  foldl Math_min v values.
Definition spread_max (v : Q) (values : list Q) : Q :=
  foldl Math_max v values.

(** [for (let i = min; i < max; i += binWidth) bins.push(...)]; the fuel
    bounds the number of turns. *)
Fixpoint make_bins (fuel : nat) (i max : Z) : list Bin :=
  match fuel with
  | O => []
  | S fuel' =>
      if (i <? max)%Z
      then mkBin (pretty i +:+ "-" +:+ pretty (i + 10)%Z) i (i + 10) 0 0
             :: make_bins fuel' (i + 10)%Z max
      else []
  end.

(** [price >= b.min && price < b.max] *)
Definition in_bin (price : Q) (b : Bin) : bool :=
  Qle_bool (inject_Z (bin_min b)) price
  && negb (Qle_bool (inject_Z (bin_max b)) price).

(** [const bin = bins.find(...); if (bin) bin.xCount++] *)
Fixpoint bump (inc : Bin → Bin) (price : Q) (bins : list Bin) : list Bin :=
  match bins with
  | [] => []
  | b :: bins' =>
      if in_bin price b then inc b :: bins' else b :: bump inc price bins'
  end.

Definition inc_all (b : Bin) : Bin :=
  mkBin (bin_range b) (bin_min b) (bin_max b) (S (allCount b)) (pvCount b).
Definition inc_pv (b : Bin) : Bin :=
  mkBin (bin_range b) (bin_min b) (bin_max b) (allCount b) (S (pvCount b)).

Definition bin_pct (allTotal pvTotal : nat) (b : Bin) : Outcome BinPct :=
  a ← divide (count_to_Q (allCount b)) (count_to_Q allTotal);
  pv ← (if (0 <? pvTotal)%nat
        then q ← divide (count_to_Q (pvCount b)) (count_to_Q pvTotal);
             Ok (inject_Z (Math_round (q * 1000)) / 10)
        else Ok 0);
  Ok (mkBinPct (bin_range b) (bin_min b)
        (inject_Z (Math_round (a * 1000)) / 10) pv).

(** The bins after both fill loops. *)
Definition filled_bins (data : list AlignedRecord) : list Bin :=
  let allPrices := map price data in
  let pvPrices := map price (List.filter (λ d, is_pos (output d)) data) in
  match allPrices with
  | [] => []
  | p0 :: rest =>
      let min := (Math_floor (spread_min p0 rest / 10) * 10)%Z in
      let max := (Math_ceil (spread_max p0 rest / 10) * 10)%Z in
      let bins := make_bins (Z.to_nat (max - min)) min max in
      let bins := foldl (λ bins price, bump inc_all price bins)
                    bins allPrices in
      foldl (λ bins price, bump inc_pv price bins) bins pvPrices
  end.

Definition calculatePriceDistribution (data : list AlignedRecord)
    : Outcome (list BinPct) :=
  let allPrices := map price data in
  let pvPrices := map price (List.filter (λ d, is_pos (output d)) data) in
  let allTotal := length allPrices in
  let pvTotal := length pvPrices in
  mapM (bin_pct allTotal pvTotal) (filled_bins data).

(** [matrix[month][hour]++] *)
Definition bump_cell (month : fin 12) (hour : fin 24)
    (matrix : vec (vec nat 24) 12) : vec (vec nat 24) 12 :=
  vinsert month
    (vinsert hour (S ((matrix !!! month) !!! hour)) (matrix !!! month))
    matrix.

Definition calculateNegativeHeatmap (data : list AlignedRecord)
    : NegativeHeatmap :=
  let zero := vreplicate 12 (vreplicate 24 0%nat) in
  let filled :=
    foldl (λ hc d,
             if is_pos (output d) then
               let month := getMonth (date d) in
               let hour := getHours (date d) in
               let counts := bump_cell month hour hc.2 in
               if is_neg (price d)
               then (bump_cell month hour hc.1, counts)
               else (hc.1, counts)
             else hc)
          (zero, zero) data in
  let maxCount :=
    foldl (λ maxCount row,
             foldl (λ maxCount c, if (maxCount <? c)%nat then c else maxCount)
               maxCount (vec_to_list row))
          0%nat (vec_to_list filled.1) in
  mkNegativeHeatmap filled.1 filled.2 maxCount.

Definition calculateKPIs (data : option (list AlignedRecord))
    (capacityMW : Q) (options : Options) : Outcome KPIs :=
  match data with
  | None => Raise NoData
  | Some data =>
    if (length data =? 0)%nat then Raise NoData
    else
      baseloadAvg ← calculateMean (map price data);
      let totalProduction := foldl (λ s d, s + output d) 0 data in
      let weightedSum := foldl (λ s d, s + price d * output d) 0 data in
      capturePrice ← (if is_pos totalProduction
                      then divide weightedSum totalProduction
                      else Ok 0);
      captureRate ← (if is_pos baseloadAvg
                     then q ← divide capturePrice baseloadAvg; Ok (q * 100)
                     else Ok 0);
      let negativeHours :=
        List.filter (λ d, is_neg (price d) && is_pos (output d)) data in
      let negativeHoursCount := length negativeHours in
      let negativeMWh := foldl (λ s d, s + output d) 0 negativeHours in
      negativePercentage ← (if is_pos totalProduction
                            then q ← divide negativeMWh totalProduction;
                                 Ok (q * 100)
                            else Ok 0);
      let merchantRevenue :=
        foldl (λ s d,
                 let effectivePrice :=
                   match floorPrice options with
                   | Some floor => Math_max (price d) floor
                   | None => price d
                   end in
                 s + effectivePrice * output d)
              0 data in
      let ppaRevenue :=
        match ppaPrice options with
        | Some ppa => Some (totalProduction * ppa)
        | None => None
        end in
      let monthlyRevenues := calculateMonthlyRevenues data in
      riskMetrics ← calculateRiskMetrics monthlyRevenues;
      monthlyCaptureRates ← calculateMonthlyCaptureRates data;
      priceDistribution ← calculatePriceDistribution data;
      let negativeHeatmap := calculateNegativeHeatmap data in
      Ok (mkKPIs
            (inject_Z (Math_round (baseloadAvg * 100)) / 100)
            (inject_Z (Math_round (capturePrice * 100)) / 100)
            (inject_Z (Math_round (captureRate * 10)) / 10)
            negativeHoursCount
            (Math_round negativeMWh)
            (inject_Z (Math_round (negativePercentage * 10)) / 10)
            (Math_round totalProduction)
            (Math_round merchantRevenue)
            (Math_round <$> ppaRevenue)
            riskMetrics
            monthlyCaptureRates
            priceDistribution
            negativeHeatmap
            (length data))
  end.

(** *** The battery simulator *)

(** The variables of one simulated day. *)
Record DayState := mkDayState {
  soc : Q;
  dayUplift : Q;
  dayShifted : Q;
  dayNegAvoided : Q
}.

(** The running totals over the days. *)
Record Totals := mkTotals {
  sum_totalUplift : Q;
  sum_totalShiftedMWh : Q;
  sum_totalNegativeAvoided : Q;
  sum_originalNegativeRevenue : Q;
  sum_dailyResults : list DailyResult
}.

Definition groupByDay (data : list Obj) : list (list Obj) :=
  let dayMap :=
    foldl (λ dayMap d,
             Map_upsert (isoDate (date d.2)) [] (λ day, day ++ [d]) dayMap)
          [] data in
  map snd dayMap.

(** [arr.includes(d)] on objects. *)
Definition includes (arr : list Obj) (d : Obj) : bool :=
  bool_decide (d.1 ∈ map fst arr).

Section Battery.
Variable batteryConfig : BatteryConfig.

Definition sqrtEfficiency : Q := Math_sqrt (efficiency batteryConfig).
Definition minSOC : Q := CONFIG.BATTERY.MIN_SOC * energyMWh batteryConfig.
Definition maxSOC : Q := CONFIG.BATTERY.MAX_SOC * energyMWh batteryConfig.

(** [oneCyclePerDay ? Math.ceil(energyMWh / powerMW) : 24] *)
Definition sliceEnd : Outcome Z :=
  if default true (oneCyclePerDay batteryConfig)
  then q ← divide (energyMWh batteryConfig) (powerMW batteryConfig);
       Ok (Math_ceil q)
  else Ok 24%Z.

Definition sortedHours_of (dayData : list Obj) : list Obj :=
  Array_sort (λ a b, price a.2 - price b.2) dayData.

Definition chargeHours_of (sortedHours : list Obj) : Outcome (list Obj) :=
  n ← sliceEnd;
  Ok (Array_slice0 (List.filter (λ d, is_pos (output d.2)) sortedHours) n).

Definition dischargeHours_of (sortedHours chargeHours : list Obj)
    : Outcome (list Obj) :=
  n ← sliceEnd;
  Ok (Array_slice0
        (rev (List.filter
                (λ d, Qeq_bool (output d.2) 0
                      || negb (includes chargeHours d))
                sortedHours))
        n).

(** The body of the charging loop. *)
Definition charge_step (st : DayState) (hour : Obj) : Outcome DayState :=
  let availableCapacity := maxSOC - soc st in
  let chargeableFromPV := Math_min (output hour.2) (powerMW batteryConfig) in
  let actualCharge :=
    Math_min chargeableFromPV availableCapacity * sqrtEfficiency in
  if is_pos actualCharge then
    q ← divide actualCharge sqrtEfficiency;
    let chargeRevenueLost := q * price hour.2 in
    let dayUplift' := dayUplift st - chargeRevenueLost in
    let soc' := soc st + actualCharge in
    q ← divide actualCharge sqrtEfficiency;
    let dayShifted' := dayShifted st + q in
    dayNegAvoided' ← (if is_neg (price hour.2)
                      then q ← divide actualCharge sqrtEfficiency;
                           Ok (dayNegAvoided st + q)
                      else Ok (dayNegAvoided st));
    Ok (mkDayState soc' dayUplift' dayShifted' dayNegAvoided')
  else Ok st.

(** The body of the discharging loop. *)
Definition discharge_step (st : DayState) (hour : Obj) : DayState :=
  let availableEnergy := soc st - minSOC in
  let actualDischarge := Math_min (powerMW batteryConfig) availableEnergy in
  if is_pos actualDischarge then
    let dischargeRevenue := actualDischarge * sqrtEfficiency * price hour.2 in
    mkDayState (soc st - actualDischarge) (dayUplift st + dischargeRevenue)
      (dayShifted st) (dayNegAvoided st)
  else st.

(** The state at the start of a day: [soc = minSOC], the rest zero. *)
Definition day_start : DayState := mkDayState minSOC 0 0 0.

(** One day: both loops, from [day_start]. *)
Definition simulate_day (dayData : list Obj) : Outcome DayState :=
  let sortedHours := sortedHours_of dayData in
  chargeHours ← chargeHours_of sortedHours;
  dischargeHours ← dischargeHours_of sortedHours chargeHours;
  st ← foldM charge_step day_start chargeHours;
  Ok (foldl discharge_step st dischargeHours).

(** The body of [for (const dayData of days)]. *)
Definition day_step (tot : Totals) (dayData : list Obj) : Outcome Totals :=
  st ← simulate_day dayData;
  let originalNegativeRevenue :=
    foldl (λ r hour,
             if is_neg (price hour.2) && is_pos (output hour.2)
             then r + price hour.2 * output hour.2 else r)
          (sum_originalNegativeRevenue tot) dayData in
  match dayData with
  | [] => Raise TypeError
  | first :: _ =>
      Ok (mkTotals
            (sum_totalUplift tot + dayUplift st)
            (sum_totalShiftedMWh tot + dayShifted st)
            (sum_totalNegativeAvoided tot + dayNegAvoided st)
            originalNegativeRevenue
            (sum_dailyResults tot
               ++ [mkDailyResult (date first.2) (dayUplift st)
                     (dayShifted st)]))
  end.

Definition simulate_days (data : list AlignedRecord) : Outcome Totals :=
  let days := groupByDay (imap (λ i d, (i, d)) data) in
  foldM day_step (mkTotals 0 0 0 0 []) days.

(** The denominator of [negativeReduction]. *)
Definition negativeProduction (data : list AlignedRecord) : Q :=
  foldl (λ s d, s + output d) 0
    (List.filter (λ d, is_neg (price d) && is_pos (output d)) data).

Definition simulateBattery (data : list AlignedRecord)
    : Outcome BatteryResult :=
  tot ← simulate_days data;
  let totalUplift := sum_totalUplift tot in
  let totalShiftedMWh := sum_totalShiftedMWh tot in
  let totalNegativeAvoided := sum_totalNegativeAvoided tot in
  let originalRevenue := foldl (λ s d, s + price d * output d) 0 data in
  let newRevenue := originalRevenue + totalUplift in
  let totalProduction := foldl (λ s d, s + output d) 0 data in
  effectiveCapturePrice ← (if is_pos totalProduction
                           then divide newRevenue totalProduction
                           else Ok 0);
  negativeReduction ← (if is_pos totalNegativeAvoided
                       then q ← divide totalNegativeAvoided
                                  (negativeProduction data);
                            Ok (q * 100)
                       else Ok 0);
  upliftPercentage ← (if is_pos originalRevenue
                      then q ← divide totalUplift originalRevenue;
                           Ok (inject_Z (Math_round (q * 1000)) / 10)
                      else Ok 0);
  Ok (mkBatteryResult
        (Math_round totalUplift)
        (Math_round totalShiftedMWh)
        (inject_Z (Math_round (effectiveCapturePrice * 100)) / 100)
        (inject_Z (Math_round (negativeReduction * 10)) / 10)
        upliftPercentage
        (sum_dailyResults tot)
        batteryConfig).



End Battery.

(** *** The representative-week selector *)

(** The body of the loop of [groupByWeek], on [(weeks, currentWeek)]. *)
Definition week_step (st : list (list AlignedRecord) * list AlignedRecord)
    (d : AlignedRecord) : list (list AlignedRecord) * list AlignedRecord :=
  let (weeks, currentWeek) := st in
  if (length currentWeek =? 0)%nat then (weeks, currentWeek ++ [d])
  else if (length currentWeek <? 168)%nat then (weeks, currentWeek ++ [d])
  else (weeks ++ [currentWeek], [d]).

Definition groupByWeek (data : list AlignedRecord)
    : list (list AlignedRecord) :=
  let (weeks, currentWeek) := foldl week_step ([], []) data in
  if (120 <=? length currentWeek)%nat then weeks ++ [currentWeek]
  else weeks.

Definition calculateWeekCaptureRate (weekData : list AlignedRecord)
    : Outcome Q :=
  let totalOutput := foldl (λ s d, s + output d) 0 weekData in
  if Qeq_bool totalOutput 0 then Ok 0
  else
    let weightedSum := foldl (λ s d, s + price d * output d) 0 weekData in
    capturePrice ← divide weightedSum totalOutput;
    avgPrice ← calculateMean (map price weekData);
    if is_pos avgPrice then divide capturePrice avgPrice else Ok 0.

Definition weekMetric (week : list AlignedRecord) : Outcome WeekMetric :=
  let prices := map price week in
  let negativeHours :=
    length (List.filter (λ d, is_neg (price d) && is_pos (output d)) week) in
  volatility ← calculateStdDev prices;
  avgCapture ← calculateWeekCaptureRate week;
  match week with
  | [] => Raise TypeError
  | first :: _ =>
      Ok (mkWeekMetric week (date first) volatility negativeHours avgCapture)
  end.

Definition findRepresentativeWeeks (data : list AlignedRecord)
    : Outcome RepresentativeWeeks :=
  let weeks := groupByWeek data in
  weekMetrics ← mapM weekMetric weeks;
  let sortedByVolatility :=
    Array_sort (λ a b, volatility a - volatility b) weekMetrics in
  let medianIdx :=
    Math_floor (count_to_Q (length sortedByVolatility) / 2) in
  let typical := Array_get sortedByVolatility medianIdx in
  let volatile :=
    Array_get sortedByVolatility
      (Z.of_nat (length sortedByVolatility) - 1) in
  let sortedByNegative :=
    Array_sort (λ a b, count_to_Q (negativeHours b)
                       - count_to_Q (negativeHours a)) weekMetrics in
  let negative := Array_get sortedByNegative 0 in
  Ok (mkRepresentativeWeeks typical volatile negative).
End Engine.
End Compute.

(** ** The specification's formulas

    The metrics as section 4.2 of the specification words them, on exact
    numbers, for comparison with what [Compute.calculateKPIs] returns. *)

Module Spec.
(** [Σ f] over the records of a series. *)
Definition total (f : AlignedRecord → Q) (data : list AlignedRecord) : Q :=
  foldr (λ d acc, f d + acc) 0 data.

(** "rounded to [k] decimals", halves upwards. *)
Definition to_decimals (k : nat) (x : Q) : Q :=
  inject_Z (Math_round (x * inject_Z (10 ^ Z.of_nat k)))
  / inject_Z (10 ^ Z.of_nat k).

(** "Baseload average price = arithmetic mean of price over all records" *)
Definition baseloadAvg (data : list AlignedRecord) : Q :=
  total price data / count_to_Q (length data).

(** "Total production = sum of output" *)
Definition totalProduction (data : list AlignedRecord) : Q :=
  total output data.

(** "Σ price·output", the revenue of a series at spot prices. *)
Definition spotRevenue (data : list AlignedRecord) : Q :=
  total (λ d, price d * output d) data.

(** "Capture price = Σ(price·output) / Σ(output); 0 if total production
    is 0" (output is never negative in the data model, so "is 0" is "is
    not positive"). *)
Definition capturePrice (data : list AlignedRecord) : Q :=
  if is_pos (totalProduction data)
  then spotRevenue data / totalProduction data
  else 0.

(** "Capture rate = 100·capturePrice/baseloadAvg; 0 if baseloadAvg ≤ 0" *)
Definition captureRate (data : list AlignedRecord) : Q :=
  if is_pos (baseloadAvg data)
  then 100 * capturePrice data / baseloadAvg data
  else 0.

(** "Negative-exposure set = records with price<0 AND output>0" *)
Definition negativeSet (data : list AlignedRecord) : list AlignedRecord :=
  List.filter (λ d, is_neg (price d) && is_pos (output d)) data.

Definition negativeMWh (data : list AlignedRecord) : Q :=
  total output (negativeSet data).

(** "negativePercentage = 100·negativeMWh/totalProduction", 0 without
    production. *)
Definition negativePercentage (data : list AlignedRecord) : Q :=
  if is_pos (totalProduction data)
  then 100 * negativeMWh data / totalProduction data
  else 0.

(** "effectivePrice = max(price, floorPrice) if floorPrice given, else
    price" *)
Definition effectivePrice (floor : option Q) (d : AlignedRecord) : Q :=
  match floor with
  | Some f => Math_max (price d) f
  | None => price d
  end.

(** "Merchant revenue = Σ(effectivePrice·output)" *)
Definition merchantRevenue (floor : option Q) (data : list AlignedRecord) : Q :=
  total (λ d, effectivePrice floor d * output d) data.

(** "PPA revenue (if ppaPrice given) = totalProduction·ppaPrice" *)
Definition ppaRevenue (ppa : option Q) (data : list AlignedRecord) : option Q :=
  (λ p, totalProduction data * p) <$> ppa.







(** The two populations: the prices of all hours and of the hours with
    production. *)
Definition allPrices (data : list AlignedRecord) : list Q :=
  map price data.
Definition pvPrices (data : list AlignedRecord) : list Q :=
  map price (List.filter (λ d, is_pos (output d)) data).
End Spec.

(** ** Example inputs

    A host for the closed examples: month keys are made of digits and a
    hyphen, which every locale orders as their code units do; the square
    root is exact on ratios of perfect squares. *)

Module Example.
Definition localeCompare (a b : string) : Q :=
  match String.compare a b with
  | Lt => -1
  | Eq => 0
  | Gt => 1
  end.

Definition Math_sqrt (x : Q) : Q :=
  Z.sqrt (Qnum x) # Pos.sqrt (Qden x).

(** 1 January 2024, 00:00, and the hour after. *)
Definition midnight : JSDate := mkDate 2024 0%fin 0%fin "2024-01-01".
Definition one_o_clock : JSDate := mkDate 2024 0%fin 1%fin "2024-01-01".

(** The 48 hourly records of the specification's end-to-end example:
    prices alternate 100 and -5, the output is constantly 10. *)
Definition alternating_series (t0 : Z) (dates : nat → JSDate)
    : list AlignedRecord :=
  map (λ i, mkAligned (t0 + 3600 * Z.of_nat i)
              (if Nat.even i then 100 else -5) 10 (dates i))
      (seq 0 48).


(** One hour at 50 without production. *)
Definition dark_series : list AlignedRecord :=
  [mkAligned 1704067200 50 0 midnight].

(** One producing hour at a negative price. *)
Definition negative_series : list AlignedRecord :=
  [mkAligned 1704067200 (-5) 10 midnight].


(** Two producing hours of one month at 50. *)
Definition flat_series : list AlignedRecord :=
  [mkAligned 1704067200 50 10 midnight;
   mkAligned 1704070800 50 30 one_o_clock].

(** The day of the specification's battery example: one producing hour
    at -10, one dark hour at 50; and its battery. *)
Definition battery_day : list AlignedRecord :=
  [mkAligned 1704067200 (-10) 10 midnight;
   mkAligned 1704070800 50 0 one_o_clock].

Definition battery : BatteryConfig := mkBatteryConfig 10 20 1 (Some true).

(** The date of the [i]-th hour of January 2024, for the first nine
    days. *)
Definition hourly_date (i : nat) : JSDate :=
  mkDate 2024 0%fin (default 0%fin (fin_enum 24 !! (i mod 24)%nat))
    ("2024-01-0" +:+ pretty (1 + i / 24)%nat).

(** One full week of 168 hourly records: the price climbs from 40 to 63
    over each day, the output is constantly 10. *)
Definition week_series : list AlignedRecord :=
  map (λ i, mkAligned (1704067200 + 3600 * Z.of_nat i)
              (inject_Z (40 + Z.of_nat (i mod 24))) 10 (hourly_date i))
      (seq 0 168).

End Example.

(** [Math.abs] *)
Definition Math_abs (x : Q) : Q := if Qlt_le_dec x 0 then - x else x.

(** ** DataSources: the price feed and its cache

    The rest of [DataSources] as far as it is code of its own: the parser
    of the Energy-Charts reply, the cache in [localStorage] and
    [fetchPrices], which ties them to the network.  The host gives
    [localStorage] (a map from strings to strings, whose [setItem] may
    throw when the quota is exceeded), [JSON.stringify] and [JSON.parse],
    [Date.now] (milliseconds), [toISOString] and [fetch]. *)

(** The reply of the price feed: the two arrays the parser reads, each
    possibly missing; a price may be [null]. *)
Record ChartsData := mkChartsData {
  unix_seconds : option (list Z);
  price_feed : option (list (option Q))
}.

(** What [JSON.parse] gives for a stored item, destructured as
    [{ data, expiry }]: either field may be [undefined]. *)
Record CacheItem (D : Type) := mkCacheItem {
  item_data : option D;
  item_expiry : option Z
}.
Arguments mkCacheItem {D} item_data item_expiry.
Arguments item_data {D} c.
Arguments item_expiry {D} c.

(** What [await fetch(url)] followed by [response.json()] can give: the
    request fails, or a reply arrives with its [ok] flag, its status and
    its body, which may not be JSON. *)
Inductive FetchReply :=
  | NetworkFailure
  | HttpReply (ok : bool) (status : Z) (json : option ChartsData).

(** The errors [fetchPrices] rethrows. *)
Inductive FetchError :=
  | RequestFailed
  | ApiReturned (status : Z)
  | InvalidJson.

Module DataFeed.
(** [parseEnergyChartsResponse]: the loop over the indices of
    [unix_seconds], which skips the prices that are [null] or missing. *)
Definition parseEnergyChartsResponse (data : ChartsData) : list PricePoint :=
  match unix_seconds data, price_feed data with
  | Some seconds, Some price =>
      foldl (λ prices i,
               match seconds !! i, price !! i with
               | Some ts, Some (Some p) => prices ++ [mkPricePoint ts p]
               | _, _ => prices
               end)
            [] (seq 0 (length seconds))
  | _, _ => []
  end.

Section Cache.
Context {D : Type}.
Variable JSON_stringify : CacheItem D → string.
Variable JSON_parse : string → option (CacheItem D).
(** Whether [localStorage.setItem(key, value)] succeeds on a store. *)
Variable accepts : gmap string string → string → string → bool.

(** [getFromCache(key)] at the time [now]: the cached data (or [null],
    here [None]) and the store afterwards. *)
Definition getFromCache (store : gmap string string) (now : Z)
    (key : string) : option D * gmap string string :=
  match store !! key with
  | None => (None, store)
  | Some item =>
      if decide (item = "") then (None, store)
      else
        match JSON_parse item with
        | None => (None, store)
        | Some parsed =>
            match item_expiry parsed with
            | Some expiry =>
                if (expiry <? now)%Z then (None, delete key store)
                else (item_data parsed, store)
            | None => (item_data parsed, store)
            end
        end
  end.

(** [saveToCache(key, data)]: a failing [setItem] is caught and leaves
    the store as it is. *)
Definition saveToCache (store : gmap string string) (now : Z)
    (key : string) (data : D) : gmap string string :=
  let item := mkCacheItem (Some data) (Some (now + CONFIG.CACHE.PRICE_TTL)%Z) in
  if accepts store key (JSON_stringify item)
  then <[key := JSON_stringify item]> store
  else store.

(** [clearCache()]: the keys with the prefix are collected first and
    then removed one by one. *)
Definition clearCache (store : gmap string string) : gmap string string :=
  let keys :=
    List.filter (λ k, String.prefix CONFIG.CACHE.PREFIX k)
      (map fst (map_to_list store)) in
  foldl (λ store k, delete k store) store keys.
End Cache.

Section Fetch.
Variable JSON_stringify : CacheItem (list PricePoint) → string.
Variable JSON_parse : string → option (CacheItem (list PricePoint)).
Variable accepts : gmap string string → string → string → bool.
(** [date.toISOString()] of a time in milliseconds. *)
Variable toISOString : Z → string.
(** [fetch(url)], awaited, with the body read as JSON. *)
Variable fetch : string → FetchReply.

Definition ENERGY_CHARTS_BASE : string := "https://api.energy-charts.info".

Definition cacheKey (bzn : string) (startDate endDate : Z) : string :=
  CONFIG.CACHE.PREFIX +:+ "prices_" +:+ bzn +:+ "_"
    +:+ toISOString startDate +:+ "_" +:+ toISOString endDate.

(** The URL of the request: the bidding zone and the two dates in epoch
    seconds. *)
Definition priceUrl (bzn : string) (startDate endDate : Z) : string :=
  let startUnix := Math_floor (inject_Z startDate / 1000) in
  let endUnix := Math_floor (inject_Z endDate / 1000) in
  ENERGY_CHARTS_BASE +:+ "/price?bzn=" +:+ bzn
    +:+ "&start=" +:+ pretty startUnix
    +:+ "&end=" +:+ pretty endUnix.

(** [fetchPrices(bzn, startDate, endDate)] at the time [now]: the prices
    or the error thrown, and the store afterwards.  [InvalidJson] stands
    for a body that is not JSON or is the JSON [null]. *)
Definition fetchPrices (store : gmap string string) (now : Z)
    (bzn : string) (startDate endDate : Z)
    : (FetchError + list PricePoint) * gmap string string :=
  let key := cacheKey bzn startDate endDate in
  match getFromCache JSON_parse store now key with
  | (Some cached, store) => (inr cached, store)
  | (None, store) =>
      match fetch (priceUrl bzn startDate endDate) with
      | NetworkFailure => (inl RequestFailed, store)
      | HttpReply false status _ => (inl (ApiReturned status), store)
      | HttpReply true _ None => (inl InvalidJson, store)
      | HttpReply true _ (Some data) =>
          let prices := parseEnergyChartsResponse data in
          (inr prices, saveToCache JSON_stringify accepts store now key prices)
      end
  end.
End Fetch.

(** *** The synthetic PV profile

    [generateSyntheticPVProfile] walks from the start date, cut to the
    full hour, to the end date in steps of one hour.  Times are in
    milliseconds.  The host gives the calendar ([new Date(ms)], the cut
    to the hour by [setMinutes(0, 0, 0)], the time of
    [new Date(year, 0, 0)]), [Math.exp], [Math.cos], [Math.PI] and the
    draws of [Math.random], numbered in the order they are made. *)
Section Profile.
Variable newDate : Z → JSDate.
Variable setMinutes0 : Z → Z.
Variable yearStart : Z → Z.
Variable Math_exp : Q → Q.
Variable Math_cos : Q → Q.
Variable Math_PI : Q.
Variable Math_random : nat → Q.

Definition sunriseHours : vec Z 12 :=
  [# 8; 7; 6; 6; 5; 5; 5; 6; 6; 7; 7; 8]%Z.
Definition sunsetHours : vec Z 12 :=
  [# 17; 18; 19; 20; 21; 21; 21; 20; 19; 18; 17; 16]%Z.

Definition getSunriseHour (month : fin 12) : Z := sunriseHours !!! month.
Definition getSunsetHour (month : fin 12) : Z := sunsetHours !!! month.

Definition getSeasonalFactor (dayOfYear : Z) : Q :=
  let offset := Math_abs (inject_Z dayOfYear - 172) in
  let factor := Math_cos (offset * Math_PI / (1825 # 10)) * (35 # 100)
                + (65 # 100) in
  Math_max (3 # 10) (Math_min 1 factor).

Definition getDayOfYear (current : Z) : Z :=
  let start := yearStart (getFullYear (newDate current)) in
  let diff := (current - start)%Z in
  let oneDay := (1000 * 60 * 60 * 24)%Z in
  Math_floor (inject_Z diff / inject_Z oneDay).

(** Whether the hour of [current] is a daylight hour of its month. *)
Definition daylight (current : Z) : bool :=
  let month := getMonth (newDate current) in
  let hour := Z.of_nat (fin_to_nat (getHours (newDate current))) in
  (getSunriseHour month <=? hour)%Z && (hour <=? getSunsetHour month)%Z.

(** The output of the hour that starts at [current], before it is
    rounded; [draw] is the value of [Math.random()]. *)
Definition solarOutput (capacityMW : Q) (current : Z) (draw : Q) : Q :=
  let month := getMonth (newDate current) in
  let hour := Z.of_nat (fin_to_nat (getHours (newDate current))) in
  let dayOfYear := getDayOfYear current in
  let sunriseHour := getSunriseHour month in
  let sunsetHour := getSunsetHour month in
  if daylight current then
    let midday := inject_Z (sunriseHour + sunsetHour) / 2 in
    let halfDay := inject_Z (sunsetHour - sunriseHour) / 2 in
    let hourFromMidDay := Math_abs (inject_Z hour - midday) in
    let dayFactor :=
      Math_exp (- (hourFromMidDay / (halfDay * (6 # 10))) ^ 2) in
    let seasonalFactor := getSeasonalFactor dayOfYear in
    let weatherFactor := (7 # 10) + draw * (3 # 10) in
    let output := capacityMW * dayFactor * seasonalFactor * weatherFactor in
    Math_max 0 output
  else 0.

(** The loop [while (current <= endDate)], with the number of draws made
    so far; [None] when the fuel runs out before the loop ends. *)
Fixpoint profile_loop (fuel : nat) (endDate : Z) (capacityMW : Q)
    (current : Z) (draws : nat) : option (list OutputPoint) :=
  match fuel with
  | O => None
  | S fuel' =>
      if (current <=? endDate)%Z then
        let output := solarOutput capacityMW current (Math_random draws) in
        let point :=
          mkOutputPoint (Math_floor (inject_Z current / 1000))
            (inject_Z (Math_round (output * 1000)) / 1000) in
        let draws' := if daylight current then S draws else draws in
        rest ← profile_loop fuel' endDate capacityMW
                 (current + 3600000)%Z draws';
        Some (point :: rest)
      else Some []
  end.

Definition generateSyntheticPVProfile (fuel : nat) (startDate endDate : Z)
    (capacityMW : Q) : option (list OutputPoint) :=
  profile_loop fuel endDate capacityMW (setMinutes0 startDate) 0.
End Profile.

(** The number of turns the loop takes from [current]: the hours from
    [current] to [endDate], both ends included. *)
Definition hours_left (endDate current : Z) : nat :=
  if (current <=? endDate)%Z
  then S (Z.to_nat ((endDate - current) / 3600000))
  else 0%nat.
End DataFeed.

(** ** The proxy worker

    The Cloudflare worker that forwards a prompt to the OpenAI API.  A
    request is what the worker reads of it: the method, the [Origin]
    header, the path of the URL and the body as [request.json()] gives
    it.  The upstream call and the environment are inputs. *)

Record RequestBody := mkRequestBody {
  prompt : option string;
  system : option string
}.

Record Request := mkRequest {
  method : string;
  origin_header : option string;        (* [headers.get('Origin')] *)
  pathname : string;                    (* [new URL(request.url).pathname] *)
  json_body : option RequestBody        (* [None]: [request.json()] throws *)
}.

(** What the worker reads of the reply of the OpenAI API:
    [choices?.[0]?.message?.content], [model] and [usage]. *)
Record OpenAIData := mkOpenAIData {
  content : option string;
  model : option string;
  usage : option string
}.

(** The upstream call: it throws; or a reply arrives that is not [ok],
    whose text is read for the log ([None]: [text()] throws); or a reply
    arrives that is [ok], whose body is read as JSON ([None]: [json()]
    throws). *)
Inductive Upstream :=
  | UpstreamFailure
  | UpstreamError (text : option string)
  | UpstreamOk (data : option OpenAIData).

Inductive JsonReply :=
  | ErrorReply (error : string) (fallback : bool)
  | MemoReply (memo : string) (model usage : option string).

Inductive ResponseBody :=
  | EmptyBody
  | TextBody (text : string)
  | JsonBody (reply : JsonReply).

Record Response := mkResponse {
  response_body : ResponseBody;
  status : Z;
  headers : list (string * string)
}.

Module Worker.
Definition ALLOWED_ORIGINS : list string :=
  ["https://tibcva.github.io"; "http://localhost:3000";
   "http://localhost:8080"; "http://127.0.0.1:5500"].

Definition CORS_HEADERS : list (string * string) :=
  [("Access-Control-Allow-Methods", "POST, OPTIONS");
   ("Access-Control-Allow-Headers", "Content-Type");
   ("Access-Control-Max-Age", "86400")].

(** [s.replace(/\/$/, '')]: one slash at the very end is dropped. *)
Fixpoint strip_trailing_slash (s : string) : string :=
  match s with
  | EmptyString => EmptyString
  | String c EmptyString => if String.eqb s "/" then EmptyString else s
  | String c s' => String c (strip_trailing_slash s')
  end.

(** A string as a condition: the empty string is falsy. *)
Definition truthy (s : option string) : bool :=
  match s with
  | None => false
  | Some s => negb (String.eqb s "")
  end.

Definition isAllowedOrigin (origin : option string) : bool :=
  match origin with
  | None => false
  | Some o =>
      if String.eqb o "" then false
      else existsb (λ allowed, String.prefix (strip_trailing_slash allowed) o)
             ALLOWED_ORIGINS
  end.

Definition handleCORS (request : Request) : Response :=
  let origin := origin_header request in
  if isAllowedOrigin origin
  then mkResponse EmptyBody 204
         (CORS_HEADERS
            ++ [("Access-Control-Allow-Origin", default "" origin)])
  else mkResponse (TextBody "Forbidden") 403 [].

(** [origin || ALLOWED_ORIGINS[0]] *)
Definition origin_or_default (origin : option string) : string :=
  match origin with
  | Some o => if String.eqb o "" then "https://tibcva.github.io" else o
  | None => "https://tibcva.github.io"
  end.

Definition jsonResponse (data : JsonReply) (status : Z)
    (origin : option string) : Response :=
  mkResponse (JsonBody data) status
    ([("Content-Type", "application/json");
      ("Access-Control-Allow-Origin", origin_or_default origin)]
       ++ CORS_HEADERS).

Section Handler.
(** [env.OPENAI_API_KEY] *)
Variable OPENAI_API_KEY : option string.
(** The call of the OpenAI API with the key, the system message and the
    prompt. *)
Variable callOpenAI : string → string → string → Upstream.

Definition handleInsightsRequest (request : Request)
    (origin : option string) : Response :=
  match json_body request with
  | None =>
      jsonResponse (ErrorReply "Internal server error" true) 500 origin
  | Some body =>
      match prompt body with
      | Some p =>
        if String.eqb p "" then
          jsonResponse (ErrorReply "Missing prompt" false) 400 origin
        else
          match OPENAI_API_KEY with
          | Some apiKey =>
            if String.eqb apiKey "" then
              jsonResponse (ErrorReply "Service temporarily unavailable" true)
                503 origin
            else
              let systemContent :=
                if truthy (system body) then default "" (system body)
                else "You are an expert energy market analyst." in
              match callOpenAI apiKey systemContent p with
              | UpstreamFailure =>
                  jsonResponse (ErrorReply "Internal server error" true)
                    500 origin
              | UpstreamError None =>
                  jsonResponse (ErrorReply "Internal server error" true)
                    500 origin
              | UpstreamError (Some _) =>
                  jsonResponse (ErrorReply "AI service error" true) 502 origin
              | UpstreamOk None =>
                  jsonResponse (ErrorReply "Internal server error" true)
                    500 origin
              | UpstreamOk (Some openaiData) =>
                  if truthy (content openaiData) then
                    jsonResponse
                      (MemoReply (default "" (content openaiData))
                         (model openaiData) (usage openaiData))
                      200 origin
                  else
                    jsonResponse (ErrorReply "Invalid AI response" true)
                      502 origin
              end
          | None =>
              jsonResponse (ErrorReply "Service temporarily unavailable" true)
                503 origin
          end
      | None => jsonResponse (ErrorReply "Missing prompt" false) 400 origin
      end
  end.

(** The [fetch] handler of the worker. *)
Definition fetch (request : Request) : Response :=
  if String.eqb (method request) "OPTIONS" then handleCORS request
  else if negb (String.eqb (method request) "POST")
  then mkResponse (TextBody "Method not allowed") 405 []
  else
    let origin := origin_header request in
    if negb (isAllowedOrigin origin)
    then mkResponse (TextBody "Forbidden") 403 []
    else if String.eqb (pathname request) "/api/insights"
    then handleInsightsRequest request origin
    else mkResponse (TextBody "Not found") 404 [].
End Handler.
End Worker.

(** ** The memo templates

    A memo is a JavaScript string: a sequence of UTF-16 code units. *)
Module PromptTemplates.
(** The line terminators of a regular expression: LF, CR, LS and PS. *)
Definition isLineTerminator (c : N) : bool :=
  (c =? 10)%N || (c =? 13)%N || (c =? 8232)%N || (c =? 8233)%N.

(** ["#"] *)
Definition hash : N := 35.

(** [memo.replace(/^#(?!#)/gm, '###')] from a position on: [lineStart]
    says whether the position is the start of the string or follows a
    line terminator.  A match is one ["#"] at the start of a line that is
    not followed by another; the search goes on behind it. *)
Fixpoint replace_from (lineStart : bool) (memo : list N) : list N :=
  match memo with
  | [] => []
  | c :: rest =>
      if lineStart && (c =? hash)%N
         && negb (match rest with
                  | c' :: _ => (c' =? hash)%N
                  | [] => false
                  end)
      then [hash; hash; hash] ++ replace_from false rest
      else c :: replace_from (isLineTerminator c) rest
  end.

Definition formatMemoResponse (apiResponse : list N) : list N :=
  replace_from true apiResponse.
End PromptTemplates.

(** The number of top-level headings: the lines that start with one
    ["#"] that is not followed by another. *)
Fixpoint headings_from (lineStart : bool) (memo : list N) : nat :=
  match memo with
  | [] => 0
  | c :: rest =>
      if lineStart && (c =? PromptTemplates.hash)%N
         && negb (match rest with
                  | c' :: _ => (c' =? PromptTemplates.hash)%N
                  | [] => false
                  end)
      then S (headings_from false rest)
      else headings_from (PromptTemplates.isLineTerminator c) rest
  end.

(** ** The form and the analysis workflow

    [UI.getFormData] reads the form, and [App.runAnalysis] runs the
    engine on what the form says.  A field of the page is what the code
    reads of it: the text of an input ([None]: the element is missing),
    the number [parseFloat] makes of it ([None]: NaN), or the state of a
    checkbox ([None]: the element is missing). *)

Record RawForm := mkRawForm {
  raw_market : option string;
  raw_technology : option string;
  raw_capacity : option Q;
  raw_cod : option string;
  raw_period : option string;
  raw_dateStart : option string;
  raw_dateEnd : option string;
  raw_demoMode : option bool;
  raw_rtm : option string;
  raw_ppaPrice : option Q;
  raw_useFloor : option bool;
  raw_floorPrice : option Q;
  raw_enableBattery : option bool;
  raw_batteryPower : option Q;
  raw_batteryEnergy : option Q;
  raw_efficiency : option Q;
  raw_oneCycle : option bool
}.

Record FormData := mkFormData {
  fd_market : string;
  fd_technology : string;
  fd_capacityMW : Q;
  fd_cod : option string;
  fd_period : string;
  fd_dateStart : option string;
  fd_dateEnd : option string;
  fd_demoMode : bool;
  fd_routeToMarket : string;
  fd_ppaPrice : Q;
  fd_useFloor : bool;
  fd_floorPrice : Q;
  fd_enableBattery : bool;
  fd_batteryPower : Q;
  fd_batteryEnergy : Q;
  fd_efficiency : Q;
  fd_oneCyclePerDay : bool
}.

Module UI.
(** [x || d] on a number: NaN and 0 give the default. *)
Definition number_or (x : option Q) (d : Q) : Q :=
  match x with
  | Some v => if Qeq_bool v 0 then d else v
  | None => d
  end.

(** [s || d] on a string: a missing and an empty string give the
    default. *)
Definition string_or (s : option string) (d : string) : string :=
  match s with
  | Some v => if String.eqb v "" then d else v
  | None => d
  end.

(** [s || null] *)
Definition string_or_null (s : option string) : option string :=
  match s with
  | Some v => if String.eqb v "" then None else Some v
  | None => None
  end.

Definition getFormData (raw : RawForm) : FormData :=
  mkFormData
    (string_or (raw_market raw) "DE-LU")
    (string_or (raw_technology raw) "solar")
    (number_or (raw_capacity raw) 50)
    (string_or_null (raw_cod raw))
    (string_or (raw_period raw) "12")
    (string_or_null (raw_dateStart raw))
    (string_or_null (raw_dateEnd raw))
    (default true (raw_demoMode raw))
    (string_or (raw_rtm raw) "merchant")
    (number_or (raw_ppaPrice raw) 70)
    (default false (raw_useFloor raw))
    (number_or (raw_floorPrice raw) 0)
    (default true (raw_enableBattery raw))
    (number_or (raw_batteryPower raw) 25)
    (number_or (raw_batteryEnergy raw) 50)
    (number_or ((λ v, v / 100) <$> raw_efficiency raw) (88 # 100))
    (default true (raw_oneCycle raw)).
End UI.

(** What steps 3 to 6 of [runAnalysis] leave in [AppState]. *)
Record Analysis := mkAnalysis {
  alignedData : list AlignedRecord;
  kpis : KPIs;
  batteryResults : option BatteryResult;
  representativeWeeks : RepresentativeWeeks
}.

(** Why the analysis stops: the two series share no timestamp, or the
    engine raises. *)
Inductive AnalysisError :=
  | NoAlignedData
  | EngineRaised (s : Signal).

Module App.
Section Workflow.
Variable newDate : Z → JSDate.
Variable localeCompare : string → string → Q.
Variable Math_sqrt : Q → Q.

(** Steps 3 to 6 of [runAnalysis], on the prices and the PV profile that
    steps 1 and 2 fetched: align, compute the KPIs, simulate the battery
    if it is enabled, pick the representative weeks. *)
Definition runAnalysis (formData : FormData) (prices : list PricePoint)
    (pvProfile : list OutputPoint) : AnalysisError + Analysis :=
  let alignedData := DataSources.alignData newDate prices pvProfile in
  if (length alignedData =? 0)%nat then inl NoAlignedData
  else
    let options :=
      mkOptions
        (if fd_useFloor formData then Some (fd_floorPrice formData) else None)
        (if String.eqb (fd_routeToMarket formData) "ppa"
         then Some (fd_ppaPrice formData) else None) in
    match Compute.calculateKPIs localeCompare (Some alignedData)
            (fd_capacityMW formData) options with
    | Raise s => inl (EngineRaised s)
    | Ok kpis =>
        let battery :=
          if fd_enableBattery formData
          then
            result ← Compute.simulateBattery Math_sqrt
                       (mkBatteryConfig (fd_batteryPower formData)
                          (fd_batteryEnergy formData) (fd_efficiency formData)
                          (Some (fd_oneCyclePerDay formData)))
                       alignedData;
            Ok (Some result)
          else Ok None in
        match battery with
        | Raise s => inl (EngineRaised s)
        | Ok batteryResults =>
            match Compute.findRepresentativeWeeks Math_sqrt alignedData with
            | Raise s => inl (EngineRaised s)
            | Ok representativeWeeks =>
                inr (mkAnalysis alignedData kpis batteryResults
                       representativeWeeks)
            end
        end
    end.
End Workflow.
End App.

(** * Properties *)

(** ** The host functions *)

Section ArraySortFacts.
Context {A : Type} (cmp : A → A → Q).

Lemma sort_insert_Permutation x l : sort_insert cmp x l ≡ₚ x :: l.
Proof.
  induction l as [|y l IH]; simpl; [done|].
  destruct (Qle_bool (cmp x y) 0); [done|].
  rewrite IH. apply Permutation_swap.
Qed.

Lemma Array_sort_Permutation l : Array_sort cmp l ≡ₚ l.
Proof.
  induction l as [|x l IH]; simpl; [done|].
  rewrite sort_insert_Permutation. by rewrite IH.
Qed.

Lemma Array_sort_length l : length (Array_sort cmp l) = length l.
Proof. by rewrite Array_sort_Permutation. Qed.


Hypothesis cmp_total : ∀ a b, cmp_le cmp a b ∨ cmp_le cmp b a.
Hypothesis cmp_trans :
  ∀ a b c, cmp_le cmp a b → cmp_le cmp b c → cmp_le cmp a c.

Lemma sort_insert_sorted x l :
  StronglySorted (cmp_le cmp) l →
  StronglySorted (cmp_le cmp) (sort_insert cmp x l).
Proof.
  induction 1 as [|y l Hl IH Hy]; simpl.
  - repeat constructor.
  - destruct (Qle_bool (cmp x y) 0) eqn:E.
    + apply Qle_bool_iff in E.
      constructor; [by constructor|].
      constructor; [done|].
      eapply Forall_impl; [exact Hy|]. intros z Hz. by eapply cmp_trans.
    + constructor; [done|].
      rewrite sort_insert_Permutation. constructor; [|done].
      destruct (cmp_total x y) as [Hxy|Hyx]; [|done].
      apply Qle_bool_iff in Hxy. congruence.
Qed.

Lemma Array_sort_sorted l : StronglySorted (cmp_le cmp) (Array_sort cmp l).
Proof.
  induction l as [|x l IH]; simpl; [constructor|].
  by apply sort_insert_sorted.
Qed.
End ArraySortFacts.

Lemma StronglySorted_weaken {A} (R1 R2 : A → A → Prop) l :
  (∀ a b, R1 a b → R2 a b) → StronglySorted R1 l → StronglySorted R2 l.
Proof.
  intros HR. induction 1 as [|a l Hl IH Ha]; constructor; [done|].
  eapply Forall_impl; [exact Ha|]. intros b. apply HR.
Qed.

Lemma Set_from_spec (l acc : list Z) :
  NoDup acc →
  NoDup (foldl Set_add acc l)
  ∧ ∀ x, x ∈ foldl Set_add acc l ↔ x ∈ acc ∨ x ∈ l.
Proof.
  revert acc. induction l as [|y l IH]; intros acc Hacc; simpl.
  - split; [done|]. intros x. rewrite elem_of_nil. tauto.
  - unfold Set_add at 2 4. destruct (decide (y ∈ acc)) as [Hy|Hy].
    + destruct (IH acc Hacc) as [Hnd Hin]. split; [done|].
      intros x. rewrite Hin, elem_of_cons.
      split; [tauto|]. intros [?|[->|?]]; tauto.
    + assert (NoDup (acc ++ [y])) as Hacc'.
      { apply NoDup_app. split_and!; [done| |apply NoDup_singleton].
        intros x Hx ->%list_elem_of_singleton. done. }
      destruct (IH _ Hacc') as [Hnd Hin]. split; [done|].
      intros x. rewrite Hin, elem_of_app, list_elem_of_singleton, elem_of_cons.
      tauto.
Qed.

Lemma NoDup_Set_from l : NoDup (Set_from l).
Proof. apply Set_from_spec, NoDup_nil_2. Qed.

Lemma elem_of_Set_from l x : x ∈ Set_from l ↔ x ∈ l.
Proof.
  unfold Set_from.
  destruct (Set_from_spec l [] (NoDup_nil_2)) as [_ H].
  rewrite H, elem_of_nil. tauto.
Qed.

(** ** The aligner *)

Section AlignerFacts.
Variable newDate : Z → JSDate.

Lemma pvMap_of_lookup pvProfile ts :
  is_Some (DataSources.pvMap_of pvProfile !! ts)
  ↔ ts ∈ map v_timestamp pvProfile.
Proof.
  unfold DataSources.pvMap_of.
  cut (∀ m : gmap Z Q,
         is_Some (foldl (λ m p, <[v_timestamp p := v_output p]> m) m pvProfile
                    !! ts)
         ↔ is_Some (m !! ts) ∨ ts ∈ map v_timestamp pvProfile).
  { intros H. rewrite H, lookup_empty, is_Some_alt. tauto. }
  induction pvProfile as [|p l IH]; intros m; simpl.
  - rewrite elem_of_nil. tauto.
  - rewrite IH, elem_of_cons, lookup_insert_is_Some.
    destruct (decide (v_timestamp p = ts)); intuition congruence.
Qed.

Lemma priceMap_of_lookup prices ts :
  is_Some (DataSources.priceMap_of prices !! ts)
  ↔ ts ∈ map p_timestamp prices.
Proof.
  unfold DataSources.priceMap_of.
  cut (∀ m : gmap Z Q,
         is_Some (foldl (λ m p, <[p_timestamp p := p_price p]> m) m prices
                    !! ts)
         ↔ is_Some (m !! ts) ∨ ts ∈ map p_timestamp prices).
  { intros H. rewrite H, lookup_empty, is_Some_alt. tauto. }
  induction prices as [|p l IH]; intros m; simpl.
  - rewrite elem_of_nil. tauto.
  - rewrite IH, elem_of_cons, lookup_insert_is_Some.
    destruct (decide (p_timestamp p = ts)); intuition congruence.
Qed.

(** The timestamps the loop pushes are the members of [allTimestamps]
    that both maps know, in the order of the set. *)
Lemma align_loop_timestamps (priceMap pvMap : gmap Z Q) tss acc :
  map timestamp (foldl (DataSources.align_step newDate priceMap pvMap) acc tss)
  = map timestamp acc
    ++ filter (λ ts, is_Some (priceMap !! ts) ∧ is_Some (pvMap !! ts)) tss.
Proof.
  revert acc. induction tss as [|ts tss IH]; intros acc; simpl.
  - by rewrite app_nil_r.
  - rewrite IH. unfold DataSources.align_step.
    rewrite filter_cons.
    destruct (priceMap !! ts) as [p|] eqn:Hp, (pvMap !! ts) as [o|] eqn:Ho.
    + rewrite decide_True by (split; eauto).
      rewrite map_app. simpl. by rewrite <- app_assoc.
    + rewrite decide_False; [done|]. intros [_ [? ?]]. done.
    + rewrite decide_False; [done|]. intros [[? ?] _]. done.
    + rewrite decide_False; [done|]. intros [[? ?] _]. done.
Qed.

Lemma by_timestamp_le a b :
  cmp_le DataSources.by_timestamp a b ↔ (timestamp a ≤ timestamp b)%Z.
Proof.
  unfold cmp_le, DataSources.by_timestamp.
  change 0 with (inject_Z 0). rewrite <- Zle_Qle. lia.
Qed.

Lemma alignData_timestamps prices pvProfile :
  map timestamp (DataSources.alignData newDate prices pvProfile)
  ≡ₚ filter (λ ts, is_Some (DataSources.priceMap_of prices !! ts)
                   ∧ is_Some (DataSources.pvMap_of pvProfile !! ts))
       (DataSources.allTimestamps_of prices pvProfile).
Proof.
  unfold DataSources.alignData.
  rewrite Array_sort_Permutation, align_loop_timestamps. done.
Qed.

Lemma alignData_sorted prices pvProfile :
  StronglySorted (λ a b, (timestamp a ≤ timestamp b)%Z)
    (DataSources.alignData newDate prices pvProfile).
Proof.
  eapply StronglySorted_weaken;
    [|apply (Array_sort_sorted DataSources.by_timestamp)].
  - intros a b. apply by_timestamp_le.
  - intros a b. rewrite !by_timestamp_le. lia.
  - intros a b c. rewrite !by_timestamp_le. lia.
Qed.

(** C1. [alignData] returns records whose timestamps are exactly the
    timestamps both inputs have, in strictly ascending order (so without
    duplicates), hence at most [min(|prices|, |pvProfile|)] of them, and
    it returns the empty array exactly when the inputs share no
    timestamp. *)
Theorem alignData_is_sorted_intersection prices pvProfile :
  let aligned := DataSources.alignData newDate prices pvProfile in
  let tss := map timestamp aligned in
  (∀ ts, ts ∈ tss
         ↔ ts ∈ map p_timestamp prices ∧ ts ∈ map v_timestamp pvProfile)
  ∧ StronglySorted Z.lt tss
  ∧ NoDup tss
  ∧ (length aligned ≤ Nat.min (length prices) (length pvProfile))%nat
  ∧ (aligned = []
     ↔ ∀ ts, ¬ (ts ∈ map p_timestamp prices
                ∧ ts ∈ map v_timestamp pvProfile)).
Proof.
  intros aligned tss.
  pose proof (alignData_timestamps prices pvProfile) as Hperm.
  fold aligned in Hperm. fold tss in Hperm.
  assert (∀ ts, ts ∈ tss
      ↔ ts ∈ map p_timestamp prices ∧ ts ∈ map v_timestamp pvProfile) as Hin.
  { intros ts. rewrite Hperm, list_elem_of_filter.
    unfold DataSources.allTimestamps_of.
    rewrite elem_of_Set_from, elem_of_app, priceMap_of_lookup, pvMap_of_lookup.
    tauto. }
  assert (NoDup tss) as Hnd.
  { rewrite Hperm. apply NoDup_filter, NoDup_Set_from. }
  assert (StronglySorted Z.lt tss) as Hsorted.
  { pose proof (alignData_sorted prices pvProfile) as Hs.
    fold aligned in Hs. subst tss. clear Hperm Hin.
    induction Hs as [|a l Hl IH Ha]; simpl in *; [constructor|].
    apply NoDup_cons in Hnd as [Hna Hnd].
    constructor; [by apply IH|].
    apply Forall_forall. intros t Ht.
    apply list_elem_of_fmap in Ht as [b [-> Hb]].
    rewrite Forall_forall in Ha. specialize (Ha b Hb).
    assert (timestamp a ≠ timestamp b); [|lia].
    intros Heq. apply Hna. rewrite Heq. by apply list_elem_of_fmap_2. }
  split_and!; try done.
  - assert (length aligned = length tss) as -> by (subst tss; by rewrite length_map).
    apply Nat.min_glb.
    + rewrite <- (length_map p_timestamp prices).
      apply submseteq_length, NoDup_submseteq; [done|].
      intros ts Hts. by apply Hin in Hts as [? ?].
    + rewrite <- (length_map v_timestamp pvProfile).
      apply submseteq_length, NoDup_submseteq; [done|].
      intros ts Hts. by apply Hin in Hts as [? ?].
  - split.
    + intros Hnil ts Hts. apply Hin in Hts. subst tss.
      rewrite Hnil in Hts. by apply elem_of_nil in Hts.
    + intros Hno. destruct aligned as [|a l] eqn:E; [done|].
      exfalso. apply (Hno (timestamp a)), Hin. subst tss. simpl. left.
Qed.
End AlignerFacts.

(** ** Numbers and outcomes *)

Lemma is_pos_true x : is_pos x = true ↔ 0 < x.
Proof. unfold is_pos. destruct (Qlt_le_dec 0 x); split; try done; lra. Qed.

Lemma is_pos_false x : is_pos x = false ↔ x <= 0.
Proof. unfold is_pos. destruct (Qlt_le_dec 0 x); split; try done; lra. Qed.

Lemma is_neg_true x : is_neg x = true ↔ x < 0.
Proof. unfold is_neg. destruct (Qlt_le_dec x 0); split; try done; lra. Qed.

Lemma is_neg_false x : is_neg x = false ↔ 0 <= x.
Proof. unfold is_neg. destruct (Qlt_le_dec x 0); split; try done; lra. Qed.

Lemma is_pos_Qeq x y : x == y → is_pos x = is_pos y.
Proof.
  intros H. destruct (is_pos y) eqn:E.
  - apply is_pos_true. apply is_pos_true in E. lra.
  - apply is_pos_false. apply is_pos_false in E. lra.
Qed.

Lemma Math_round_Qeq x y : x == y → Math_round x = Math_round y.
Proof. intros H. unfold Math_round. by rewrite H. Qed.

Lemma Math_round_Z (z : Z) : Math_round (inject_Z z) = z.
Proof.
  unfold Math_round.
  assert (inject_Z z + (1 # 2) == (2 * z + 1 # 2)) as ->.
  { unfold Qeq, inject_Z. simpl. lia. }
  unfold Qfloor. symmetry. apply Z.div_unique with (r := 1%Z); lia.
Qed.

Lemma divide_Ok x y : ¬ y == 0 → divide x y = Ok (x / y).
Proof.
  intros H. unfold divide. destruct (Qeq_bool y 0) eqn:E; [|done].
  by apply Qeq_bool_iff in E.
Qed.

Lemma divide_pos x y : 0 < y → divide x y = Ok (x / y).
Proof. intros H. apply divide_Ok. lra. Qed.

Lemma count_to_Q_pos n : (0 < n)%nat → 0 < count_to_Q n.
Proof.
  intros H. unfold count_to_Q. change 0 with (inject_Z 0).
  rewrite <- Zlt_Qlt. lia.
Qed.

Lemma bind_Ok {A B} (k : A → Outcome B) a : (Ok a ≫= k) = k a.
Proof. reflexivity. Qed.

(** Pass a step of a computation that has returned. *)
Ltac ok_step := rewrite bind_Ok; cbv beta.
Ltac ok_step_in H := rewrite bind_Ok in H; cbv beta in H.

(** ** Sums *)

Lemma foldl_total (f : AlignedRecord → Q) data a :
  foldl (λ s d, s + f d) a data == a + Spec.total f data.
Proof.
  revert a. induction data as [|d data IH]; intros a; simpl.
  - lra.
  - rewrite IH. lra.
Qed.

Lemma sum_map_total (f : AlignedRecord → Q) data :
  Compute.sum (map f data) == Spec.total f data.
Proof.
  unfold Compute.sum.
  cut (∀ a, foldl Qplus a (map f data) == a + Spec.total f data).
  { intros H. rewrite H. lra. }
  induction data as [|d data IH]; intros a; simpl.
  - lra.
  - rewrite IH. lra.
Qed.

Lemma calculateMean_nonempty values :
  values ≠ [] →
  Compute.calculateMean values
  = Ok (Compute.sum values / count_to_Q (length values)).
Proof.
  intros H. unfold Compute.calculateMean.
  destruct values as [|v values]; [done|]. simpl length.
  simpl Nat.eqb. cbv iota. apply divide_pos.
  apply (count_to_Q_pos (S (length values))). lia.
Qed.

Lemma calculateMean_total values : ∃ m, Compute.calculateMean values = Ok m.
Proof.
  destruct values as [|v values]; [by exists 0|].
  rewrite calculateMean_nonempty by done. eauto.
Qed.

Lemma mapM_Ok {A B} (f : A → Outcome B) (l : list A) :
  Forall (λ x, ∃ y, f x = Ok y) l →
  ∃ ys, mapM f l = Ok ys ∧ Forall2 (λ x y, f x = Ok y) l ys.
Proof.
  induction 1 as [|x l [y Hy] _ [ys [Hys HF]]].
  - exists []. split; [done|constructor].
  - exists (y :: ys). split; [|by constructor].
    simpl. rewrite Hy. simpl. rewrite Hys. done.
Qed.

Lemma mapM_Ok_inv {A B} (f : A → Outcome B) (l : list A) ys :
  mapM f l = Ok ys → Forall2 (λ x y, f x = Ok y) l ys.
Proof.
  revert ys. induction l as [|x l IH]; intros ys; simpl.
  - intros [= <-]. constructor.
  - destruct (f x) as [y|] eqn:Hy; simpl; [|done].
    destruct (mapM f l) as [ys'|] eqn:Hys; simpl; [|done].
    intros [= <-]. constructor; [done|]. by apply IH.
Qed.

(** ** Percentiles and risk metrics *)

Lemma Array_at_lookup arr (i : nat) x :
  arr !! i = Some x → Array_at arr (Z.of_nat i) = Ok x.
Proof.
  intros H. unfold Array_at.
  destruct (Z.ltb_spec (Z.of_nat i) 0); [lia|].
  by rewrite Nat2Z.id, H.
Qed.

Lemma Array_at_in_range arr i :
  (0 ≤ i < Z.of_nat (length arr))%Z → ∃ x, Array_at arr i = Ok x.
Proof.
  intros H. destruct (lookup_lt_is_Some_2 arr (Z.to_nat i)) as [x Hx]; [lia|].
  exists x. rewrite <- (Z2Nat.id i) by lia. by apply Array_at_lookup.
Qed.

Lemma percentile_total sortedArr p :
  0 <= p <= 100 → ∃ q, Compute.percentile sortedArr p = Ok q.
Proof.
  intros Hp. unfold Compute.percentile.
  destruct sortedArr as [|x l]; [by exists 0|].
  set (arr := x :: l). simpl length at 1. simpl Nat.eqb. cbv iota.
  set (idx := p / 100 * (count_to_Q (length arr) - 1)).
  assert (0 <= idx <= inject_Z (Z.of_nat (length arr) - 1)) as [Hlo Hhi].
  { assert (inject_Z (Z.of_nat (length arr) - 1)
            == count_to_Q (length arr) - 1) as ->.
    { unfold count_to_Q, Z.sub. rewrite inject_Z_plus. reflexivity. }
    assert (1 <= count_to_Q (length arr)) as H1.
    { unfold count_to_Q. change 1 with (inject_Z 1).
      rewrite <- Zle_Qle. simpl. lia. }
    unfold idx. set (n := count_to_Q (length arr)) in *.
    assert (0 <= p / 100 <= 1) as [? ?].
    { split.
      - apply Qle_shift_div_l; lra.
      - apply Qle_shift_div_r; lra. }
    split.
    - apply Qmult_le_0_compat; lra.
    - apply Qle_trans with (1 * (n - 1)); [|lra].
      apply Qmult_le_compat_r; lra. }
  assert (0 ≤ Math_floor idx < Z.of_nat (length arr))%Z as Hfl.
  { unfold Math_floor. split.
    - change 0%Z with (Qfloor 0). by apply Qfloor_resp_le.
    - apply Qfloor_resp_le in Hhi. rewrite Qfloor_Z in Hhi. lia. }
  assert (0 ≤ Math_ceil idx < Z.of_nat (length arr))%Z as Hcl.
  { unfold Math_ceil. split.
    - change 0%Z with (Qceiling 0). by apply Qceiling_resp_le.
    - apply Qceiling_resp_le in Hhi. rewrite Qceiling_Z in Hhi. lia. }
  destruct (Array_at_in_range arr _ Hfl) as [lo Hlo'].
  destruct (Array_at_in_range arr _ Hcl) as [hi Hhi'].
  destruct (Math_floor idx =? Math_ceil idx)%Z; [eauto|].
  rewrite Hlo'. ok_step. rewrite Hhi'. ok_step. eauto.
Qed.


Lemma calculateRiskMetrics_total monthlyRevenues :
  ∃ r, Compute.calculateRiskMetrics monthlyRevenues = Ok r.
Proof.
  unfold Compute.calculateRiskMetrics.
  destruct (length (map revenue monthlyRevenues) =? 0)%nat; [eauto|].
  set (revenues := Array_sort _ _).
  destruct (percentile_total revenues 5) as [q5 ->]; [lra|].
  destruct (percentile_total revenues 50) as [q50 ->]; [lra|].
  destruct (percentile_total revenues 95) as [q95 ->]; [lra|].
  simpl. eauto.
Qed.

(** ** Monthly aggregation *)

Lemma Map_upsert_Forall {V} (P : V → Prop) k init f (m : list (string * V)) :
  P (f init) → (∀ v, P v → P (f v)) →
  Forall (λ e, P e.2) m → Forall (λ e, P e.2) (Map_upsert k init f m).
Proof.
  intros Hinit Hf. induction 1 as [|[k' v] m Hv Hm IH]; simpl.
  - by repeat constructor.
  - destruct (decide (k = k')); constructor; simpl; auto.
Qed.

Lemma foldl_upsert_Forall {A V} (P : V → Prop) (key : A → string)
    (init : V) (upd : A → V → V) (data : list A) m :
  (∀ d, d ∈ data → P (upd d init)) →
  (∀ d v, d ∈ data → P v → P (upd d v)) →
  Forall (λ e, P e.2) m →
  Forall (λ e, P e.2)
    (foldl (λ m d, Map_upsert (key d) init (upd d) m) m data).
Proof.
  revert m. induction data as [|d data IH]; intros m Hinit Hupd Hm;
    simpl; [done|].
  apply IH.
  - intros d' Hd'. apply Hinit. by right.
  - intros d' v Hd'. apply Hupd. by right.
  - apply Map_upsert_Forall; [apply Hinit; left| |done].
    intros v. apply Hupd. left.
Qed.


Lemma monthRate_total e :
  (0 < Compute.count e.2)%nat → ∃ r, Compute.monthRate e = Ok r.
Proof.
  destruct e as [month acc]. simpl. intros Hc.
  unfold Compute.monthRate.
  rewrite (divide_pos (Compute.priceSum acc) (count_to_Q (Compute.count acc)))
    by by apply count_to_Q_pos.
  ok_step.
  set (baseload := Compute.priceSum acc / count_to_Q (Compute.count acc)).
  assert (∃ c, (if is_pos (Compute.outputSum acc)
                then divide (Compute.weightedPriceSum acc)
                       (Compute.outputSum acc)
                else Ok 0) = Ok c) as [c ->].
  { destruct (is_pos _) eqn:E; [|eauto].
    apply is_pos_true in E. rewrite divide_pos by done. eauto. }
  ok_step.
  assert (∃ r, (if is_pos baseload
                then divide c baseload ≫= λ q, Ok (q * 100)
                else Ok 0) = Ok r) as [r ->].
  { destruct (is_pos _) eqn:E; [|eauto].
    apply is_pos_true in E. rewrite divide_pos by done. ok_step. eauto. }
  ok_step. eauto.
Qed.

Lemma calculateMonthlyCaptureRates_total localeCompare data :
  ∃ rates, Compute.calculateMonthlyCaptureRates localeCompare data = Ok rates.
Proof.
  unfold Compute.calculateMonthlyCaptureRates.
  set (monthlyMap := foldl _ _ _).
  assert (Forall (λ e, (0 < Compute.count e.2)%nat) monthlyMap) as Hcount.
  { apply (foldl_upsert_Forall (λ a, (0 < Compute.count a)%nat)
             (λ d, Compute.monthKey (date d))); simpl; intros; try lia.
    constructor. }
  destruct (mapM_Ok Compute.monthRate monthlyMap) as [rates [-> _]].
  { eapply Forall_impl; [exact Hcount|]. intros e. apply monthRate_total. }
  simpl. eauto.
Qed.

(** ** The histogram never divides by zero *)

Lemma bin_pct_total allTotal pvTotal b :
  (0 < allTotal)%nat → ∃ r, Compute.bin_pct allTotal pvTotal b = Ok r.
Proof.
  intros H. unfold Compute.bin_pct.
  rewrite (divide_pos _ (count_to_Q allTotal)) by by apply count_to_Q_pos.
  ok_step.
  destruct (Nat.ltb_spec 0 pvTotal) as [Hpv|Hpv]; [|ok_step; eauto].
  rewrite (divide_pos _ (count_to_Q pvTotal)) by by apply count_to_Q_pos.
  do 2 ok_step. eauto.
Qed.

Lemma calculatePriceDistribution_total data :
  ∃ bins, Compute.calculatePriceDistribution data = Ok bins.
Proof.
  unfold Compute.calculatePriceDistribution.
  destruct data as [|d data].
  - simpl. eauto.
  - destruct (mapM_Ok
      (Compute.bin_pct (length (map price (d :: data)))
         (length (map price
                    (List.filter (λ d, is_pos (output d)) (d :: data)))))
      (Compute.filled_bins (d :: data))) as [bins [-> _]]; [|eauto].
    apply Forall_forall. intros b _. apply bin_pct_total. simpl. lia.
Qed.

(** ** The KPI calculator against the specification's formulas *)

Lemma guarded_divide x y :
  (if is_pos y then divide x y else Ok 0)
  = Ok (if is_pos y then x / y else 0).
Proof.
  destruct (is_pos y) eqn:E; [|done].
  apply is_pos_true in E. by rewrite divide_pos.
Qed.

Lemma guarded_divide_100 x y :
  (if is_pos y then divide x y ≫= λ q, Ok (q * 100) else Ok 0)
  = Ok (if is_pos y then x / y * 100 else 0).
Proof.
  destruct (is_pos y) eqn:E; [|done].
  apply is_pos_true in E. by rewrite divide_pos.
Qed.

Lemma guarded_Qeq (a b a' b' : Q) (f g : Q → Q → Q) :
  a == a' → b == b' →
  (0 < b → f a b == g a' b') →
  (if is_pos b then f a b else 0) == (if is_pos b' then g a' b' else 0).
Proof.
  intros Ha Hb Hfg. rewrite <- (is_pos_Qeq b b' Hb).
  destruct (is_pos b) eqn:E; [|reflexivity].
  apply Hfg. by apply is_pos_true.
Qed.

Lemma to_decimals_2 a b :
  a == b → inject_Z (Math_round (a * 100)) / 100 = Spec.to_decimals 2 b.
Proof.
  intros H. unfold Spec.to_decimals.
  change (inject_Z (10 ^ Z.of_nat 2)) with 100.
  rewrite (Math_round_Qeq (a * 100) (b * 100)); [done|]. by rewrite H.
Qed.

Lemma to_decimals_1 a b :
  a == b → inject_Z (Math_round (a * 10)) / 10 = Spec.to_decimals 1 b.
Proof.
  intros H. unfold Spec.to_decimals.
  change (inject_Z (10 ^ Z.of_nat 1)) with 10.
  rewrite (Math_round_Qeq (a * 10) (b * 10)); [done|]. by rewrite H.
Qed.

Lemma baseload_exact data :
  Compute.sum (map price data) / count_to_Q (length (map price data))
  == Spec.baseloadAvg data.
Proof.
  unfold Spec.baseloadAvg. by rewrite length_map, sum_map_total.
Qed.

Lemma production_exact data :
  foldl (λ s d, s + output d) 0 data == Spec.totalProduction data.
Proof. unfold Spec.totalProduction. rewrite foldl_total. lra. Qed.

Lemma spotRevenue_exact data :
  foldl (λ s d, s + price d * output d) 0 data == Spec.spotRevenue data.
Proof.
  unfold Spec.spotRevenue.
  rewrite (foldl_total (λ d, price d * output d)). lra.
Qed.

Lemma capturePrice_exact data :
  (if is_pos (foldl (λ s d, s + output d) 0 data)
   then foldl (λ s d, s + price d * output d) 0 data
        / foldl (λ s d, s + output d) 0 data
   else 0)
  == Spec.capturePrice data.
Proof.
  unfold Spec.capturePrice.
  apply (guarded_Qeq _ _ _ _ Qdiv Qdiv);
    [apply spotRevenue_exact|apply production_exact|].
  intros _. by rewrite spotRevenue_exact, production_exact.
Qed.

(** What [calculateKPIs] returns on a series that is not empty: every
    scalar is the specification's exact value, rounded. *)
Lemma calculateKPIs_run localeCompare data capacityMW options :
  data ≠ [] →
  ∃ rm mcr pd,
    Compute.calculateRiskMetrics
      (Compute.calculateMonthlyRevenues localeCompare data) = Ok rm
    ∧ Compute.calculateMonthlyCaptureRates localeCompare data = Ok mcr
    ∧ Compute.calculatePriceDistribution data = Ok pd
    ∧ Compute.calculateKPIs localeCompare (Some data) capacityMW options
      = Ok (mkKPIs
              (Spec.to_decimals 2 (Spec.baseloadAvg data))
              (Spec.to_decimals 2 (Spec.capturePrice data))
              (Spec.to_decimals 1 (Spec.captureRate data))
              (length (Spec.negativeSet data))
              (Math_round (Spec.negativeMWh data))
              (Spec.to_decimals 1 (Spec.negativePercentage data))
              (Math_round (Spec.totalProduction data))
              (Math_round (Spec.merchantRevenue (floorPrice options) data))
              (Math_round <$> Spec.ppaRevenue (ppaPrice options) data)
              rm mcr pd
              (Compute.calculateNegativeHeatmap data)
              (length data)).
Proof.
  intros Hne.
  destruct (calculateRiskMetrics_total
              (Compute.calculateMonthlyRevenues localeCompare data))
    as [rm Hrm].
  destruct (calculateMonthlyCaptureRates_total localeCompare data)
    as [mcr Hmcr].
  destruct (calculatePriceDistribution_total data) as [pd Hpd].
  exists rm, mcr, pd. split_and!; try done.
  unfold Compute.calculateKPIs.
  destruct (Nat.eqb_spec (length data) 0) as [Hlen|_].
  { by destruct data. }
  rewrite calculateMean_nonempty by (by destruct data).
  ok_step. rewrite guarded_divide. ok_step.
  rewrite !guarded_divide_100. do 2 ok_step.
  rewrite Hrm. ok_step. rewrite Hmcr. ok_step. rewrite Hpd. ok_step.
  pose proof (baseload_exact data) as Hb.
  pose proof (capturePrice_exact data) as Hc.
  pose proof (production_exact data) as Ht.
  f_equal. f_equal.
  - by apply to_decimals_2.
  - by apply to_decimals_2.
  - apply to_decimals_1. unfold Spec.captureRate.
    apply (guarded_Qeq _ _ _ _ (λ c b, c / b * 100) (λ c b, 100 * c / b));
      [done|done|].
    intros Hpos. rewrite Hc, Hb. field. rewrite <- Hb. lra.
  - apply Math_round_Qeq. unfold Spec.negativeMWh.
    rewrite foldl_total. fold (Spec.negativeSet data). lra.
  - apply to_decimals_1. unfold Spec.negativePercentage.
    apply (guarded_Qeq _ _ _ _ (λ n t, n / t * 100) (λ n t, 100 * n / t));
      [|done|].
    + unfold Spec.negativeMWh. rewrite foldl_total.
      fold (Spec.negativeSet data). lra.
    + intros Hpos. unfold Spec.negativeMWh. rewrite foldl_total, Ht.
      fold (Spec.negativeSet data). field. rewrite <- Ht. lra.
  - by apply Math_round_Qeq.
  - apply Math_round_Qeq. unfold Spec.merchantRevenue.
    rewrite (foldl_total (λ d, Spec.effectivePrice (floorPrice options) d
                               * output d)). lra.
  - unfold Spec.ppaRevenue. destruct (ppaPrice options) as [ppa|]; [|done].
    simpl. f_equal. apply Math_round_Qeq. by rewrite Ht.
Qed.

(** The model on the two end-to-end examples of the specification's
    section 8 and on a small alignment. *)
Example alignData_small newDate :
  map (λ r, (timestamp r, price r, output r))
    (DataSources.alignData newDate
       [mkPricePoint 3 30; mkPricePoint 1 10; mkPricePoint 2 20]
       [mkOutputPoint 2 5; mkOutputPoint 4 7; mkOutputPoint 1 6])
  = [(1%Z, 10, 6); (2%Z, 20, 5)].
Proof. vm_compute. reflexivity. Qed.

Example battery_day_uplift :
  ∃ result,
    Compute.simulateBattery Example.Math_sqrt Example.battery
      Example.battery_day = Ok result
    ∧ totalUplift result = 600%Z
    ∧ totalShiftedMWh result = 10%Z
    ∧ negativeReduction result == 100.
Proof. eexists. split; [vm_compute; reflexivity|]. by vm_compute. Qed.


(** C3. On the 48 hourly records whose prices alternate 100 and -5 and
    whose output is constantly 10, [calculateKPIs] returns 24 negative
    hours, a negative percentage of 50, a capture price and a baseload
    average of 47.5 and a capture rate of 100. *)
Theorem calculateKPIs_alternating_example
    localeCompare t0 dates capacityMW options :
  ∃ kpis,
    Compute.calculateKPIs localeCompare
      (Some (Example.alternating_series t0 dates)) capacityMW options
    = Ok kpis
    ∧ negativeHoursCount kpis = 24%nat
    ∧ negativePercentage kpis == 50
    ∧ capturePrice kpis == 475 # 10
    ∧ baseloadAvg kpis == 475 # 10
    ∧ captureRate kpis == 100.
Proof.
  destruct (calculateKPIs_run localeCompare
              (Example.alternating_series t0 dates) capacityMW options)
    as (rm & mcr & pd & _ & _ & _ & ->); [done|].
  eexists. split; [done|].
  cbn [negativeHoursCount negativePercentage capturePrice baseloadAvg
       captureRate].
  split_and!; vm_compute; reflexivity.
Qed.



(** ** Series with a single price *)


Lemma total_constant (f : AlignedRecord → Q) V data :
  Forall (λ d, f d == V) data →
  Spec.total f data == V * count_to_Q (length data).
Proof.
  induction 1 as [|d data Hd _ IH]; simpl length.
  - change (count_to_Q 0) with 0. cbn [Spec.total foldr]. lra.
  - simpl Spec.total. rewrite Hd, IH. unfold count_to_Q.
    rewrite Nat2Z.inj_succ. unfold Z.succ. rewrite inject_Z_plus.
    change (inject_Z 1) with 1. lra.
Qed.



Lemma to_decimals_Qeq k x y :
  x == y → Spec.to_decimals k x = Spec.to_decimals k y.
Proof.
  intros H. unfold Spec.to_decimals.
  rewrite (Math_round_Qeq _ (y * inject_Z (10 ^ Z.of_nat k))); [done|].
  by rewrite H.
Qed.




(** ** Series within one calendar month *)







(** ** The price histogram *)

Lemma Math_min_cases a b :
  (Math_min a b = a ∧ a <= b) ∨ (Math_min a b = b ∧ b < a).
Proof. unfold Math_min. destruct (Qlt_le_dec b a); auto. Qed.

Lemma Math_max_cases a b :
  (Math_max a b = a ∧ b <= a) ∨ (Math_max a b = b ∧ a < b).
Proof. unfold Math_max. destruct (Qlt_le_dec a b); auto. Qed.



















(** *** Every price below the upper end has its bin *)





(** *** The counts of the bins add up *)








(** A price at the upper end of the range, here the only price, 50, is
    in no bin: the loop creates none. *)
Lemma top_edge_price_has_no_bin :
  Compute.calculatePriceDistribution Example.dark_series = Ok [].
Proof. vm_compute. reflexivity. Qed.


(** ** The battery simulator *)

Section BatteryFacts.
Variable Math_sqrt : Q → Q.
Variable batteryConfig : BatteryConfig.

Local Abbreviation sqrtEfficiency := (Compute.sqrtEfficiency Math_sqrt batteryConfig).
Local Abbreviation minSOC := (Compute.minSOC batteryConfig).
Local Abbreviation maxSOC := (Compute.maxSOC batteryConfig).
Local Abbreviation charge_step := (Compute.charge_step Math_sqrt batteryConfig).
Local Abbreviation discharge_step :=
  (Compute.discharge_step Math_sqrt batteryConfig).

(** Every record of a day group is a record of the series, and no group
    is empty. *)
Lemma groupByDay_groups (objs : list Obj) :
  Forall (λ dayData, dayData ≠ [] ∧ Forall (λ hour, hour ∈ objs) dayData)
    (Compute.groupByDay objs).
Proof.
  unfold Compute.groupByDay. apply Forall_fmap.
  apply (foldl_upsert_Forall
           (λ day : list Obj, day ≠ [] ∧ Forall (λ hour, hour ∈ objs) day)
           (λ d : Obj, isoDate (date d.2)) [] (λ d day, day ++ [d])).
  - intros d Hd. split; [done|]. by repeat constructor.
  - intros d day Hd [_ Hday]. split; [by destruct day|].
    apply Forall_app. split; [done|]. by repeat constructor.
  - constructor.
Qed.

Lemma elem_of_objects (data : list AlignedRecord) (hour : Obj) :
  hour ∈ imap (λ i d, (i, d)) data → hour.2 ∈ data.
Proof.
  intros H. apply list_elem_of_lookup in H as [i Hi].
  rewrite list_lookup_imap in Hi.
  destruct (data !! i) as [d|] eqn:Hd; [|done].
  injection Hi as <-. simpl. by eapply list_elem_of_lookup_2.
Qed.

Lemma Array_slice0_subset {A} (arr : list A) n x :
  x ∈ Array_slice0 arr n → x ∈ arr.
Proof.
  unfold Array_slice0. destruct (n <? 0)%Z; apply subseteq_take.
Qed.

(** The charge hours of a day are producing hours of that day. *)
Lemma chargeHours_of_spec dayData chargeHours hour :
  Compute.chargeHours_of batteryConfig
    (Compute.sortedHours_of dayData) = Ok chargeHours →
  hour ∈ chargeHours → hour ∈ dayData ∧ 0 < output hour.2.
Proof.
  unfold Compute.chargeHours_of.
  destruct (Compute.sliceEnd batteryConfig) as [n|]; [|done].
  ok_step. intros [= <-] Hin.
  apply Array_slice0_subset, list_elem_of_In, filter_In in Hin as [Hin Hpos].
  apply is_pos_true in Hpos. split; [|done].
  apply list_elem_of_In in Hin. unfold Compute.sortedHours_of in Hin.
  by rewrite Array_sort_Permutation in Hin.
Qed.

(** Charging raises the avoided negative energy only in an hour with a
    negative price. *)
Lemma charge_loop_negAvoided hours st st' :
  foldM charge_step st hours = Ok st' →
  0 < Compute.dayNegAvoided st' →
  0 < Compute.dayNegAvoided st
  ∨ ∃ hour, hour ∈ hours ∧ price hour.2 < 0.
Proof.
  revert st. induction hours as [|hour hours IH]; intros st; simpl.
  - intros [= <-]. by left.
  - destruct (charge_step st hour) as [st1|] eqn:Hstep; [|done].
    ok_step. intros Hrun Hpos.
    destruct (IH _ Hrun Hpos) as [Hst1|[h [Hh Hneg]]].
    + unfold Compute.charge_step in Hstep.
      destruct (is_pos _); [|injection Hstep as <-; by left].
      destruct (divide _ _) as [q|]; [|done].
      do 2 ok_step_in Hstep.
      destruct (is_neg (price hour.2)) eqn:Hneg.
      * right. exists hour. split; [left|]. by apply is_neg_true.
      * ok_step_in Hstep. injection Hstep as <-. by left.
    + right. exists h. split; [by right|done].
Qed.

Lemma discharge_loop_negAvoided hours st :
  Compute.dayNegAvoided (foldl discharge_step st hours)
  = Compute.dayNegAvoided st.
Proof.
  revert st. induction hours as [|hour hours IH]; intros st; simpl; [done|].
  rewrite IH. unfold Compute.discharge_step. by destruct (is_pos _).
Qed.

Lemma simulate_day_negAvoided dayData st :
  Compute.simulate_day Math_sqrt batteryConfig dayData = Ok st →
  0 < Compute.dayNegAvoided st →
  ∃ hour, hour ∈ dayData ∧ price hour.2 < 0 ∧ 0 < output hour.2.
Proof.
  unfold Compute.simulate_day.
  destruct (Compute.chargeHours_of _ _) as [chargeHours|] eqn:Hch; [|done].
  ok_step.
  destruct (Compute.dischargeHours_of _ _ _) as [dischargeHours|]; [|done].
  ok_step.
  destruct (foldM _ _ chargeHours) as [st1|] eqn:Hrun; [|done].
  ok_step. intros [= <-]. rewrite discharge_loop_negAvoided. intros Hpos.
  destruct (charge_loop_negAvoided _ _ _ Hrun Hpos) as [H0|[hour [Hin Hneg]]].
  - simpl in H0. lra.
  - destruct (chargeHours_of_spec _ _ _ Hch Hin) as [? ?]. eauto.
Qed.

Lemma days_negAvoided days tot0 tot :
  foldM (Compute.day_step Math_sqrt batteryConfig) tot0 days = Ok tot →
  0 < Compute.sum_totalNegativeAvoided tot →
  0 < Compute.sum_totalNegativeAvoided tot0
  ∨ ∃ dayData hour,
      dayData ∈ days ∧ hour ∈ dayData
      ∧ price hour.2 < 0 ∧ 0 < output hour.2.
Proof.
  revert tot0. induction days as [|dayData days IH]; intros tot0; simpl.
  - intros [= <-]. by left.
  - destruct (Compute.day_step _ _ tot0 dayData) as [tot1|] eqn:Hday; [|done].
    ok_step. intros Hrun Hpos.
    destruct (IH _ Hrun Hpos) as [H1|(dd & hour & Hdd & Hin & Hneg & Hout)].
    + unfold Compute.day_step in Hday.
      destruct (Compute.simulate_day _ _ dayData) as [st|] eqn:Hsim; [|done].
      ok_step_in Hday. destruct dayData as [|first dayData']; [done|].
      injection Hday as <-. simpl in H1.
      destruct (Qlt_le_dec 0 (Compute.dayNegAvoided st)) as [Hst|Hst].
      * right.
        destruct (simulate_day_negAvoided _ _ Hsim Hst)
          as (hour & Hin & Hneg & Hout).
        exists (first :: dayData'), hour. split_and!; [left|done..].
      * left. lra.
    + right. exists dd, hour. split_and!; [by right|done..].
Qed.
End BatteryFacts.

Lemma total_pos (f : AlignedRecord → Q) l x :
  x ∈ l → Forall (λ d, 0 < f d) l → 0 < Spec.total f l.
Proof.
  intros Hx Hall.
  assert (0 <= Spec.total f l ∧ (l ≠ [] → 0 < Spec.total f l)) as [_ H].
  { clear Hx. induction Hall as [|d l Hd _ [IH1 IH2]]; simpl.
    - split; [lra|done].
    - split; [lra|]. intros _. lra. }
  apply H. intros ->. by apply elem_of_nil in Hx.
Qed.

(** A producing record at a negative price makes the denominator of
    [negativeReduction] positive. *)
Lemma negative_record_production data r :
  r ∈ data → price r < 0 → 0 < output r →
  0 < Compute.negativeProduction data.
Proof.
  intros Hr Hneg Hout. unfold Compute.negativeProduction.
  rewrite foldl_total.
  assert (0 < Spec.total output
                (List.filter (λ d, is_neg (price d) && is_pos (output d)) data));
    [|lra].
  apply (total_pos output _ r).
  - apply list_elem_of_In, filter_In. split; [by apply list_elem_of_In|].
    apply andb_true_iff. split; [by apply is_neg_true|by apply is_pos_true].
  - apply Forall_forall. intros d Hd.
    apply list_elem_of_In, filter_In in Hd as [_ Hd].
    apply andb_true_iff in Hd as [_ Hd]. by apply is_pos_true.
Qed.

Lemma negAvoided_needs_negative_production Math_sqrt batteryConfig data tot :
  Compute.simulate_days Math_sqrt batteryConfig data = Ok tot →
  0 < Compute.sum_totalNegativeAvoided tot →
  0 < Compute.negativeProduction data.
Proof.
  unfold Compute.simulate_days. intros Hrun Hpos.
  destruct (days_negAvoided _ _ _ _ _ Hrun Hpos)
    as [H0|(dayData & hour & Hday & Hin & Hneg & Hout)].
  - simpl in H0. lra.
  - pose proof (groupByDay_groups (imap (λ i d, (i, d)) data)) as Hgroups.
    rewrite Forall_forall in Hgroups.
    destruct (Hgroups _ Hday) as [_ Hmem]. rewrite Forall_forall in Hmem.
    apply Hmem, elem_of_objects in Hin.
    by apply (negative_record_production data hour.2).
Qed.

(** Once the days are simulated, the closing ratios cannot fail. *)
Lemma simulateBattery_returns Math_sqrt batteryConfig data tot :
  Compute.simulate_days Math_sqrt batteryConfig data = Ok tot →
  ∃ result, Compute.simulateBattery Math_sqrt batteryConfig data = Ok result.
Proof.
  intros Hrun. unfold Compute.simulateBattery. rewrite Hrun. ok_step.
  rewrite guarded_divide. ok_step.
  assert (∃ r, (if is_pos (Compute.sum_totalNegativeAvoided tot)
                then divide (Compute.sum_totalNegativeAvoided tot)
                       (Compute.negativeProduction data)
                     ≫= λ q, Ok (q * 100)
                else Ok 0) = Ok r) as [r ->].
  { destruct (is_pos _) eqn:E; [|eauto].
    apply is_pos_true in E.
    rewrite divide_pos
      by (by eapply negAvoided_needs_negative_production).
    ok_step. eauto. }
  ok_step.
  set (originalRevenue := foldl (λ s d, s + price d * output d) 0 data).
  destruct (is_pos originalRevenue) eqn:E.
  - apply is_pos_true in E. rewrite divide_pos by done. do 2 ok_step. eauto.
  - ok_step. eauto.
Qed.

(** C10. In [simulateBattery] the division that computes
    [negativeReduction] never meets a zero denominator: whenever the total
    negative energy avoided is positive, the production at negative
    prices over the whole series is positive, so once the days are
    simulated the call returns. *)
Theorem negativeReduction_never_divides_by_zero
    Math_sqrt batteryConfig data tot :
  Compute.simulate_days Math_sqrt batteryConfig data = Ok tot →
  (0 < Compute.sum_totalNegativeAvoided tot →
   0 < Compute.negativeProduction data
   ∧ divide (Compute.sum_totalNegativeAvoided tot)
       (Compute.negativeProduction data)
     = Ok (Compute.sum_totalNegativeAvoided tot
           / Compute.negativeProduction data))
  ∧ ∃ result,
      Compute.simulateBattery Math_sqrt batteryConfig data = Ok result.
Proof.
  intros Hrun. split.
  - intros Hpos.
    pose proof (negAvoided_needs_negative_production _ _ _ _ Hrun Hpos).
    split; [done|]. by apply divide_pos.
  - by eapply simulateBattery_returns.
Qed.

Lemma negativeReduction_never_divides_by_zero_witness :
  ∃ tot,
    Compute.simulate_days Example.Math_sqrt Example.battery
      Example.battery_day = Ok tot
    ∧ 0 < Compute.sum_totalNegativeAvoided tot
    ∧ (0 < Compute.sum_totalNegativeAvoided tot →
       0 < Compute.negativeProduction Example.battery_day
       ∧ divide (Compute.sum_totalNegativeAvoided tot)
           (Compute.negativeProduction Example.battery_day)
         = Ok (Compute.sum_totalNegativeAvoided tot
               / Compute.negativeProduction Example.battery_day))
    ∧ ∃ result,
        Compute.simulateBattery Example.Math_sqrt Example.battery
          Example.battery_day = Ok result.
Proof.
  eexists. split; [vm_compute; reflexivity|].
  split; [vm_compute; reflexivity|].
  apply (negativeReduction_never_divides_by_zero Example.Math_sqrt
           Example.battery Example.battery_day).
  vm_compute. reflexivity.
Defined.

(** *** The state of charge *)

Lemma last_cons {A} (x d : A) l : List.last (x :: l) d = List.last l x.
Proof.
  revert x d. induction l as [|y l IH]; intros x d; [done|].
  change (List.last (x :: y :: l) d) with (List.last (y :: l) d).
  by rewrite (IH y d), (IH y x).
Qed.



Section StateOfCharge.
Variable Math_sqrt : Q → Q.
Variable batteryConfig : BatteryConfig.

Local Abbreviation sqrtEfficiency :=
  (Compute.sqrtEfficiency Math_sqrt batteryConfig).
Local Abbreviation minSOC := (Compute.minSOC batteryConfig).
Local Abbreviation maxSOC := (Compute.maxSOC batteryConfig).
Local Abbreviation charge_step :=
  (Compute.charge_step Math_sqrt batteryConfig).
Local Abbreviation discharge_step :=
  (Compute.discharge_step Math_sqrt batteryConfig).
Local Abbreviation in_window :=
  (λ st, minSOC <= Compute.soc st ∧ Compute.soc st <= maxSOC).

Hypothesis sqrt_unit : 0 < sqrtEfficiency ∧ sqrtEfficiency <= 1.
Hypothesis power_pos : 0 < powerMW batteryConfig.
Hypothesis energy_pos : 0 < energyMWh batteryConfig.









End StateOfCharge.




(** ** The representative-week selector *)

(** The loop of [groupByWeek]: the closed windows hold 168 records each,
    the open one at most 168, and together they are the records read. *)
Lemma week_loop_invariant data weeks0 cur0 :
  Forall (λ w, length w = 168%nat) weeks0 →
  (length cur0 ≤ 168)%nat →
  ∃ weeks cur,
    foldl Compute.week_step (weeks0, cur0) data = (weeks, cur)
    ∧ concat weeks ++ cur = concat weeks0 ++ cur0 ++ data
    ∧ Forall (λ w, length w = 168%nat) weeks
    ∧ (length cur ≤ 168)%nat.
Proof.
  revert weeks0 cur0. induction data as [|d data IH]; intros weeks0 cur0 Hw Hc.
  - exists weeks0, cur0. by rewrite app_nil_r.
  - cbn [foldl]. unfold Compute.week_step at 2.
    destruct (Nat.eqb_spec (length cur0) 0) as [H0|H0];
      [|destruct (Nat.ltb_spec (length cur0) 168) as [Hlt|Hge]].
    + destruct (IH weeks0 (cur0 ++ [d]) Hw)
        as (weeks & cur & -> & Hcat & ? & ?).
      { rewrite length_app. simpl. lia. }
      exists weeks, cur. split_and!; try done.
      by rewrite Hcat, <- !app_assoc.
    + destruct (IH weeks0 (cur0 ++ [d]) Hw)
        as (weeks & cur & -> & Hcat & ? & ?).
      { rewrite length_app. simpl. lia. }
      exists weeks, cur. split_and!; try done.
      by rewrite Hcat, <- !app_assoc.
    + destruct (IH (weeks0 ++ [cur0]) [d])
        as (weeks & cur & -> & Hcat & ? & ?).
      { apply Forall_app. split; [done|]. constructor; [lia|constructor]. }
      { simpl. lia. }
      exists weeks, cur. split_and!; try done.
      rewrite Hcat, concat_app. simpl. by rewrite app_nil_r, <- !app_assoc.
Qed.

(** [groupByWeek] cuts the series into consecutive windows of 168
    records and keeps what is left at the end only if it has at least
    120 records. *)
Lemma groupByWeek_partition data :
  ∃ full last,
    data = concat full ++ last
    ∧ Forall (λ w, length w = 168%nat) full
    ∧ (length last ≤ 168)%nat
    ∧ Compute.groupByWeek data
      = if (120 <=? length last)%nat then full ++ [last] else full.
Proof.
  destruct (week_loop_invariant data [] [])
    as (weeks & cur & Hrun & Hcat & Hw & Hc); [constructor|simpl; lia|].
  exists weeks, cur. unfold Compute.groupByWeek. rewrite Hrun.
  simpl in Hcat. by split_and!.
Qed.

Lemma groupByWeek_windows data :
  Forall (λ w, (120 ≤ length w ≤ 168)%nat) (Compute.groupByWeek data)
  ∧ ((168 ≤ length data)%nat → Compute.groupByWeek data ≠ []).
Proof.
  destruct (groupByWeek_partition data)
    as (full & last & Hdata & Hfull & Hlast & ->).
  assert (Forall (λ w, (120 ≤ length w ≤ 168)%nat) full) as Hfull'.
  { eapply Forall_impl; [exact Hfull|]. intros w. simpl. lia. }
  split.
  - destruct (Nat.leb_spec 120 (length last)); [|done].
    apply Forall_app. split; [done|]. constructor; [lia|constructor].
  - intros Hlen. destruct full as [|w full].
    + simpl in Hdata. subst last.
      destruct (Nat.leb_spec 120 (length data)); [done|lia].
    + by destruct (120 <=? length last)%nat.
Qed.

Section WeekFacts.
Variable Math_sqrt : Q → Q.

Lemma calculateStdDev_total values :
  ∃ v, Compute.calculateStdDev Math_sqrt values = Ok v.
Proof.
  unfold Compute.calculateStdDev.
  destruct values as [|v values]; [by exists 0|].
  cbn [length Nat.eqb].
  rewrite calculateMean_nonempty by done. ok_step.
  rewrite calculateMean_nonempty by done. ok_step. eauto.
Qed.

Lemma calculateWeekCaptureRate_total week :
  ∃ c, Compute.calculateWeekCaptureRate week = Ok c.
Proof.
  unfold Compute.calculateWeekCaptureRate.
  set (totalOutput := foldl (λ s d, s + output d) 0 week).
  destruct (Qeq_bool totalOutput 0) eqn:E; [eauto|].
  apply Qeq_bool_neq in E. rewrite divide_Ok by done. ok_step.
  destruct (calculateMean_total (map price week)) as [avg ->]. ok_step.
  destruct (is_pos avg) eqn:Epos; [|eauto].
  apply is_pos_true in Epos. rewrite divide_pos by done. eauto.
Qed.

Lemma weekMetric_returns week :
  week ≠ [] →
  ∃ m, Compute.weekMetric Math_sqrt week = Ok m
       ∧ wm_data m = week
       ∧ Compute.calculateStdDev Math_sqrt (map price week)
         = Ok (volatility m).
Proof.
  intros Hne. unfold Compute.weekMetric.
  destruct (calculateStdDev_total (map price week)) as [v ->]. ok_step.
  destruct (calculateWeekCaptureRate_total week) as [c ->]. ok_step.
  destruct week as [|first week]; [done|]. eauto.
Qed.

Lemma weekMetric_inv week m :
  Compute.weekMetric Math_sqrt week = Ok m →
  wm_data m = week
  ∧ Compute.calculateStdDev Math_sqrt (map price week) = Ok (volatility m).
Proof.
  intros H. destruct week as [|first week].
  - unfold Compute.weekMetric in H.
    destruct (Compute.calculateStdDev _ _); [|done]. ok_step_in H.
    destruct (Compute.calculateWeekCaptureRate _); [|done]. by ok_step_in H.
  - destruct (weekMetric_returns (first :: week)) as (m' & Hm' & ? & ?);
      [done|].
    rewrite H in Hm'. by injection Hm' as <-.
Qed.
End WeekFacts.

Lemma StronglySorted_lookup {A} (R : A → A → Prop) l i j x y :
  StronglySorted R l → (i < j)%nat →
  l !! i = Some x → l !! j = Some y → R x y.
Proof.
  intros Hs. revert i j. induction Hs as [|z l Hl IH Hz]; intros i j Hij Hi Hj.
  - done.
  - destruct j as [|j]; [lia|]. destruct i as [|i].
    + injection Hi as ->. simpl in Hj.
      rewrite Forall_forall in Hz. by eapply Hz, list_elem_of_lookup_2.
    + simpl in Hi, Hj. eapply (IH i j); [lia|done..].
Qed.

Lemma Array_get_Some {A} (arr : list A) (i : nat) x :
  arr !! i = Some x → Array_get arr (Z.of_nat i) = Some x.
Proof.
  intros H. unfold Array_get.
  destruct (Z.ltb_spec (Z.of_nat i) 0); [lia|]. by rewrite Nat2Z.id.
Qed.

Lemma floor_half n : Math_floor (count_to_Q n / 2) = Z.of_nat (n / 2).
Proof.
  unfold Math_floor, count_to_Q. change 2 with (inject_Z 2).
  rewrite <- Zdiv_Qdiv. by rewrite Nat2Z.inj_div.
Qed.

Lemma by_volatility_le (a b : WeekMetric) :
  cmp_le (λ a b, volatility a - volatility b) a b
  ↔ volatility a <= volatility b.
Proof. unfold cmp_le. split; intros; lra. Qed.

(** C9. [groupByWeek] cuts the series into consecutive windows of 168
    records and keeps the remainder only if it has at least 120 records;
    and on a series with at least one full week [findRepresentativeWeeks]
    returns three picks, each a window of at least 120 records, where the
    standard deviation of the prices of the volatile pick is at least
    that of the typical pick. *)
Theorem representative_weeks Math_sqrt data :
  (168 ≤ length data)%nat →
  (∃ full last,
     data = concat full ++ last
     ∧ Forall (λ w, length w = 168%nat) full
     ∧ (length last ≤ 168)%nat
     ∧ Compute.groupByWeek data
       = if (120 <=? length last)%nat then full ++ [last] else full)
  ∧ ∃ picks t v n,
      Compute.findRepresentativeWeeks Math_sqrt data = Ok picks
      ∧ typical picks = Some t
      ∧ volatile picks = Some v
      ∧ negative picks = Some n
      ∧ wm_data t ∈ Compute.groupByWeek data
      ∧ wm_data v ∈ Compute.groupByWeek data
      ∧ wm_data n ∈ Compute.groupByWeek data
      ∧ (120 ≤ length (wm_data t))%nat
      ∧ (120 ≤ length (wm_data v))%nat
      ∧ (120 ≤ length (wm_data n))%nat
      ∧ Compute.calculateStdDev Math_sqrt (map price (wm_data t))
        = Ok (volatility t)
      ∧ Compute.calculateStdDev Math_sqrt (map price (wm_data v))
        = Ok (volatility v)
      ∧ volatility t <= volatility v.
Proof.
  intros Hlen. split; [apply groupByWeek_partition|].
  destruct (groupByWeek_windows data) as [Hwin Hne]. specialize (Hne Hlen).
  unfold Compute.findRepresentativeWeeks.
  set (weeks := Compute.groupByWeek data) in *.
  destruct (mapM_Ok (Compute.weekMetric Math_sqrt) weeks) as (ms & Hms & HF2).
  { eapply Forall_impl; [exact Hwin|]. intros w Hw.
    destruct (weekMetric_returns Math_sqrt w) as (m & Hm & _);
      [destruct w; simpl in *; [lia|done]|eauto]. }
  rewrite Hms. ok_step.
  (* every metric belongs to a window *)
  assert (Forall (λ m, wm_data m ∈ weeks
                       ∧ (120 ≤ length (wm_data m))%nat
                       ∧ Compute.calculateStdDev Math_sqrt
                           (map price (wm_data m)) = Ok (volatility m)) ms)
    as Hmetrics.
  { apply Forall_forall. intros m Hm.
    apply list_elem_of_lookup in Hm as [i Hi].
    destruct (Forall2_lookup_r _ _ _ _ _ HF2 Hi) as (w & Hw & Hwm).
    apply weekMetric_inv in Hwm as [-> Hsd].
    rewrite Forall_forall in Hwin.
    pose proof (list_elem_of_lookup_2 _ _ _ Hw) as Hin.
    specialize (Hwin _ Hin). split_and!; [done|lia|done]. }
  assert (0 < length ms)%nat as Hn.
  { rewrite <- (Forall2_length _ _ _ HF2). destruct weeks; [done|simpl; lia]. }
  set (sortedByVolatility :=
         Array_sort (λ a b, volatility a - volatility b) ms).
  set (sortedByNegative :=
         Array_sort (λ a b, count_to_Q (negativeHours b)
                            - count_to_Q (negativeHours a)) ms).
  assert (length sortedByVolatility = length ms) as HlenV
    by apply Array_sort_length.
  assert (length sortedByNegative = length ms) as HlenN
    by apply Array_sort_length.
  rewrite floor_half, HlenV.
  destruct (lookup_lt_is_Some_2 sortedByVolatility (length ms / 2))
    as [t Ht].
  { rewrite HlenV. apply Nat.div_lt; lia. }
  destruct (lookup_lt_is_Some_2 sortedByVolatility (length ms - 1))
    as [v Hv]; [lia|].
  destruct (lookup_lt_is_Some_2 sortedByNegative 0) as [n Hng]; [lia|].
  rewrite (Array_get_Some _ _ _ Ht).
  replace (Z.of_nat (length ms) - 1)%Z with (Z.of_nat (length ms - 1)) by lia.
  rewrite (Array_get_Some _ _ _ Hv).
  change (Array_get sortedByNegative 0)
    with (Array_get sortedByNegative (Z.of_nat 0)).
  rewrite (Array_get_Some sortedByNegative 0 n Hng).
  assert (∀ m, m ∈ sortedByVolatility → m ∈ ms) as HinV.
  { intros m. unfold sortedByVolatility. by rewrite Array_sort_Permutation. }
  assert (∀ m, m ∈ sortedByNegative → m ∈ ms) as HinN.
  { intros m. unfold sortedByNegative. by rewrite Array_sort_Permutation. }
  rewrite Forall_forall in Hmetrics.
  destruct (Hmetrics t (HinV _ (list_elem_of_lookup_2 _ _ _ Ht)))
    as (? & ? & ?).
  destruct (Hmetrics v (HinV _ (list_elem_of_lookup_2 _ _ _ Hv)))
    as (? & ? & ?).
  destruct (Hmetrics n (HinN _ (list_elem_of_lookup_2 _ _ _ Hng)))
    as (? & ? & ?).
  eexists _, t, v, n. split; [done|]. cbn [typical volatile negative].
  split_and!; try done.
  destruct (decide (length ms / 2 = length ms - 1)%nat) as [Heq|Hneq].
  - rewrite Heq in Ht. rewrite Ht in Hv. injection Hv as ->. lra.
  - apply by_volatility_le.
    eapply (StronglySorted_lookup _ sortedByVolatility
              (length ms / 2) (length ms - 1)); [| |done|done].
    + apply Array_sort_sorted.
      * intros a b. rewrite !by_volatility_le. lra.
      * intros a b c. rewrite !by_volatility_le. lra.
    + assert (length ms / 2 < length ms)%nat by (apply Nat.div_lt; lia). lia.
Qed.

Lemma representative_weeks_witness :
  (∃ full last,
     Example.week_series = concat full ++ last
     ∧ Forall (λ w, length w = 168%nat) full
     ∧ (length last ≤ 168)%nat
     ∧ Compute.groupByWeek Example.week_series
       = if (120 <=? length last)%nat then full ++ [last] else full)
  ∧ ∃ picks t v n,
      Compute.findRepresentativeWeeks Example.Math_sqrt Example.week_series
      = Ok picks
      ∧ typical picks = Some t
      ∧ volatile picks = Some v
      ∧ negative picks = Some n
      ∧ wm_data t ∈ Compute.groupByWeek Example.week_series
      ∧ wm_data v ∈ Compute.groupByWeek Example.week_series
      ∧ wm_data n ∈ Compute.groupByWeek Example.week_series
      ∧ (120 ≤ length (wm_data t))%nat
      ∧ (120 ≤ length (wm_data v))%nat
      ∧ (120 ≤ length (wm_data n))%nat
      ∧ Compute.calculateStdDev Example.Math_sqrt (map price (wm_data t))
        = Ok (volatility t)
      ∧ Compute.calculateStdDev Example.Math_sqrt (map price (wm_data v))
        = Ok (volatility v)
      ∧ volatility t <= volatility v.
Proof.
  apply (representative_weeks Example.Math_sqrt Example.week_series).
  vm_compute. lia.
Defined.

(** * Further properties of the engine *)

(** ** Percentiles and risk metrics *)











Lemma Math_round_le x y : x <= y → (Math_round x ≤ Math_round y)%Z.
Proof. intros H. unfold Math_round. apply Qfloor_resp_le. lra. Qed.




(** ** Maps that are filled by one loop

    The engine groups a series with the idiom of [Map_upsert]: the entry
    of a key is created when the key is first met and updated at every
    later record with that key.  [Map_get] after the loop is the fold of
    the updates over the records of that key, in their order. *)

Section UpsertFacts.
Context {A V : Type} (key : A → string) (init : V) (upd : A → V → V).

Local Abbreviation step := (λ m d, Map_upsert (key d) init (upd d) m).

Lemma Map_get_upsert k k' f (m : list (string * V)) :
  Map_get k (Map_upsert k' init f m)
  = if decide (k = k') then Some (f (default init (Map_get k m)))
    else Map_get k m.
Proof.
  induction m as [|[k0 v] m IH]; simpl.
  - by destruct (decide (k = k')).
  - destruct (decide (k' = k0)) as [-> |Hne]; simpl.
    + by destruct (decide (k = k0)).
    + rewrite IH. destruct (decide (k = k0)) as [-> |?]; [|done].
      by destruct (decide (k0 = k')) as [-> |?].
Qed.

Lemma Map_upsert_keys k f (m : list (string * V)) :
  map fst (Map_upsert k init f m)
  = if decide (k ∈ map fst m) then map fst m else map fst m ++ [k].
Proof.
  induction m as [|[k0 v] m IH]; simpl.
  - destruct (decide (k ∈ [])) as [H|_]; [by apply elem_of_nil in H|done].
  - destruct (decide (k = k0)) as [-> |Hne]; simpl.
    + destruct (decide (k0 ∈ k0 :: map fst m)) as [_|H]; [done|].
      exfalso. apply H. left.
    + rewrite IH. destruct (decide (k ∈ map fst m)) as [Hin|Hout].
      * destruct (decide (k ∈ k0 :: map fst m)) as [_|H]; [done|].
        exfalso. apply H. by right.
      * destruct (decide (k ∈ k0 :: map fst m)) as [H|_]; [|done].
        apply elem_of_cons in H as [?|?]; done.
Qed.

Lemma Map_upsert_NoDup k f (m : list (string * V)) :
  NoDup (map fst m) → NoDup (map fst (Map_upsert k init f m)).
Proof.
  intros Hnd. rewrite Map_upsert_keys.
  destruct (decide (k ∈ map fst m)); [done|].
  apply NoDup_app. split_and!; [done| |apply NoDup_singleton].
  intros x Hx Hx'. apply list_elem_of_singleton in Hx'. by subst.
Qed.

Lemma upsert_loop_keys (data : list A) (m : list (string * V)) :
  NoDup (map fst m) →
  NoDup (map fst (foldl step m data))
  ∧ ∀ k, k ∈ map fst (foldl step m data)
         ↔ k ∈ map fst m ∨ ∃ d, d ∈ data ∧ key d = k.
Proof.
  revert m. induction data as [|d data IH]; intros m Hnd; simpl.
  - split; [done|]. intros k. split; [by left|].
    intros [?|(d & Hd & _)]; [done|]. by apply elem_of_nil in Hd.
  - destruct (IH (Map_upsert (key d) init (upd d) m)) as [Hnd' Hkeys];
      [by apply Map_upsert_NoDup|].
    split; [done|]. intros k. rewrite Hkeys, Map_upsert_keys.
    destruct (decide (key d ∈ map fst m)) as [Hin|Hout].
    + split.
      * intros [?|(d' & Hd' & <-)]; [by left|].
        right. exists d'. split; [by right|done].
      * intros [?|(d' & Hd' & <-)]; [by left|].
        apply elem_of_cons in Hd' as [-> |Hd']; [by left|].
        right. by exists d'.
    + rewrite elem_of_app, list_elem_of_singleton. split.
      * intros [[?| ->]|(d' & Hd' & <-)]; [by left| |].
        -- right. exists d. split; [left|done].
        -- right. exists d'. split; [by right|done].
      * intros [?|(d' & Hd' & <-)]; [by left; left|].
        apply elem_of_cons in Hd' as [-> |Hd']; [by left; right|].
        right. by exists d'.
Qed.

Lemma upsert_loop_get (data : list A) (m : list (string * V)) k :
  Map_get k (foldl step m data)
  = match filter (λ d, key d = k) data with
    | [] => Map_get k m
    | records =>
        Some (foldl (λ v d, upd d v) (default init (Map_get k m)) records)
    end.
Proof.
  revert m. induction data as [|d data IH]; intros m; [done|].
  cbn [foldl]. rewrite IH, Map_get_upsert.
  destruct (decide (key d = k)) as [E|E].
  - rewrite filter_cons_True by done.
    destruct (decide (k = key d)) as [_|?]; [|done].
    by destruct (filter (λ d0, key d0 = k) data).
  - rewrite filter_cons_False by done.
    by destruct (decide (k = key d)) as [?|_].
Qed.

Lemma Map_get_elem_of (m : list (string * V)) k v :
  NoDup (map fst m) → (k, v) ∈ m ↔ Map_get k m = Some v.
Proof.
  induction m as [|[k0 v0] m IH]; intros Hnd; simpl.
  - split; [intros H; by apply elem_of_nil in H|done].
  - apply NoDup_cons in Hnd as [Hk0 Hnd]. rewrite elem_of_cons.
    destruct (decide (k = k0)) as [-> |Hne].
    + split.
      * intros [[= ->]|Hin]; [done|].
        exfalso. apply Hk0. apply list_elem_of_fmap. by exists (k0, v).
      * intros [= ->]. by left.
    + rewrite <- IH by done. split; [|by right].
      intros [[= ? ?]|?]; done.
Qed.

(** The entries after the loop over [data], from the empty map: one per
    key, holding the fold of the updates over the records of that key. *)
Lemma upsert_loop_entries (data : list A) :
  let m := foldl step [] data in
  NoDup (map fst m)
  ∧ (∀ d, d ∈ data → key d ∈ map fst m)
  ∧ Forall (λ e, filter (λ d, key d = e.1) data ≠ []
                 ∧ e.2 = foldl (λ v d, upd d v) init
                           (filter (λ d, key d = e.1) data)) m.
Proof.
  cbv zeta. destruct (upsert_loop_keys data []) as [Hnd Hkeys];
    [constructor|].
  split_and!; [done| |].
  - intros d Hd. apply Hkeys. right. by exists d.
  - apply Forall_forall. intros [k v] Hin.
    apply Map_get_elem_of in Hin; [|done].
    rewrite upsert_loop_get in Hin. cbn [fst snd].
    destruct (filter (λ d, key d = k) data) as [|d records]; [done|].
    injection Hin as <-. done.
Qed.
End UpsertFacts.

Lemma foldl_Qplus a l : foldl Qplus a l == a + foldr Qplus 0 l.
Proof.
  revert a. induction l as [|x l IH]; intros a; simpl; [lra|].
  rewrite IH. lra.
Qed.

Lemma sum_foldr l : Compute.sum l == foldr Qplus 0 l.
Proof. unfold Compute.sum. rewrite foldl_Qplus. lra. Qed.

Lemma foldr_Qplus_Permutation l l' :
  l ≡ₚ l' → foldr Qplus 0 l == foldr Qplus 0 l'.
Proof.
  induction 1 as [|x l l' _ IH|x y l|l l' l'' _ IH1 _ IH2]; simpl.
  - reflexivity.
  - by rewrite IH.
  - lra.
  - by rewrite IH1.
Qed.

Lemma sum_Permutation l l' : l ≡ₚ l' → Compute.sum l == Compute.sum l'.
Proof. intros H. rewrite !sum_foldr. by apply foldr_Qplus_Permutation. Qed.

Section UpsertSums.
Context {A V : Type} (key : A → string) (init : V) (upd : A → V → V).
Context (g : V → Q) (delta : A → Q).
Hypothesis g_init : g init == 0.
Hypothesis g_upd : ∀ d v, g (upd d v) == g v + delta d.

Lemma upsert_sum d (m : list (string * V)) :
  foldr Qplus 0 (map (λ e, g e.2) (Map_upsert (key d) init (upd d) m))
  == foldr Qplus 0 (map (λ e, g e.2) m) + delta d.
Proof.
  induction m as [|[k v] m IH]; simpl.
  - rewrite g_upd, g_init. lra.
  - destruct (decide (key d = k)); simpl.
    + rewrite g_upd. lra.
    + rewrite IH. lra.
Qed.

Lemma upsert_loop_sum (data : list A) (m : list (string * V)) :
  foldr Qplus 0
    (map (λ e, g e.2)
       (foldl (λ m d, Map_upsert (key d) init (upd d) m) m data))
  == foldr Qplus 0 (map (λ e, g e.2) m)
     + foldr (λ d acc, delta d + acc) 0 data.
Proof.
  revert m. induction data as [|d data IH]; intros m; simpl; [lra|].
  rewrite IH, upsert_sum. lra.
Qed.
End UpsertSums.

Lemma monthly_pair_fold rest (v : Q * Q) :
  (foldl (λ (month : Q * Q) d,
            (month.1 + price d * output d, month.2 + output d)) v rest).1
  == v.1 + Spec.spotRevenue rest
  ∧ (foldl (λ (month : Q * Q) d,
              (month.1 + price d * output d, month.2 + output d)) v rest).2
    == v.2 + Spec.totalProduction rest.
Proof.
  revert v. induction rest as [|d rest IH]; intros v.
  - unfold Spec.spotRevenue, Spec.totalProduction. simpl. split; lra.
  - cbn [foldl]. destruct (IH (v.1 + price d * output d, v.2 + output d))
      as [-> ->].
    unfold Spec.spotRevenue, Spec.totalProduction. simpl. split; lra.
Qed.

(** X3. [calculateMonthlyRevenues] returns one entry per calendar month
    of the series: the month keys are distinct, every record's month has
    an entry, each entry holds the revenue and the production summed over
    exactly the records of its month, and the entries add up to the
    revenue and the production of the whole series. *)
Theorem monthlyRevenues_by_month localeCompare data :
  let months := Compute.calculateMonthlyRevenues localeCompare data in
  NoDup (map mr_month months)
  ∧ (∀ d, d ∈ data → Compute.monthKey (date d) ∈ map mr_month months)
  ∧ Forall (λ m,
      let records :=
        filter (λ d, Compute.monthKey (date d) = mr_month m) data in
      records ≠ []
      ∧ revenue m == Spec.spotRevenue records
      ∧ production m == Spec.totalProduction records) months
  ∧ Compute.sum (map revenue months) == Spec.spotRevenue data
  ∧ Compute.sum (map production months) == Spec.totalProduction data.
Proof.
  cbv zeta.
  pose (upd := λ (d : AlignedRecord) (month : Q * Q),
                 (month.1 + price d * output d, month.2 + output d)).
  pose (monthlyMap :=
          foldl (λ m d, Map_upsert (Compute.monthKey (date d)) (0, 0)
                          (upd d) m) [] data).
  pose (entries := map (λ e : string * (Q * Q),
                          mkMonthlyRevenue e.1 e.2.1 e.2.2) monthlyMap).
  pose (cmp := λ a b, localeCompare (mr_month a) (mr_month b)).
  change (Compute.calculateMonthlyRevenues localeCompare data)
    with (Array_sort cmp entries).
  pose proof (Array_sort_Permutation cmp entries) as Hperm.
  destruct (upsert_loop_entries (λ d, Compute.monthKey (date d)) (0, 0)
              upd data) as (Hnd & Hkeys & Hent).
  fold monthlyMap in Hnd, Hkeys, Hent.
  assert (map mr_month entries = map fst monthlyMap) as Hmonths.
  { unfold entries. rewrite map_map. by apply map_ext. }
  split_and!.
  - rewrite Hperm, Hmonths. done.
  - intros d Hd. rewrite Hperm, Hmonths. by apply Hkeys.
  - apply Forall_forall. intros m Hm. rewrite Hperm in Hm.
    apply list_elem_of_fmap in Hm as ([k v] & -> & He).
    rewrite Forall_forall in Hent. destruct (Hent _ He) as [Hne Hv].
    cbn [fst snd mr_month revenue production] in *.
    split; [done|]. rewrite Hv.
    destruct (monthly_pair_fold
                (filter (λ d, Compute.monthKey (date d) = k) data) (0, 0))
      as [H1 H2].
    split.
    + eapply Qeq_trans; [exact H1|]. cbn [fst]. lra.
    + eapply Qeq_trans; [exact H2|]. cbn [snd]. lra.
  - rewrite (sum_Permutation _ _ (fmap_Permutation revenue _ _ Hperm)).
    rewrite sum_foldr. unfold entries. rewrite map_map. cbn [revenue].
    eapply Qeq_trans.
    { apply (upsert_loop_sum (λ d, Compute.monthKey (date d)) (0, 0) upd
               (λ v, v.1) (λ d, price d * output d)).
      - reflexivity.
      - intros d v. unfold upd. cbn [fst]. lra. }
    simpl. unfold Spec.spotRevenue, Spec.total. lra.
  - rewrite (sum_Permutation _ _ (fmap_Permutation production _ _ Hperm)).
    rewrite sum_foldr. unfold entries. rewrite map_map. cbn [production].
    eapply Qeq_trans.
    { apply (upsert_loop_sum (λ d, Compute.monthKey (date d)) (0, 0) upd
               (λ v, v.2) (λ d, output d)).
      - reflexivity.
      - intros d v. unfold upd. cbn [snd]. lra. }
    simpl. unfold Spec.totalProduction, Spec.total. lra.
Qed.

(** ** Grouping by day *)

Lemma foldl_snoc {A} (l acc : list A) :
  foldl (λ v d, v ++ [d]) acc l = acc ++ l.
Proof.
  revert acc. induction l as [|x l IH]; intros acc; simpl.
  - by rewrite app_nil_r.
  - by rewrite IH, <- app_assoc.
Qed.

Lemma upsert_snoc_concat {A} k (d : A) (m : list (string * list A)) :
  concat (map snd (Map_upsert k [] (λ day, day ++ [d]) m))
  ≡ₚ d :: concat (map snd m).
Proof.
  induction m as [|[k0 v] m IH]; simpl; [done|].
  destruct (decide (k = k0)); simpl.
  - rewrite <- app_assoc. simpl. by rewrite <- Permutation_middle.
  - rewrite IH. by rewrite <- Permutation_middle.
Qed.

Lemma groupByDay_concat (objs : list Obj) (m : list (string * list Obj)) :
  concat (map snd
            (foldl (λ dayMap d,
                      Map_upsert (isoDate (date d.2)) []
                        (λ day, day ++ [d]) dayMap) m objs))
  ≡ₚ concat (map snd m) ++ objs.
Proof.
  revert m. induction objs as [|d objs IH]; intros m; simpl.
  - by rewrite app_nil_r.
  - rewrite IH, upsert_snoc_concat. by rewrite <- Permutation_middle.
Qed.

(** X4. [groupByDay] partitions the records by their UTC calendar date:
    every record is in exactly one group, a group holds all the records
    of its date in the order of the series (so it is never empty), and
    two different groups have different dates. *)
Theorem groupByDay_partition (objs : list Obj) :
  let days := Compute.groupByDay objs in
  concat days ≡ₚ objs
  ∧ Forall (λ dayData, dayData ≠ []) days
  ∧ (∀ dayData d,
       dayData ∈ days → d ∈ dayData →
       dayData
       = filter (λ d', isoDate (date d'.2) = isoDate (date d.2)) objs)
  ∧ ∀ i j day1 day2 d1 d2,
      days !! i = Some day1 → days !! j = Some day2 →
      d1 ∈ day1 → d2 ∈ day2 →
      isoDate (date d1.2) = isoDate (date d2.2) → i = j.
Proof.
  cbv zeta.
  pose (key := λ d : Obj, isoDate (date d.2)).
  pose (upd := λ (d : Obj) (day : list Obj), day ++ [d]).
  pose (dayMap := foldl (λ m d, Map_upsert (key d) [] (upd d) m) [] objs).
  change (Compute.groupByDay objs) with (map snd dayMap).
  destruct (upsert_loop_entries key [] upd objs) as (Hnd & Hkeys & Hent).
  fold dayMap in Hnd, Hkeys, Hent.
  assert (∀ k day, (k, day) ∈ dayMap →
                   day ≠ [] ∧ day = filter (λ d, key d = k) objs) as Hday.
  { intros k day Hin. rewrite Forall_forall in Hent.
    destruct (Hent _ Hin) as [Hne Hv]. cbn [fst snd] in *.
    unfold upd in Hv. rewrite foldl_snoc in Hv. simpl in Hv.
    split; [by rewrite Hv|done]. }
  assert (∀ k day d, (k, day) ∈ dayMap → d ∈ day → key d = k) as Hkey.
  { intros k day d Hin Hd. destruct (Hday _ _ Hin) as [_ ->].
    by apply list_elem_of_filter in Hd as [? _]. }
  split_and!.
  - apply (groupByDay_concat objs []).
  - apply Forall_forall. intros day Hin.
    apply list_elem_of_fmap in Hin as ([k day'] & -> & Hin).
    by destruct (Hday _ _ Hin).
  - intros day d Hin Hd.
    apply list_elem_of_fmap in Hin as ([k day'] & -> & Hin).
    pose proof (Hkey _ _ _ Hin Hd) as Hk. subst k.
    by destruct (Hday _ _ Hin).
  - intros i j day1 day2 d1 d2 Hi Hj Hd1 Hd2 Hsame.
    rewrite list_lookup_fmap in Hi, Hj.
    destruct (dayMap !! i) as [[k1 day1']|] eqn:Ei; [|done].
    destruct (dayMap !! j) as [[k2 day2']|] eqn:Ej; [|done].
    injection Hi as ->. injection Hj as ->.
    pose proof (Hkey _ _ _ (list_elem_of_lookup_2 _ _ _ Ei) Hd1) as H1.
    pose proof (Hkey _ _ _ (list_elem_of_lookup_2 _ _ _ Ej) Hd2) as H2.
    eapply (NoDup_lookup (map fst dayMap) i j k1); [done| |].
    + by rewrite list_lookup_fmap, Ei.
    + rewrite list_lookup_fmap, Ej. simpl. f_equal.
      unfold key in H1, H2. congruence.
Qed.

(** ** The negative-price heatmap *)

Lemma bump_cell_lookup month hour matrix (m : fin 12) (h : fin 24) :
  (Compute.bump_cell month hour matrix !!! m) !!! h
  = if bool_decide (month = m) && bool_decide (hour = h)
    then S ((matrix !!! m) !!! h) else (matrix !!! m) !!! h.
Proof.
  unfold Compute.bump_cell.
  destruct (decide (month = m)) as [->|Hm].
  - rewrite vlookup_insert, bool_decide_eq_true_2 by done. simpl.
    destruct (decide (hour = h)) as [->|Hh].
    + by rewrite vlookup_insert, bool_decide_eq_true_2.
    + by rewrite vlookup_insert_ne, bool_decide_eq_false_2.
  - by rewrite vlookup_insert_ne, bool_decide_eq_false_2.
Qed.

Lemma foldl_map_compose {A B C} (f : A → C → A) (g : B → C) a l :
  foldl f a (map g l) = foldl (λ a x, f a (g x)) a l.
Proof. revert a. induction l as [|x l IH]; intros a; [done|]. apply IH. Qed.

(** The running maximum of the loop that computes [maxCount]. *)
Lemma running_max (cells : list nat) (a : nat) :
  let r := foldl (λ maxCount c, if (maxCount <? c)%nat then c else maxCount)
             a cells in
  (a ≤ r)%nat ∧ Forall (λ c, (c ≤ r)%nat) cells ∧ (r = a ∨ r ∈ cells).
Proof.
  cbv zeta. revert a. induction cells as [|c cells IH]; intros a; simpl.
  - split_and!; [lia|constructor|by left].
  - destruct (IH (if (a <? c)%nat then c else a)) as (Hge & Hall & Hin).
    destruct (Nat.ltb_spec a c).
    + split_and!; [lia|by constructor|].
      destruct Hin as [->|Hin]; right; [left|by right].
    + split_and!; [lia|constructor; [lia|done]|].
      destruct Hin as [?|Hin]; [by left|right; by right].
Qed.

Lemma running_max_rows (rows : list (list nat)) (a : nat) :
  let r :=
    foldl (λ maxCount row,
             foldl (λ maxCount c, if (maxCount <? c)%nat then c else maxCount)
               maxCount row)
          a rows in
  (a ≤ r)%nat
  ∧ Forall (λ row, Forall (λ c, (c ≤ r)%nat) row) rows
  ∧ (r = a ∨ ∃ row, row ∈ rows ∧ r ∈ row).
Proof.
  cbv zeta. revert a. induction rows as [|row rows IH]; intros a; simpl.
  - split_and!; [lia|constructor|by left].
  - destruct (running_max row a) as (Hge & Hall & Hin).
    cbv zeta in Hge, Hall, Hin.
    set (a' := foldl _ a row) in *.
    destruct (IH a') as (Hge' & Hall' & Hin').
    split_and!; [lia| |].
    + constructor; [|done].
      eapply Forall_impl; [exact Hall|]. intros c. simpl. lia.
    + destruct Hin' as [->|(row' & Hrow' & Hr)].
      * destruct Hin as [?|Hin]; [by left|].
        right. exists row. split; [left|done].
      * right. exists row'. split; [by right|done].
Qed.

(** X5. The negative-price heatmap counts, for every month and hour of
    the day, the producing hours ([counts]) and among them those at a
    negative price ([heatmap]); a heatmap cell never exceeds its count,
    and [maxCount] is the greatest heatmap cell. *)
Theorem negativeHeatmap_cells data (month : fin 12) (hour : fin 24) :
  let result := Compute.calculateNegativeHeatmap data in
  let here (d : AlignedRecord) :=
    bool_decide (getMonth (date d) = month)
    && bool_decide (getHours (date d) = hour) in
  (counts result !!! month) !!! hour
  = length (List.filter (λ d, is_pos (output d) && here d) data)
  ∧ (heatmap result !!! month) !!! hour
    = length (List.filter
                (λ d, is_pos (output d) && is_neg (price d) && here d) data)
  ∧ ((heatmap result !!! month) !!! hour
     ≤ (counts result !!! month) !!! hour)%nat
  ∧ ((heatmap result !!! month) !!! hour ≤ maxCount result)%nat
  ∧ ∃ m h, (heatmap result !!! m) !!! h = maxCount result.
Proof.
  cbv zeta. unfold Compute.calculateNegativeHeatmap.
  set (zero := vreplicate 12 (vreplicate 24 0%nat)).
  set (body := λ (hc : vec (vec nat 24) 12 * vec (vec nat 24) 12) d, _).
  set (here := λ d : AlignedRecord,
         bool_decide (getMonth (date d) = month)
         && bool_decide (getHours (date d) = hour)).
  assert (∀ l hc,
            (((foldl body hc l).2 !!! month) !!! hour
             = ((hc.2 !!! month) !!! hour
                + length (List.filter (λ d, is_pos (output d) && here d) l))
               %nat)
            ∧ (((foldl body hc l).1 !!! month) !!! hour
               = ((hc.1 !!! month) !!! hour
                  + length (List.filter
                              (λ d, is_pos (output d) && is_neg (price d)
                                    && here d) l))%nat)) as Hloop.
  { induction l as [|d l IH]; intros hc; [simpl; lia|].
    cbn [foldl List.filter]. destruct (IH (body hc d)) as [-> ->].
    set (n1 := List.filter (λ d0, is_pos (output d0) && here d0) l).
    set (n2 := List.filter (λ d0, is_pos (output d0) && is_neg (price d0)
                                  && here d0) l).
    clearbody n1 n2. unfold body, here.
    destruct (is_pos (output d)); [|simpl; lia].
    destruct (is_neg (price d)); cbn [fst snd andb];
      rewrite ?bump_cell_lookup;
      destruct (bool_decide (getMonth (date d) = month)
                && bool_decide (getHours (date d) = hour));
      simpl; lia. }
  destruct (Hloop data (zero, zero)) as [Hc Hh].
  assert ((zero !!! month) !!! hour = 0%nat) as Hz.
  { unfold zero. by rewrite !vlookup_replicate. }
  cbn [fst snd] in Hc, Hh. rewrite Hz, Nat.add_0_l in Hc, Hh.
  cbn [heatmap counts maxCount].
  set (filled := foldl body (zero, zero) data) in *.
  destruct (running_max_rows (map vec_to_list (vec_to_list filled.1)) 0)
    as (_ & Hall & Hmax).
  cbv zeta in Hall, Hmax.
  assert (foldl (λ maxCount row,
                   foldl (λ maxCount c,
                            if (maxCount <? c)%nat then c else maxCount)
                     maxCount row)
                0%nat (map vec_to_list (vec_to_list filled.1))
          = foldl (λ maxCount (row : vec nat 24),
                     foldl (λ maxCount c,
                              if (maxCount <? c)%nat then c else maxCount)
                       maxCount (vec_to_list row))
                  0%nat (vec_to_list filled.1)) as Hfold.
  { apply foldl_map_compose. }
  rewrite Hfold in Hall, Hmax.
  set (mx := foldl _ 0%nat (vec_to_list filled.1)) in *.
  split_and!; [exact Hc|exact Hh| | |].
  - rewrite Hc, Hh. clear. induction data as [|d data IH]; [done|]. simpl.
    destruct (is_pos (output d)), (is_neg (price d)), (here d); simpl; lia.
  - rewrite Forall_forall in Hall.
    assert (vec_to_list (filled.1 !!! month)
            ∈ map vec_to_list (vec_to_list filled.1)) as Hrow.
    { apply list_elem_of_fmap. eexists. split; [done|].
      apply elem_of_vlookup. by exists month. }
    specialize (Hall _ Hrow). rewrite Forall_forall in Hall.
    apply Hall. apply elem_of_vlookup. by exists hour.
  - destruct Hmax as [->|(row & Hrow & Hin)].
    + exists 0%fin, 0%fin. rewrite Forall_forall in Hall.
      assert (vec_to_list (filled.1 !!! 0%fin)
              ∈ map vec_to_list (vec_to_list filled.1)) as Hrow.
      { apply list_elem_of_fmap. eexists. split; [done|].
        apply elem_of_vlookup. by exists 0%fin. }
      specialize (Hall _ Hrow). rewrite Forall_forall in Hall.
      assert ((filled.1 !!! 0%fin) !!! 0%fin ≤ 0)%nat as Hle; [|lia].
      apply Hall. apply elem_of_vlookup. by exists 0%fin.
    + apply list_elem_of_fmap in Hrow as (vrow & -> & Hv).
      apply elem_of_vlookup in Hv as [m <-].
      apply elem_of_vlookup in Hin as [h Hcell]. by exists m, h.
Qed.

(** ** Further properties of the KPIs *)

Lemma total_le (f g : AlignedRecord → Q) data :
  Forall (λ d, f d <= g d) data → Spec.total f data <= Spec.total g data.
Proof.
  induction 1 as [|d data Hd _ IH]; unfold Spec.total in *; simpl; lra.
Qed.

Lemma total_Qeq (f g : AlignedRecord → Q) data :
  Forall (λ d, f d == g d) data → Spec.total f data == Spec.total g data.
Proof.
  induction 1 as [|d data Hd _ IH]; unfold Spec.total in *; simpl;
    [reflexivity|].
  rewrite Hd, IH. reflexivity.
Qed.

Lemma total_nonneg (f : AlignedRecord → Q) data :
  Forall (λ d, 0 <= f d) data → 0 <= Spec.total f data.
Proof.
  induction 1 as [|d data Hd _ IH]; unfold Spec.total in *; simpl; lra.
Qed.

Lemma total_filter_le (f : AlignedRecord → Q) (keep : AlignedRecord → bool)
    data :
  Forall (λ d, 0 <= f d) data →
  Spec.total f (List.filter keep data) <= Spec.total f data.
Proof.
  induction 1 as [|d data Hd _ IH]; unfold Spec.total in *; simpl; [lra|].
  destruct (keep d); simpl; lra.
Qed.

(** X6. A floor price never lowers the merchant revenue of a series whose
    outputs are not negative, it changes nothing when no price is below
    the floor, and it changes no other metric of [calculateKPIs]. *)
Theorem floor_never_lowers_merchantRevenue
    localeCompare data capacityMW floor ppa :
  data ≠ [] →
  Forall (λ d, 0 <= output d) data →
  ∃ plain floored,
    Compute.calculateKPIs localeCompare (Some data) capacityMW
      (mkOptions None ppa) = Ok plain
    ∧ Compute.calculateKPIs localeCompare (Some data) capacityMW
        (mkOptions (Some floor) ppa) = Ok floored
    ∧ (merchantRevenue plain ≤ merchantRevenue floored)%Z
    ∧ (Forall (λ d, floor <= price d) data →
       merchantRevenue floored = merchantRevenue plain)
    ∧ floored
      = mkKPIs (baseloadAvg plain) (capturePrice plain) (captureRate plain)
          (negativeHoursCount plain) (negativeMWh plain)
          (negativePercentage plain) (totalProduction plain)
          (merchantRevenue floored) (ppaRevenue plain) (riskMetrics plain)
          (monthlyCaptureRates plain) (priceDistribution plain)
          (negativeHeatmap plain) (dataPoints plain).
Proof.
  intros Hne Hout.
  destruct (calculateKPIs_run localeCompare data capacityMW
              (mkOptions None ppa) Hne)
    as (rm & mcr & pd & Hrm & Hmcr & Hpd & ->).
  destruct (calculateKPIs_run localeCompare data capacityMW
              (mkOptions (Some floor) ppa) Hne)
    as (rm' & mcr' & pd' & Hrm' & Hmcr' & Hpd' & ->).
  rewrite Hrm in Hrm'. injection Hrm' as <-.
  rewrite Hmcr in Hmcr'. injection Hmcr' as <-.
  rewrite Hpd in Hpd'. injection Hpd' as <-.
  eexists _, _. split; [done|]. split; [done|].
  cbn [merchantRevenue floorPrice ppaPrice].
  split_and!; [| |done].
  - apply Math_round_le. unfold Spec.merchantRevenue. apply total_le.
    eapply Forall_impl; [exact Hout|]. intros d Hd. cbv beta in Hd.
    unfold Spec.effectivePrice.
    destruct (Math_max_cases (price d) floor) as [[-> _]|[-> Hlt]];
      [apply Qle_refl|].
    apply Qmult_le_compat_r; lra.
  - intros Hfloor. apply Math_round_Qeq. unfold Spec.merchantRevenue.
    apply total_Qeq. eapply Forall_impl; [exact Hfloor|]. intros d Hd.
    cbv beta in Hd. unfold Spec.effectivePrice.
    destruct (Math_max_cases (price d) floor) as [[-> _]|[_ Hlt]];
      [reflexivity|lra].
Qed.

Lemma floor_never_lowers_merchantRevenue_witness :
  ∃ plain floored,
    Compute.calculateKPIs Example.localeCompare (Some Example.flat_series) 40
      (mkOptions None None) = Ok plain
    ∧ Compute.calculateKPIs Example.localeCompare (Some Example.flat_series)
        40 (mkOptions (Some 60) None) = Ok floored
    ∧ (merchantRevenue plain ≤ merchantRevenue floored)%Z
    ∧ (Forall (λ d, 60 <= price d) Example.flat_series →
       merchantRevenue floored = merchantRevenue plain)
    ∧ floored
      = mkKPIs (baseloadAvg plain) (capturePrice plain) (captureRate plain)
          (negativeHoursCount plain) (negativeMWh plain)
          (negativePercentage plain) (totalProduction plain)
          (merchantRevenue floored) (ppaRevenue plain) (riskMetrics plain)
          (monthlyCaptureRates plain) (priceDistribution plain)
          (negativeHeatmap plain) (dataPoints plain).
Proof.
  apply (floor_never_lowers_merchantRevenue Example.localeCompare
           Example.flat_series 40 60 None).
  - done.
  - repeat constructor; by vm_compute.
Defined.

Lemma to_decimals_1_range x :
  0 <= x → x <= 100 →
  0 <= Spec.to_decimals 1 x ∧ Spec.to_decimals 1 x <= 100.
Proof.
  intros H0 H100. unfold Spec.to_decimals.
  change (inject_Z (10 ^ Z.of_nat 1)) with 10.
  assert (0 ≤ Math_round (x * 10) ≤ 1000)%Z as [Hlo Hhi].
  { split.
    - change 0%Z with (Math_round 0). apply Math_round_le. lra.
    - change 1000%Z with (Math_round 1000). apply Math_round_le. lra. }
  rewrite Zle_Qle in Hlo, Hhi.
  change (inject_Z 0) with 0 in Hlo. change (inject_Z 1000) with 1000 in Hhi.
  set (z := inject_Z (Math_round (x * 10))) in *. split.
  - apply Qle_shift_div_l; lra.
  - apply Qle_shift_div_r; lra.
Qed.

(** X7. For a series whose outputs are not negative the negative-price
    exposure of [calculateKPIs] is consistent: the negative hours are at
    most the data points, the energy at negative prices is between 0 and
    the total production, and the percentage is between 0 and 100;
    without any producing hour at a negative price the energy and the
    percentage are 0. *)
Theorem negative_exposure_bounds localeCompare data capacityMW options :
  data ≠ [] →
  Forall (λ d, 0 <= output d) data →
  ∃ kpis,
    Compute.calculateKPIs localeCompare (Some data) capacityMW options
    = Ok kpis
    ∧ (negativeHoursCount kpis ≤ dataPoints kpis)%nat
    ∧ (0 ≤ negativeMWh kpis)%Z
    ∧ (negativeMWh kpis ≤ totalProduction kpis)%Z
    ∧ 0 <= negativePercentage kpis
    ∧ negativePercentage kpis <= 100
    ∧ (negativeHoursCount kpis = 0%nat →
       negativeMWh kpis = 0%Z ∧ negativePercentage kpis == 0).
Proof.
  intros Hne Hout.
  destruct (calculateKPIs_run localeCompare data capacityMW options Hne)
    as (rm & mcr & pd & _ & _ & _ & ->).
  eexists. split; [done|].
  cbn [negativeHoursCount dataPoints negativeMWh totalProduction
       negativePercentage].
  assert (0 <= Spec.negativeMWh data) as Hneg0.
  { unfold Spec.negativeMWh. apply total_nonneg.
    apply Forall_forall. intros d Hd. rewrite Forall_forall in Hout.
    apply Hout. unfold Spec.negativeSet in Hd.
    apply list_elem_of_In, filter_In in Hd as [Hd _].
    by apply list_elem_of_In. }
  assert (Spec.negativeMWh data <= Spec.totalProduction data) as Hneg1.
  { unfold Spec.negativeMWh, Spec.negativeSet, Spec.totalProduction.
    by apply total_filter_le. }
  assert (0 <= Spec.negativePercentage data
          ∧ Spec.negativePercentage data <= 100) as [Hp0 Hp1].
  { unfold Spec.negativePercentage.
    destruct (is_pos (Spec.totalProduction data)) eqn:E; [|lra].
    apply is_pos_true in E. split.
    - apply Qle_shift_div_l; lra.
    - apply Qle_shift_div_r; lra. }
  destruct (to_decimals_1_range _ Hp0 Hp1) as [? ?].
  split_and!; try done.
  - unfold Spec.negativeSet. apply List.filter_length_le.
  - change 0%Z with (Math_round 0). by apply Math_round_le.
  - by apply Math_round_le.
  - intros Hnone. apply length_zero_iff_nil in Hnone.
    assert (Spec.negativeMWh data == 0) as Hz.
    { unfold Spec.negativeMWh. rewrite Hnone. reflexivity. }
    split.
    + by rewrite (Math_round_Qeq _ 0 Hz).
    + assert (Spec.negativePercentage data == 0) as Hz'.
      { unfold Spec.negativePercentage.
        destruct (is_pos (Spec.totalProduction data)); [|reflexivity].
        rewrite Hz. unfold Qdiv. ring. }
      rewrite (to_decimals_Qeq 1 _ 0 Hz'). by vm_compute.
Qed.

Lemma negative_exposure_bounds_witness :
  ∃ kpis,
    Compute.calculateKPIs Example.localeCompare (Some Example.negative_series)
      1 (mkOptions None None) = Ok kpis
    ∧ (negativeHoursCount kpis ≤ dataPoints kpis)%nat
    ∧ (0 ≤ negativeMWh kpis)%Z
    ∧ (negativeMWh kpis ≤ totalProduction kpis)%Z
    ∧ 0 <= negativePercentage kpis
    ∧ negativePercentage kpis <= 100
    ∧ (negativeHoursCount kpis = 0%nat →
       negativeMWh kpis = 0%Z ∧ negativePercentage kpis == 0).
Proof.
  apply (negative_exposure_bounds Example.localeCompare
           Example.negative_series 1 (mkOptions None None)).
  - done.
  - repeat constructor; by vm_compute.
Defined.



(** ** Further properties of the battery simulator *)





Lemma Math_max_0_nonneg x : 0 <= Math_max 0 x ∧ x <= Math_max 0 x.
Proof. destruct (Math_max_cases 0 x) as [[-> ?]|[-> ?]]; split; lra. Qed.

Lemma Math_min_le a b : Math_min a b <= a ∧ Math_min a b <= b.
Proof. destruct (Math_min_cases a b) as [[-> ?]|[-> ?]]; split; lra. Qed.

(** What [simulateBattery] returns is read off the totals of the loop
    over the days. *)
Lemma simulateBattery_inv Math_sqrt batteryConfig data result :
  Compute.simulateBattery Math_sqrt batteryConfig data = Ok result →
  ∃ tot,
    Compute.simulate_days Math_sqrt batteryConfig data = Ok tot
    ∧ totalUplift result = Math_round (Compute.sum_totalUplift tot)
    ∧ totalShiftedMWh result = Math_round (Compute.sum_totalShiftedMWh tot)
    ∧ dailyResults result = Compute.sum_dailyResults tot
    ∧ config result = batteryConfig.
Proof.
  unfold Compute.simulateBattery.
  destruct (Compute.simulate_days _ _ data) as [tot|]; [|done].
  ok_step. rewrite guarded_divide. ok_step.
  destruct (if is_pos (Compute.sum_totalNegativeAvoided tot)
            then _ else _) as [negativeReduction|]; [|done].
  ok_step.
  destruct (if is_pos (foldl (λ s d, s + price d * output d) 0 data)
            then _ else _) as [upliftPercentage|]; [|done].
  ok_step. intros [= <-]. by exists tot.
Qed.

Section BatteryEnergy.
Variable Math_sqrt : Q → Q.
Variable batteryConfig : BatteryConfig.

Local Abbreviation sqrtEfficiency :=
  (Compute.sqrtEfficiency Math_sqrt batteryConfig).
Local Abbreviation charge_step :=
  (Compute.charge_step Math_sqrt batteryConfig).
Local Abbreviation discharge_step :=
  (Compute.discharge_step Math_sqrt batteryConfig).
Local Abbreviation pv := (λ d : AlignedRecord, Math_max 0 (output d)).








End BatteryEnergy.



Section BatteryCapacity.
Variable Math_sqrt : Q → Q.
Variable batteryConfig : BatteryConfig.

Local Abbreviation sqrtEfficiency :=
  (Compute.sqrtEfficiency Math_sqrt batteryConfig).
Local Abbreviation minSOC := (Compute.minSOC batteryConfig).
Local Abbreviation maxSOC := (Compute.maxSOC batteryConfig).
Local Abbreviation charge_step :=
  (Compute.charge_step Math_sqrt batteryConfig).
Local Abbreviation discharge_step :=
  (Compute.discharge_step Math_sqrt batteryConfig).

(** While a day charges, the energy stored above [minSOC] is the energy
    shifted so far times the one-way efficiency. *)
Local Abbreviation stored :=
  (λ st, minSOC <= Compute.soc st ∧ Compute.soc st <= maxSOC
         ∧ 0 <= Compute.dayShifted st
         ∧ Compute.soc st - minSOC
           == Compute.dayShifted st * sqrtEfficiency).

Hypothesis sqrt_unit : 0 < sqrtEfficiency ∧ sqrtEfficiency <= 1.
Hypothesis power_pos : 0 < powerMW batteryConfig.
Hypothesis energy_pos : 0 < energyMWh batteryConfig.




Local Abbreviation within :=
  (λ r : DailyResult,
     0 <= shifted r
     ∧ shifted r * sqrtEfficiency <= (9 # 10) * energyMWh batteryConfig).


End BatteryCapacity.



Section BatteryDays.
Variable Math_sqrt : Q → Q.
Variable batteryConfig : BatteryConfig.

Lemma day_step_result tot0 dayData tot :
  Compute.day_step Math_sqrt batteryConfig tot0 dayData = Ok tot →
  ∃ first r,
    head dayData = Some first
    ∧ dr_date r = date first.2
    ∧ Compute.sum_dailyResults tot = Compute.sum_dailyResults tot0 ++ [r]
    ∧ Compute.sum_totalUplift tot = Compute.sum_totalUplift tot0 + uplift r
    ∧ Compute.sum_totalShiftedMWh tot
      = Compute.sum_totalShiftedMWh tot0 + shifted r.
Proof.
  unfold Compute.day_step.
  destruct (Compute.simulate_day _ _ dayData) as [st|]; [|done].
  ok_step. destruct dayData as [|first dayData']; [done|].
  intros [= <-]. eexists first, _.
  cbn [Compute.sum_dailyResults Compute.sum_totalUplift
       Compute.sum_totalShiftedMWh].
  split_and!; [done| |done| |]; reflexivity.
Qed.

Lemma days_results days tot0 tot :
  foldM (Compute.day_step Math_sqrt batteryConfig) tot0 days = Ok tot →
  ∃ results,
    Compute.sum_dailyResults tot = Compute.sum_dailyResults tot0 ++ results
    ∧ Forall2 (λ dayData r,
                 ∃ first, head dayData = Some first
                          ∧ dr_date r = date first.2) days results
    ∧ Compute.sum_totalUplift tot
      == Compute.sum_totalUplift tot0 + foldr Qplus 0 (map uplift results)
    ∧ Compute.sum_totalShiftedMWh tot
      == Compute.sum_totalShiftedMWh tot0
         + foldr Qplus 0 (map shifted results).
Proof.
  revert tot0. induction days as [|dayData days IH]; intros tot0; simpl.
  - intros [= <-]. exists []. rewrite app_nil_r.
    split_and!; [done|constructor|simpl; lra..].
  - destruct (Compute.day_step _ _ tot0 dayData) as [tot1|] eqn:Hday; [|done].
    ok_step. intros Hrun.
    apply day_step_result in Hday
      as (first & r & Hhead & Hdate & Hres & Hup & Hsh).
    destruct (IH _ Hrun) as (results & Hres' & HF2 & Hup' & Hsh').
    exists (r :: results). split_and!.
    + by rewrite Hres', Hres, <- app_assoc.
    + constructor; [by exists first|done].
    + rewrite Hup', Hup. simpl. lra.
    + rewrite Hsh', Hsh. simpl. lra.
Qed.
End BatteryDays.

(** X11. [simulateBattery] reports one daily result per calendar day of
    the series, in the order of the days and dated by the day's first
    record, and its totals are the rounded sums of the daily uplifts and
    of the daily shifted energies. *)
Theorem dailyResults_cover_the_days Math_sqrt batteryConfig data result :
  Compute.simulateBattery Math_sqrt batteryConfig data = Ok result →
  Forall2 (λ dayData r,
             ∃ first, head dayData = Some first ∧ dr_date r = date first.2)
    (Compute.groupByDay (imap (λ i d, (i, d)) data)) (dailyResults result)
  ∧ totalUplift result
    = Math_round (Compute.sum (map uplift (dailyResults result)))
  ∧ totalShiftedMWh result
    = Math_round (Compute.sum (map shifted (dailyResults result))).
Proof.
  intros Hrun.
  apply simulateBattery_inv in Hrun as (tot & Hdays & -> & -> & -> & _).
  apply days_results in Hdays as (results & Hres & HF2 & Hup & Hsh).
  simpl in Hres, Hup, Hsh. subst results. split_and!; [done| |].
  - apply Math_round_Qeq. rewrite sum_foldr, Hup. lra.
  - apply Math_round_Qeq. rewrite sum_foldr, Hsh. lra.
Qed.

Lemma dailyResults_cover_the_days_witness :
  ∃ result,
    Compute.simulateBattery Example.Math_sqrt Example.battery
      Example.battery_day = Ok result
    ∧ Forall2 (λ dayData r,
                 ∃ first, head dayData = Some first
                          ∧ dr_date r = date first.2)
        (Compute.groupByDay (imap (λ i d, (i, d)) Example.battery_day))
        (dailyResults result)
    ∧ totalUplift result
      = Math_round (Compute.sum (map uplift (dailyResults result)))
    ∧ totalShiftedMWh result
      = Math_round (Compute.sum (map shifted (dailyResults result))).
Proof.
  eexists. split; [by vm_compute|].
  apply (dailyResults_cover_the_days Example.Math_sqrt Example.battery
           Example.battery_day).
  by vm_compute.
Defined.

Section BatteryIdle.
Variable Math_sqrt : Q → Q.
Variable batteryConfig : BatteryConfig.

Lemma filter_none {A} (f : A → bool) l :
  Forall (λ x, f x = false) l → List.filter f l = [].
Proof. induction 1 as [|x l Hx _ IH]; [done|]. simpl. by rewrite Hx. Qed.

Lemma Array_slice0_nil {A} n : Array_slice0 (@nil A) n = [].
Proof. unfold Array_slice0. destruct (n <? 0)%Z; by rewrite take_nil. Qed.

(** An empty battery is not discharged. *)
Lemma discharge_loop_empty hours st :
  Compute.soc st <= Compute.minSOC batteryConfig →
  foldl (Compute.discharge_step Math_sqrt batteryConfig) st hours = st.
Proof.
  intros Hsoc. induction hours as [|hour hours IH]; [done|].
  simpl. unfold Compute.discharge_step at 2.
  set (actualDischarge := Math_min _ _).
  destruct (is_pos actualDischarge) eqn:E; [|done].
  apply is_pos_true in E. unfold actualDischarge in E.
  pose proof (Math_min_le (powerMW batteryConfig)
                (Compute.soc st - Compute.minSOC batteryConfig)) as [_ ?].
  lra.
Qed.

Lemma simulate_day_dark dayData :
  ¬ powerMW batteryConfig == 0 →
  Forall (λ hour : Obj, output hour.2 <= 0) dayData →
  Compute.simulate_day Math_sqrt batteryConfig dayData
  = Ok (Compute.day_start batteryConfig).
Proof.
  intros Hp Hdark.
  unfold Compute.simulate_day, Compute.chargeHours_of,
    Compute.dischargeHours_of.
  assert (∃ n, Compute.sliceEnd batteryConfig = Ok n) as [n ->].
  { unfold Compute.sliceEnd. destruct (default true _); [|eauto].
    rewrite divide_Ok by done. ok_step. eauto. }
  do 4 ok_step.
  rewrite (filter_none (λ d : Obj, is_pos (output d.2))).
  2: { apply Forall_forall. intros hour Hin.
       unfold Compute.sortedHours_of in Hin.
       rewrite Array_sort_Permutation in Hin.
       rewrite Forall_forall in Hdark. by apply is_pos_false, Hdark. }
  rewrite Array_slice0_nil. simpl foldM. ok_step.
  rewrite discharge_loop_empty; [done|]. simpl. lra.
Qed.

Lemma days_dark days tot0 :
  ¬ powerMW batteryConfig == 0 →
  Forall (λ dayData,
            dayData ≠ []
            ∧ Forall (λ hour : Obj, output hour.2 <= 0) dayData) days →
  let idle tot :=
    Compute.sum_totalUplift tot == 0
    ∧ Compute.sum_totalShiftedMWh tot == 0
    ∧ Compute.sum_totalNegativeAvoided tot == 0
    ∧ Forall (λ r, uplift r == 0 ∧ shifted r == 0)
        (Compute.sum_dailyResults tot) in
  idle tot0 →
  ∃ tot,
    foldM (Compute.day_step Math_sqrt batteryConfig) tot0 days = Ok tot
    ∧ idle tot.
Proof.
  intros Hp Hdays idle. revert tot0.
  induction Hdays as [|dayData days [Hne Hdark] _ IH]; intros tot0 Hidle.
  - by exists tot0.
  - cbn [foldM].
    assert (∃ tot1, Compute.day_step Math_sqrt batteryConfig tot0 dayData
                    = Ok tot1 ∧ idle tot1) as (tot1 & -> & Hidle1).
    { unfold Compute.day_step. rewrite simulate_day_dark by done. ok_step.
      destruct dayData as [|first dayData']; [done|].
      eexists. split; [done|].
      destruct Hidle as (Hu & Hs & Hn & Hall). unfold idle.
      cbn [Compute.sum_totalUplift Compute.sum_totalShiftedMWh
           Compute.sum_totalNegativeAvoided Compute.sum_dailyResults
           Compute.day_start Compute.dayUplift Compute.dayShifted
           Compute.dayNegAvoided].
      split_and!; [lra..|].
      apply Forall_app. split; [done|].
      repeat constructor; reflexivity. }
    ok_step. by apply IH.
Qed.
End BatteryIdle.

(** X12. On a series without a producing hour (no output above 0) the
    battery stays idle: [simulateBattery] returns, with no uplift, no
    shifted energy and no reduction of the negative exposure, on every
    day and in total. *)
Theorem battery_without_production Math_sqrt batteryConfig data :
  ¬ powerMW batteryConfig == 0 →
  Forall (λ d, output d <= 0) data →
  ∃ result,
    Compute.simulateBattery Math_sqrt batteryConfig data = Ok result
    ∧ totalUplift result = 0%Z
    ∧ totalShiftedMWh result = 0%Z
    ∧ effectiveCapturePrice result == 0
    ∧ negativeReduction result == 0
    ∧ upliftPercentage result == 0
    ∧ Forall (λ r, uplift r == 0 ∧ shifted r == 0) (dailyResults result).
Proof.
  intros Hp Hdark.
  destruct (days_dark Math_sqrt batteryConfig
              (Compute.groupByDay (imap (λ i d, (i, d)) data))
              (Compute.mkTotals 0 0 0 0 []) Hp)
    as (tot & Hrun & Hu & Hs & Hn & Hall).
  { eapply Forall_impl; [apply groupByDay_groups|].
    intros dayData [Hne Hin]. split; [done|].
    eapply Forall_impl; [exact Hin|]. intros hour Hhour. cbv beta in Hhour.
    apply elem_of_objects in Hhour. rewrite Forall_forall in Hdark.
    by apply Hdark. }
  { simpl. split_and!; [reflexivity..|constructor]. }
  unfold Compute.simulateBattery, Compute.simulate_days. rewrite Hrun.
  ok_step. rewrite guarded_divide. ok_step.
  assert (is_pos (Compute.sum_totalNegativeAvoided tot) = false) as ->
    by (apply is_pos_false; lra).
  ok_step.
  assert (is_pos (foldl (λ s d, s + output d) 0 data) = false) as ->.
  { apply is_pos_false. rewrite production_exact.
    assert (Spec.total output data <= Spec.total (λ _, 0) data) as Hle
      by (by apply total_le).
    assert (Spec.total (λ _, 0) data == 0 * count_to_Q (length data)) as Hz.
    { apply total_constant. apply Forall_forall. intros; reflexivity. }
    unfold Spec.totalProduction. lra. }
  set (originalRevenue := foldl (λ s d, s + price d * output d) 0 data).
  assert (∃ pct, (if is_pos originalRevenue
                  then divide (Compute.sum_totalUplift tot) originalRevenue
                       ≫= λ q, Ok (inject_Z (Math_round (q * 1000)) / 10)
                  else Ok 0) = Ok pct ∧ pct == 0) as (pct & -> & Hpct).
  { destruct (is_pos originalRevenue) eqn:E.
    - apply is_pos_true in E. rewrite divide_pos by done. ok_step.
      eexists. split; [done|].
      rewrite (Math_round_Qeq _ 0); [by vm_compute|].
      rewrite Hu. field. lra.
    - eexists. split; [done|]. reflexivity. }
  ok_step. eexists. split; [done|].
  cbn [totalUplift totalShiftedMWh effectiveCapturePrice negativeReduction
       upliftPercentage dailyResults].
  split_and!; try done.
  - by rewrite (Math_round_Qeq _ 0 Hu).
  - by rewrite (Math_round_Qeq _ 0 Hs).
Qed.

Lemma battery_without_production_witness :
  ∃ result,
    Compute.simulateBattery Example.Math_sqrt Example.battery
      Example.dark_series = Ok result
    ∧ totalUplift result = 0%Z
    ∧ totalShiftedMWh result = 0%Z
    ∧ effectiveCapturePrice result == 0
    ∧ negativeReduction result == 0
    ∧ upliftPercentage result == 0
    ∧ Forall (λ r, uplift r == 0 ∧ shifted r == 0) (dailyResults result).
Proof.
  apply (battery_without_production Example.Math_sqrt Example.battery
           Example.dark_series).
  - by vm_compute.
  - repeat constructor; by vm_compute.
Defined.

(** ** Further properties of the representative weeks *)

Lemma count_to_Q_le a b : count_to_Q a <= count_to_Q b ↔ (a ≤ b)%nat.
Proof. unfold count_to_Q. rewrite <- Zle_Qle. lia. Qed.

Lemma by_negative_le (a b : WeekMetric) :
  cmp_le (λ a b, count_to_Q (negativeHours b) - count_to_Q (negativeHours a))
    a b
  ↔ (negativeHours b ≤ negativeHours a)%nat.
Proof.
  unfold cmp_le. rewrite <- count_to_Q_le. split; intros; lra.
Qed.

Lemma groupByWeek_nil data :
  Compute.groupByWeek data = [] ↔ (length data < 120)%nat.
Proof.
  destruct (groupByWeek_partition data)
    as (full & last & Hdata & Hfull & Hlast & ->).
  apply (f_equal length) in Hdata. rewrite length_app in Hdata.
  destruct full as [|w full].
  - simpl in Hdata. destruct (Nat.leb_spec 120 (length last)).
    + split; [done|lia].
    + split; [lia|done].
  - apply Forall_cons in Hfull as [Hw _].
    simpl in Hdata. rewrite length_app in Hdata.
    split; [by destruct (120 <=? length last)%nat|lia].
Qed.

Lemma weekMetric_negativeHours Math_sqrt week m :
  Compute.weekMetric Math_sqrt week = Ok m →
  wm_data m = week ∧ negativeHours m = length (Spec.negativeSet week).
Proof.
  unfold Compute.weekMetric.
  destruct (Compute.calculateStdDev _ _) as [v|]; [|done]. ok_step.
  destruct (Compute.calculateWeekCaptureRate _) as [c|]; [|done]. ok_step.
  destruct week as [|first week]; [done|]. by intros [= <-].
Qed.

(** X13. [findRepresentativeWeeks] returns for every series.  With fewer
    than 120 records there is no window and the three picks are
    undefined; with at least 120 records all three are metrics of
    windows, the volatile pick has the greatest price volatility and the
    negative pick the most producing hours at a negative price among all
    windows. *)
Theorem representative_picks_are_extremes Math_sqrt data :
  ∃ metrics picks,
    mapM (Compute.weekMetric Math_sqrt) (Compute.groupByWeek data)
    = Ok metrics
    ∧ Forall2 (λ week m,
                 wm_data m = week
                 ∧ negativeHours m = length (Spec.negativeSet week))
        (Compute.groupByWeek data) metrics
    ∧ Compute.findRepresentativeWeeks Math_sqrt data = Ok picks
    ∧ ((length data < 120)%nat →
       typical picks = None ∧ volatile picks = None ∧ negative picks = None)
    ∧ ((120 ≤ length data)%nat →
       ∃ t v n,
         typical picks = Some t ∧ volatile picks = Some v
         ∧ negative picks = Some n
         ∧ t ∈ metrics ∧ v ∈ metrics ∧ n ∈ metrics
         ∧ Forall (λ m, volatility m <= volatility v) metrics
         ∧ Forall (λ m, (negativeHours m ≤ negativeHours n)%nat) metrics).
Proof.
  destruct (groupByWeek_windows data) as [Hwin _].
  pose proof (groupByWeek_nil data) as Hnil.
  unfold Compute.findRepresentativeWeeks.
  set (weeks := Compute.groupByWeek data) in *.
  destruct (mapM_Ok (Compute.weekMetric Math_sqrt) weeks) as (ms & Hms & HF2).
  { eapply Forall_impl; [exact Hwin|]. intros w Hw.
    destruct (weekMetric_returns Math_sqrt w) as (m & Hm & _);
      [destruct w; simpl in *; [lia|done]|eauto]. }
  exists ms. rewrite Hms. ok_step. eexists. split; [done|].
  split.
  { eapply Forall2_impl; [exact HF2|]. intros w m Hm.
    by apply weekMetric_negativeHours in Hm. }
  split; [done|]. cbn [typical volatile negative].
  set (sortedByVolatility :=
         Array_sort (λ a b, volatility a - volatility b) ms).
  set (sortedByNegative :=
         Array_sort (λ a b, count_to_Q (negativeHours b)
                            - count_to_Q (negativeHours a)) ms).
  assert (length sortedByVolatility = length ms) as HlenV
    by apply Array_sort_length.
  assert (length sortedByNegative = length ms) as HlenN
    by apply Array_sort_length.
  assert (length ms = length weeks) as Hlen
    by (symmetry; by eapply Forall2_length).
  split.
  - intros Hshort. apply Hnil in Hshort. rewrite Hshort in Hlen.
    apply length_zero_iff_nil in Hlen. subst ms. by vm_compute.
  - intros Hlong.
    assert (0 < length ms)%nat as Hn.
    { rewrite Hlen. destruct weeks; [|simpl; lia].
      assert (length data < 120)%nat by (by apply Hnil). lia. }
    rewrite floor_half, HlenV.
    destruct (lookup_lt_is_Some_2 sortedByVolatility (length ms / 2))
      as [t Ht].
    { rewrite HlenV. apply Nat.div_lt; lia. }
    destruct (lookup_lt_is_Some_2 sortedByVolatility (length ms - 1))
      as [v Hv]; [lia|].
    destruct (lookup_lt_is_Some_2 sortedByNegative 0) as [n Hng]; [lia|].
    rewrite (Array_get_Some _ _ _ Ht).
    replace (Z.of_nat (length ms) - 1)%Z with (Z.of_nat (length ms - 1))
      by lia.
    rewrite (Array_get_Some _ _ _ Hv).
    change (Array_get sortedByNegative 0)
      with (Array_get sortedByNegative (Z.of_nat 0)).
    rewrite (Array_get_Some sortedByNegative 0 n Hng).
    assert (∀ m, m ∈ sortedByVolatility ↔ m ∈ ms) as HinV.
    { intros m. unfold sortedByVolatility.
      by rewrite Array_sort_Permutation. }
    assert (∀ m, m ∈ sortedByNegative ↔ m ∈ ms) as HinN.
    { intros m. unfold sortedByNegative. by rewrite Array_sort_Permutation. }
    exists t, v, n. split_and!; try done.
    + by eapply HinV, list_elem_of_lookup_2.
    + by eapply HinV, list_elem_of_lookup_2.
    + by eapply HinN, list_elem_of_lookup_2.
    + apply Forall_forall. intros m Hm. apply HinV in Hm.
      apply list_elem_of_lookup in Hm as [i Hi].
      pose proof (lookup_lt_Some _ _ _ Hi) as Hlt.
      destruct (decide (i = length ms - 1)%nat) as [->|Hne].
      * rewrite Hi in Hv. injection Hv as ->. lra.
      * apply by_volatility_le.
        eapply (StronglySorted_lookup _ sortedByVolatility i
                  (length ms - 1)); [|lia|done|done].
        apply Array_sort_sorted.
        -- intros a b. rewrite !by_volatility_le. lra.
        -- intros a b c. rewrite !by_volatility_le. lra.
    + apply Forall_forall. intros m Hm. apply HinN in Hm.
      apply list_elem_of_lookup in Hm as [i Hi].
      destruct (decide (i = 0)%nat) as [->|Hne].
      * rewrite Hi in Hng. by injection Hng as ->.
      * apply by_negative_le.
        eapply (StronglySorted_lookup _ sortedByNegative 0 i);
          [|lia|done|done].
        apply Array_sort_sorted.
        -- intros a b. rewrite !by_negative_le. lia.
        -- intros a b c. rewrite !by_negative_le. lia.
Qed.

(** ** Monthly capture rates *)

Local Abbreviation monthAcc_upd :=
  (λ (d : AlignedRecord) (month : Compute.MonthAcc),
     Compute.mkMonthAcc (Compute.priceSum month + price d)
       (Compute.weightedPriceSum month + price d * output d)
       (Compute.outputSum month + output d)
       (S (Compute.count month))).

Lemma monthAcc_fold records acc :
  let acc' := foldl (λ v d, monthAcc_upd d v) acc records in
  Compute.priceSum acc' == Compute.priceSum acc + Spec.total price records
  ∧ Compute.weightedPriceSum acc'
    == Compute.weightedPriceSum acc + Spec.spotRevenue records
  ∧ Compute.outputSum acc'
    == Compute.outputSum acc + Spec.totalProduction records
  ∧ Compute.count acc' = (Compute.count acc + length records)%nat.
Proof.
  cbv zeta. revert acc. induction records as [|d records IH]; intros acc.
  - unfold Spec.spotRevenue, Spec.totalProduction, Spec.total. simpl.
    split_and!; [lra..|lia].
  - cbn [foldl]. destruct (IH (monthAcc_upd d acc)) as (-> & -> & -> & ->).
    unfold Spec.spotRevenue, Spec.totalProduction, Spec.total. simpl.
    split_and!; [lra..|lia].
Qed.

(** The entry of a month is what the overall formulas give on the
    records of that month alone. *)
Lemma monthRate_spec month records :
  records ≠ [] →
  Compute.monthRate
    (month, foldl (λ v d, monthAcc_upd d v) (Compute.mkMonthAcc 0 0 0 0)
              records)
  = Ok (mkMonthlyCaptureRate month
          (Spec.to_decimals 2 (Spec.baseloadAvg records))
          (Spec.to_decimals 2 (Spec.capturePrice records))
          (Spec.to_decimals 1 (Spec.captureRate records))).
Proof.
  intros Hne.
  destruct (monthAcc_fold records (Compute.mkMonthAcc 0 0 0 0))
    as (Hp & Hw & Ho & Hc).
  cbv zeta in Hp, Hw, Ho, Hc.
  set (acc := foldl _ _ records) in *. simpl in Hp, Hw, Ho, Hc.
  unfold Compute.monthRate.
  assert (0 < count_to_Q (Compute.count acc)) as Hn.
  { apply count_to_Q_pos. rewrite Hc. destruct records; [done|simpl; lia]. }
  rewrite (divide_pos (Compute.priceSum acc) _ Hn). ok_step.
  rewrite guarded_divide. ok_step. rewrite guarded_divide_100. ok_step.
  assert (Compute.priceSum acc / count_to_Q (Compute.count acc)
          == Spec.baseloadAvg records) as Hb.
  { unfold Spec.baseloadAvg. rewrite Hp, Hc. field.
    rewrite Hc in Hn. lra. }
  assert ((if is_pos (Compute.outputSum acc)
           then Compute.weightedPriceSum acc / Compute.outputSum acc
           else 0) == Spec.capturePrice records) as Hcp.
  { unfold Spec.capturePrice.
    apply (guarded_Qeq _ _ _ _ Qdiv Qdiv); [lra|lra|].
    intros Hpos. rewrite Ho in Hpos. rewrite Hw, Ho.
    apply Qeq_trans with
      (Spec.spotRevenue records * / Spec.totalProduction records);
      [|reflexivity].
    unfold Qdiv. apply Qmult_comp; [lra|].
    apply Qinv_comp. lra. }
  f_equal. f_equal.
  - by apply to_decimals_2.
  - by apply to_decimals_2.
  - apply to_decimals_1. unfold Spec.captureRate.
    apply (guarded_Qeq _ _ _ _ (λ c b, c / b * 100) (λ c b, 100 * c / b));
      [done|done|].
    intros Hpos. rewrite Hcp, Hb. field. rewrite <- Hb. lra.
Qed.

Lemma Forall2_with_Forall {A B} (P : A → Prop) (Q : A → B → Prop) l k :
  Forall P l → Forall2 Q l k → Forall2 (λ x y, P x ∧ Q x y) l k.
Proof.
  intros HP HQ. induction HQ as [|x y l k Hxy _ IH]; [constructor|].
  apply Forall_cons in HP as [Hx HP]. constructor; [done|by apply IH].
Qed.

(** X14. [calculateMonthlyCaptureRates] returns one entry per calendar
    month of the series, and the entry of a month holds the baseload
    average, the capture price and the capture rate that [calculateKPIs]
    computes on the records of that month alone. *)
Theorem monthlyCaptureRates_by_month localeCompare data capacityMW options :
  ∃ rates,
    Compute.calculateMonthlyCaptureRates localeCompare data = Ok rates
    ∧ NoDup (map mc_month rates)
    ∧ (∀ d, d ∈ data → Compute.monthKey (date d) ∈ map mc_month rates)
    ∧ Forall (λ r,
        let records :=
          filter (λ d, Compute.monthKey (date d) = mc_month r) data in
        ∃ kpis,
          Compute.calculateKPIs localeCompare (Some records) capacityMW
            options = Ok kpis
          ∧ baseload r = baseloadAvg kpis
          ∧ capture r = capturePrice kpis
          ∧ rate r = captureRate kpis) rates.
Proof.
  pose (key := λ d : AlignedRecord, Compute.monthKey (date d)).
  pose (monthlyMap :=
          foldl (λ m d, Map_upsert (key d) (Compute.mkMonthAcc 0 0 0 0)
                          (monthAcc_upd d) m) [] data).
  destruct (upsert_loop_entries key (Compute.mkMonthAcc 0 0 0 0)
              monthAcc_upd data) as (Hnd & Hkeys & Hent).
  fold monthlyMap in Hnd, Hkeys, Hent.
  assert (Forall (λ e, Compute.monthRate e
                       = Ok (mkMonthlyCaptureRate e.1
                               (Spec.to_decimals 2
                                  (Spec.baseloadAvg
                                     (filter (λ d, key d = e.1) data)))
                               (Spec.to_decimals 2
                                  (Spec.capturePrice
                                     (filter (λ d, key d = e.1) data)))
                               (Spec.to_decimals 1
                                  (Spec.captureRate
                                     (filter (λ d, key d = e.1) data)))))
            monthlyMap) as Hrates.
  { eapply Forall_impl; [exact Hent|]. intros [k acc] [Hne Hacc].
    cbn [fst snd] in *. rewrite Hacc. by apply monthRate_spec. }
  destruct (mapM_Ok Compute.monthRate monthlyMap) as (rates0 & Hrun & HF2).
  { eapply Forall_impl; [exact Hrates|]. intros e He.
    eexists. exact He. }
  exists (Array_sort (λ a b, localeCompare (mc_month a) (mc_month b)) rates0).
  assert (Compute.calculateMonthlyCaptureRates localeCompare data
          = Ok (Array_sort (λ a b, localeCompare (mc_month a) (mc_month b))
                  rates0)) as Hcall.
  { change (Compute.calculateMonthlyCaptureRates localeCompare data)
      with (rates ← mapM Compute.monthRate monthlyMap;
            Ok (Array_sort (λ a b, localeCompare (mc_month a) (mc_month b))
                  rates)).
    rewrite Hrun. by ok_step. }
  pose proof (Forall2_with_Forall _ _ _ _ Hrates HF2) as Hboth.
  assert (map mc_month rates0 = map fst monthlyMap) as Hmonths.
  { symmetry. apply list_eq_Forall2, Forall2_fmap.
    eapply Forall2_impl; [exact Hboth|]. intros e r [He Hr].
    cbv beta in He. rewrite He in Hr. by injection Hr as <-. }
  set (cmp := λ a b, localeCompare (mc_month a) (mc_month b)) in *.
  pose proof (Array_sort_Permutation cmp rates0) as Hperm.
  split_and!.
  - done.
  - by rewrite Hperm, Hmonths.
  - intros d Hd. rewrite Hperm, Hmonths. by apply Hkeys.
  - apply Forall_forall. intros r Hr. rewrite Hperm in Hr.
    apply list_elem_of_lookup in Hr as [i Hi].
    destruct (Forall2_lookup_r _ _ _ _ _ Hboth Hi) as (e & He & Hspec & Hrun').
    cbv beta in Hspec. rewrite Hspec in Hrun'. injection Hrun' as <-.
    cbn [mc_month baseload capture rate].
    rewrite Forall_forall in Hent.
    destruct (Hent e (list_elem_of_lookup_2 _ _ _ He)) as [Hne _].
    destruct (calculateKPIs_run localeCompare
                (filter (λ d, key d = e.1) data) capacityMW options Hne)
      as (rm & mcr & pd & _ & _ & _ & Hkpis).
    eexists. split; [exact Hkpis|]. done.
Qed.

(** * Further properties of the data sources *)

(** ** The values of the aligned records *)

(** A lookup map filled by [forEach(p => map.set(key(p), val(p)))] holds,
    for a key, the value of the last element with that key. *)
Lemma set_loop_lookup {A} (key : A → Z) (val : A → Q) (l : list A)
    (m : gmap Z Q) ts :
  foldl (λ m p, <[key p := val p]> m) m l !! ts
  = match last (filter (λ p, key p = ts) l) with
    | Some p => Some (val p)
    | None => m !! ts
    end.
Proof.
  revert m. induction l as [|x l IH]; intros m; [done|].
  cbn [foldl]. rewrite IH. destruct (decide (key x = ts)) as [E|E].
  - rewrite filter_cons_True by done. rewrite list.last_cons.
    destruct (last (filter (λ p, key p = ts) l)); [done|].
    by rewrite E, lookup_insert_eq.
  - rewrite filter_cons_False by done.
    destruct (last (filter (λ p, key p = ts) l)); [done|].
    by rewrite lookup_insert_ne.
Qed.

Section AlignerValues.
Variable newDate : Z → JSDate.

Local Abbreviation record_at :=
  (λ (priceMap pvMap : gmap Z Q) (ts : Z),
     match priceMap !! ts, pvMap !! ts with
     | Some p, Some o => Some (mkAligned ts p o (newDate (ts * 1000)))
     | _, _ => None
     end).

Lemma align_loop_records (priceMap pvMap : gmap Z Q) tss acc :
  foldl (DataSources.align_step newDate priceMap pvMap) acc tss
  = acc ++ omap (record_at priceMap pvMap) tss.
Proof.
  revert acc. induction tss as [|ts tss IH]; intros acc; simpl.
  - by rewrite app_nil_r.
  - rewrite IH. unfold DataSources.align_step.
    destruct (priceMap !! ts), (pvMap !! ts); simpl; try done.
    by rewrite <- app_assoc.
Qed.

Lemma alignData_records prices pvProfile r :
  r ∈ DataSources.alignData newDate prices pvProfile
  ↔ ∃ p o,
      DataSources.priceMap_of prices !! timestamp r = Some p
      ∧ DataSources.pvMap_of pvProfile !! timestamp r = Some o
      ∧ r = mkAligned (timestamp r) p o (newDate (timestamp r * 1000)).
Proof.
  unfold DataSources.alignData. rewrite Array_sort_Permutation.
  rewrite align_loop_records, app_nil_l, list_elem_of_omap. split.
  - intros (ts & _ & Hrec).
    destruct (DataSources.priceMap_of prices !! ts) as [p|] eqn:Hp; [|done].
    destruct (DataSources.pvMap_of pvProfile !! ts) as [o|] eqn:Ho; [|done].
    injection Hrec as <-. simpl. by exists p, o.
  - intros (p & o & Hp & Ho & Hr). exists (timestamp r). split.
    + unfold DataSources.allTimestamps_of.
      rewrite elem_of_Set_from, elem_of_app. left.
      apply (proj1 (priceMap_of_lookup newDate prices (timestamp r))).
      by exists p.
    + by rewrite Hp, Ho, <- Hr.
Qed.

Lemma alignData_strictly_sorted prices pvProfile :
  StronglySorted (λ a b, (timestamp a < timestamp b)%Z)
    (DataSources.alignData newDate prices pvProfile).
Proof.
  pose proof (alignData_timestamps newDate prices pvProfile) as Hperm.
  assert (NoDup (map timestamp
                   (DataSources.alignData newDate prices pvProfile))) as Hnd.
  { rewrite Hperm. apply NoDup_filter, NoDup_Set_from. }
  pose proof (alignData_sorted newDate prices pvProfile) as Hs.
  clear Hperm.
  induction Hs as [|a l Hl IH Ha]; simpl in *; [constructor|].
  apply NoDup_cons in Hnd as [Hna Hnd].
  constructor; [by apply IH|].
  apply Forall_forall. intros b Hb.
  rewrite Forall_forall in Ha. specialize (Ha b Hb). cbv beta in Ha.
  assert (timestamp a ≠ timestamp b); [|lia].
  intros Heq. apply Hna. rewrite Heq. by apply list_elem_of_fmap_2.
Qed.

(** X15. Every record of [alignData] carries, for its timestamp, the
    price and the output of the last input point with that timestamp
    (a repeated timestamp is overwritten), and the date of
    [timestamp * 1000] milliseconds; and every timestamp that has a
    price point and an output point gets such a record. *)
Theorem alignData_values prices pvProfile r :
  r ∈ DataSources.alignData newDate prices pvProfile
  ↔ ∃ pricePoint outputPoint,
      last (filter (λ p, p_timestamp p = timestamp r) prices)
      = Some pricePoint
      ∧ last (filter (λ p, v_timestamp p = timestamp r) pvProfile)
        = Some outputPoint
      ∧ r = mkAligned (timestamp r) (p_price pricePoint)
              (v_output outputPoint) (newDate (timestamp r * 1000)).
Proof.
  rewrite alignData_records.
  unfold DataSources.priceMap_of, DataSources.pvMap_of.
  rewrite (set_loop_lookup p_timestamp p_price).
  rewrite (set_loop_lookup v_timestamp v_output).
  rewrite !lookup_empty. split.
  - intros (p & o & Hp & Ho & Hr).
    destruct (last (filter _ prices)) as [pp|]; [|done].
    destruct (last (filter _ pvProfile)) as [op|]; [|done].
    injection Hp as <-. injection Ho as <-. by exists pp, op.
  - intros (pp & op & -> & -> & Hr). by exists (p_price pp), (v_output op).
Qed.
End AlignerValues.

(** ** The order of the input points *)

Lemma filter_no_match {A} (P : A → Prop) `{∀ x, Decision (P x)} (l : list A) :
  (∀ x, x ∈ l → ¬ P x) → filter P l = [].
Proof.
  intros Hno. destruct (filter P l) as [|y k] eqn:E; [done|].
  assert (y ∈ filter P l) as Hy by (rewrite E; left).
  apply list_elem_of_filter in Hy as [? ?]. by destruct (Hno y).
Qed.

Lemma NoDup_key_filter {A} (key : A → Z) (l : list A) x :
  NoDup (map key l) → x ∈ l → filter (λ y, key y = key x) l = [x].
Proof.
  induction l as [|y l IH]; intros Hnd Hin; [by apply elem_of_nil in Hin|].
  simpl in Hnd. apply NoDup_cons in Hnd as [Hy Hnd].
  apply elem_of_cons in Hin as [->|Hin].
  - rewrite filter_cons_True by done. f_equal.
    apply filter_no_match. intros z Hz Hkey. apply Hy.
    rewrite <- Hkey. by apply list_elem_of_fmap_2.
  - rewrite filter_cons_False; [by apply IH|].
    intros Hkey. apply Hy. rewrite Hkey. by apply list_elem_of_fmap_2.
Qed.

Lemma set_loop_Permutation {A} (key : A → Z) (val : A → Q) (l l' : list A) :
  NoDup (map key l) → l ≡ₚ l' →
  foldl (λ m p, <[key p := val p]> m) (∅ : gmap Z Q) l
  = foldl (λ m p, <[key p := val p]> m) ∅ l'.
Proof.
  intros Hnd Hperm.
  assert (NoDup (map key l')) as Hnd' by (by rewrite <- Hperm).
  apply map_eq. intros ts. rewrite !set_loop_lookup.
  destruct (decide (ts ∈ map key l)) as [Hin|Hout].
  - apply list_elem_of_fmap in Hin as (x & -> & Hx).
    rewrite (NoDup_key_filter key l x Hnd Hx).
    rewrite (NoDup_key_filter key l' x Hnd') by (by rewrite <- Hperm).
    done.
  - rewrite !filter_no_match; [done| |].
    + intros x Hx <-. apply Hout. rewrite Hperm.
      by apply list_elem_of_fmap_2.
    + intros x Hx <-. apply Hout. by apply list_elem_of_fmap_2.
Qed.

(** X16. When no timestamp is repeated within an input, [alignData] does
    not depend on the order of the points in the two inputs. *)
Theorem alignData_order_insensitive newDate prices prices' pvProfile pvProfile' :
  NoDup (map p_timestamp prices) →
  NoDup (map v_timestamp pvProfile) →
  prices ≡ₚ prices' →
  pvProfile ≡ₚ pvProfile' →
  DataSources.alignData newDate prices pvProfile
  = DataSources.alignData newDate prices' pvProfile'.
Proof.
  intros Hnd1 Hnd2 Hp Hv.
  pose proof (set_loop_Permutation p_timestamp p_price _ _ Hnd1 Hp) as Hpm.
  pose proof (set_loop_Permutation v_timestamp v_output _ _ Hnd2 Hv) as Hvm.
  fold (DataSources.priceMap_of prices) in Hpm.
  fold (DataSources.priceMap_of prices') in Hpm.
  fold (DataSources.pvMap_of pvProfile) in Hvm.
  fold (DataSources.pvMap_of pvProfile') in Hvm.
  assert (∀ ps vs, NoDup (DataSources.alignData newDate ps vs)) as Hnodup.
  { intros ps vs. apply (NoDup_fmap_1 timestamp).
    rewrite (alignData_timestamps newDate ps vs).
    apply NoDup_filter, NoDup_Set_from. }
  apply (StronglySorted_unique_strong
           (λ a b, (timestamp a < timestamp b)%Z)).
  - intros a b _ _ Hab Hba. lia.
  - apply alignData_strictly_sorted.
  - apply alignData_strictly_sorted.
  - apply NoDup_Permutation; [apply Hnodup..|].
    intros r. rewrite !alignData_records. by rewrite Hpm, Hvm.
Qed.

Lemma alignData_order_insensitive_witness :
  DataSources.alignData (λ _, Example.midnight)
    [mkPricePoint 3 30; mkPricePoint 1 10; mkPricePoint 2 20]
    [mkOutputPoint 2 5; mkOutputPoint 4 7; mkOutputPoint 1 6]
  = DataSources.alignData (λ _, Example.midnight)
      [mkPricePoint 2 20; mkPricePoint 1 10; mkPricePoint 3 30]
      [mkOutputPoint 1 6; mkOutputPoint 4 7; mkOutputPoint 2 5].
Proof.
  apply (alignData_order_insensitive (λ _, Example.midnight)).
  - apply (bool_decide_unpack _). by vm_compute.
  - apply (bool_decide_unpack _). by vm_compute.
  - exact (Permutation_rev
             [mkPricePoint 3 30; mkPricePoint 1 10; mkPricePoint 2 20]).
  - exact (Permutation_rev
             [mkOutputPoint 2 5; mkOutputPoint 4 7; mkOutputPoint 1 6]).
Defined.

(** ** The parser of the price feed *)

Lemma foldl_ext_all {A B} (f g : A → B → A) a l :
  (∀ a x, f a x = g a x) → foldl f a l = foldl g a l.
Proof.
  intros Hfg. revert a. induction l as [|x l IH]; intros a; [done|].
  simpl. by rewrite Hfg, IH.
Qed.

Local Abbreviation feed_point :=
  (λ tp : Z * option Q, mkPricePoint tp.1 <$> tp.2).

Lemma parse_loop (seconds : list Z) (price : list (option Q)) acc :
  foldl (λ prices i,
           match seconds !! i, price !! i with
           | Some ts, Some (Some p) => prices ++ [mkPricePoint ts p]
           | _, _ => prices
           end)
        acc (seq 0 (length seconds))
  = acc ++ omap feed_point (zip seconds price).
Proof.
  revert price acc. induction seconds as [|t seconds IH]; intros price acc.
  - simpl. by rewrite app_nil_r.
  - cbn [length seq foldl]. rewrite <- fmap_S_seq, foldl_map_compose.
    rewrite (foldl_ext_all _
               (λ prices i,
                  match seconds !! i, tail price !! i with
                  | Some ts, Some (Some p) => prices ++ [mkPricePoint ts p]
                  | _, _ => prices
                  end)).
    2: { intros a i. by rewrite lookup_tail. }
    rewrite IH. destruct price as [|[p|] price]; simpl.
    + by destruct seconds.
    + by rewrite <- app_assoc.
    + done.
Qed.

Lemma feed_timestamps_sublist (seconds : list Z) (price : list (option Q)) :
  map p_timestamp (omap feed_point (zip seconds price)) `sublist_of` seconds.
Proof.
  revert price. induction seconds as [|t seconds IH]; intros price.
  - constructor.
  - destruct price as [|[p|] price]; simpl.
    + apply sublist_nil_l.
    + constructor. apply IH.
    + apply sublist_cons. apply IH.
Qed.

Lemma StronglySorted_sublist {A} (R : A → A → Prop) l1 l2 :
  l1 `sublist_of` l2 → StronglySorted R l2 → StronglySorted R l1.
Proof.
  induction 1 as [|x l1 l2 Hsub IH|x l1 l2 _ IH]; intros Hs.
  - constructor.
  - apply StronglySorted_inv in Hs as [Hs Hx].
    constructor; [by apply IH|].
    apply Forall_forall. intros y Hy. rewrite Forall_forall in Hx.
    apply Hx. by apply (sublist_subseteq _ _ Hsub).
  - apply StronglySorted_inv in Hs as [Hs _]. by apply IH.
Qed.

(** X17. [parseEnergyChartsResponse] pairs every timestamp with the price
    at the same index, skips the indices whose price is [null] or
    missing, and keeps the order of the feed; so the timestamps it
    returns are a subsequence of the feed's and are strictly ascending
    and distinct when the feed's are.  Without one of the two arrays it
    returns nothing. *)
Theorem parseEnergyChartsResponse_spec (data : ChartsData) :
  let prices := DataFeed.parseEnergyChartsResponse data in
  match unix_seconds data, price_feed data with
  | Some seconds, Some price =>
      prices = omap (λ tp, mkPricePoint tp.1 <$> tp.2) (zip seconds price)
      ∧ map p_timestamp prices `sublist_of` seconds
      ∧ (length prices ≤ length seconds)%nat
      ∧ (StronglySorted Z.lt seconds →
         StronglySorted Z.lt (map p_timestamp prices)
         ∧ NoDup (map p_timestamp prices))
  | _, _ => prices = []
  end.
Proof.
  cbv zeta. unfold DataFeed.parseEnergyChartsResponse.
  destruct (unix_seconds data) as [seconds|]; [|done].
  destruct (price_feed data) as [price|]; [|done].
  rewrite parse_loop, app_nil_l.
  pose proof (feed_timestamps_sublist seconds price) as Hsub.
  split_and!; [done|done| |].
  - rewrite <- (length_map p_timestamp). by apply sublist_length.
  - intros Hs.
    assert (StronglySorted Z.lt
              (map p_timestamp (omap feed_point (zip seconds price))))
      as Hs' by (by eapply StronglySorted_sublist).
    split; [done|].
    clear Hsub. induction Hs' as [|x l _ IH Hx]; [constructor|].
    apply NoDup_cons. split; [|done].
    intros Hin. rewrite Forall_forall in Hx. specialize (Hx _ Hin). lia.
Qed.

(** ** The cache *)

Section CacheFacts.
Context {D : Type}.
Variable JSON_stringify : CacheItem D → string.
Variable JSON_parse : string → option (CacheItem D).
Variable accepts : gmap string string → string → string → bool.

Local Abbreviation getFromCache := (DataFeed.getFromCache JSON_parse).
Local Abbreviation saveToCache :=
  (DataFeed.saveToCache JSON_stringify accepts).

Lemma cache_save_then_get store now now' key (data : D) :
  let item := mkCacheItem (Some data) (Some (now + 3600000)%Z) in
  let saved := saveToCache store now key data in
  JSON_parse (JSON_stringify item) = Some item →
  JSON_stringify item ≠ "" →
  accepts store key (JSON_stringify item) = true →
  ((now' ≤ now + 3600000)%Z → getFromCache saved now' key = (Some data, saved))
  ∧ ((now + 3600000 < now')%Z →
     getFromCache saved now' key = (None, delete key store))
  ∧ (∀ k, k ≠ key →
       saved !! k = store !! k
       ∧ (getFromCache saved now' key).2 !! k = store !! k).
Proof.
  intros item saved Hjson Hne Hacc.
  assert (saved = <[key := JSON_stringify item]> store) as Hsaved.
  { unfold saved, DataFeed.saveToCache.
    change CONFIG.CACHE.PRICE_TTL with 3600000%Z. fold item.
    by rewrite Hacc. }
  assert (getFromCache saved now' key
          = if (now + 3600000 <? now')%Z then (None, delete key saved)
            else (Some data, saved)) as Hget.
  { unfold DataFeed.getFromCache. rewrite Hsaved at 1.
    rewrite lookup_insert_eq.
    destruct (decide (JSON_stringify item = "")); [done|].
    by rewrite Hjson. }
  rewrite Hget. split_and!.
  - intros Hle. by destruct (Z.ltb_spec (now + 3600000) now'); [lia|].
  - intros Hlt. destruct (Z.ltb_spec (now + 3600000) now'); [|lia].
    by rewrite Hsaved, delete_insert_eq.
  - intros k Hk. rewrite Hsaved. split.
    + by rewrite lookup_insert_ne.
    + destruct (now + 3600000 <? now')%Z; simpl.
      * by rewrite lookup_delete_ne, lookup_insert_ne.
      * by rewrite lookup_insert_ne.
Qed.

(** X18. What [saveToCache] stores, [getFromCache] returns for one hour:
    up to [PRICE_TTL] milliseconds after the save a lookup of the key
    gives back the data and leaves the store alone, later it gives
    nothing and removes the entry; no other key is touched by either
    call.  (The host's [JSON.parse] inverts [JSON.stringify] on the
    item, and [setItem] accepts it.) *)
Theorem cache_round_trip store now now' key (data : D) :
  let item := mkCacheItem (Some data) (Some (now + 3600000)%Z) in
  let saved := saveToCache store now key data in
  JSON_parse (JSON_stringify item) = Some item →
  JSON_stringify item ≠ "" →
  accepts store key (JSON_stringify item) = true →
  ((now' ≤ now + 3600000)%Z → getFromCache saved now' key = (Some data, saved))
  ∧ ((now + 3600000 < now')%Z →
     getFromCache saved now' key = (None, delete key store))
  ∧ (∀ k, k ≠ key →
       saved !! k = store !! k
       ∧ (getFromCache saved now' key).2 !! k = store !! k).
Proof. apply cache_save_then_get. Qed.

Lemma delete_loop_lookup (keys : list string) (store : gmap string string) k :
  foldl (λ store k, delete k store) store keys !! k
  = if decide (k ∈ keys) then None else store !! k.
Proof.
  revert store. induction keys as [|k' keys IH]; intros store; simpl.
  - destruct (decide (k ∈ [])) as [H|_]; [by apply elem_of_nil in H|done].
  - rewrite IH. destruct (decide (k ∈ keys)) as [Hin|Hout].
    + destruct (decide (k ∈ k' :: keys)) as [_|H]; [done|].
      exfalso. apply H. by right.
    + destruct (decide (k = k')) as [->|Hne].
      * rewrite lookup_delete_eq.
        destruct (decide (k' ∈ k' :: keys)) as [_|H]; [done|].
        exfalso. apply H. left.
      * rewrite lookup_delete_ne by done.
        destruct (decide (k ∈ k' :: keys)) as [H|_]; [|done].
        apply elem_of_cons in H as [?|?]; done.
Qed.

(** X19. [clearCache] removes exactly the entries of the tool: afterwards
    no key that starts with the prefix ["cva_ipp_"] is left, so every
    [getFromCache] of such a key misses, and every other entry of
    [localStorage] is as before. *)
Theorem clearCache_removes_own_keys (store : gmap string string) k now :
  DataFeed.clearCache store !! k
  = (if String.prefix "cva_ipp_" k then None else store !! k)
  ∧ (String.prefix "cva_ipp_" k = true →
     getFromCache (DataFeed.clearCache store) now k
     = (None, DataFeed.clearCache store)).
Proof.
  assert (DataFeed.clearCache store !! k
          = if String.prefix "cva_ipp_" k then None else store !! k) as Hk.
  { unfold DataFeed.clearCache. cbv zeta. rewrite delete_loop_lookup.
    change CONFIG.CACHE.PREFIX with "cva_ipp_".
    destruct (decide (k ∈ List.filter (λ k0, String.prefix "cva_ipp_" k0)
                            (map fst (map_to_list store)))) as [Hin|Hout].
    - apply list_elem_of_In, filter_In in Hin as [_ ->]. done.
    - destruct (String.prefix "cva_ipp_" k) eqn:E; [|done].
      destruct (store !! k) as [v|] eqn:Hv; [|done].
      exfalso. apply Hout. apply list_elem_of_In, filter_In.
      split; [|done]. apply list_elem_of_In, list_elem_of_fmap.
      exists (k, v). split; [done|]. by apply elem_of_map_to_list. }
  split; [done|]. intros Hpre. unfold DataFeed.getFromCache.
  by rewrite Hk, Hpre.
Qed.
End CacheFacts.

Lemma cache_round_trip_witness :
  let JSON_stringify := λ _ : CacheItem nat, "item" in
  let JSON_parse :=
    λ _ : string, Some (mkCacheItem (Some 7%nat) (Some 3601000%Z)) in
  let accepts := λ (_ : gmap string string) (_ _ : string), true in
  let saved :=
    DataFeed.saveToCache JSON_stringify accepts ∅ 1000 "cva_ipp_prices"
      7%nat in
  ((2000 ≤ 1000 + 3600000)%Z →
   DataFeed.getFromCache JSON_parse saved 2000 "cva_ipp_prices"
   = (Some 7%nat, saved))
  ∧ ((1000 + 3600000 < 2000)%Z →
     DataFeed.getFromCache JSON_parse saved 2000 "cva_ipp_prices"
     = (None, delete "cva_ipp_prices" ∅))
  ∧ (∀ k, k ≠ "cva_ipp_prices" →
       saved !! k = (∅ : gmap string string) !! k
       ∧ (DataFeed.getFromCache JSON_parse saved 2000 "cva_ipp_prices").2
           !! k = (∅ : gmap string string) !! k).
Proof.
  intros JSON_stringify JSON_parse accepts.
  apply (cache_round_trip JSON_stringify JSON_parse accepts ∅ 1000 2000
           "cva_ipp_prices" 7%nat).
  - reflexivity.
  - done.
  - reflexivity.
Defined.

(** ** Fetching prices through the cache *)

Section FetchFacts.
Variable JSON_stringify : CacheItem (list PricePoint) → string.
Variable JSON_parse : string → option (CacheItem (list PricePoint)).
Variable accepts : gmap string string → string → string → bool.
Variable toISOString : Z → string.

Local Abbreviation fetchPrices :=
  (DataFeed.fetchPrices JSON_stringify JSON_parse accepts toISOString).

(** X20. A successful [fetchPrices] fills the cache, so that for one hour
    the same query is answered from the cache: it returns the same
    prices whatever the network would reply, and leaves the store as it
    is.  (The first call finds no entry for the query; the host's
    [JSON.parse] inverts [JSON.stringify] on the stored item, and
    [setItem] accepts it.) *)
Theorem fetchPrices_answers_from_cache
    fetch fetch' store now now' bzn startDate endDate status data :
  let key := DataFeed.cacheKey toISOString bzn startDate endDate in
  let prices := DataFeed.parseEnergyChartsResponse data in
  let item := mkCacheItem (Some prices) (Some (now + 3600000)%Z) in
  JSON_parse (JSON_stringify item) = Some item →
  JSON_stringify item ≠ "" →
  accepts store key (JSON_stringify item) = true →
  store !! key = None →
  fetch (DataFeed.priceUrl bzn startDate endDate)
  = HttpReply true status (Some data) →
  (now' ≤ now + 3600000)%Z →
  ∃ store1,
    fetchPrices fetch store now bzn startDate endDate = (inr prices, store1)
    ∧ (∀ k, k ≠ key → store1 !! k = store !! k)
    ∧ fetchPrices fetch' store1 now' bzn startDate endDate
      = (inr prices, store1).
Proof.
  intros key prices item Hjson Hne Hacc Hmiss Hfetch Hnow.
  destruct (cache_save_then_get JSON_stringify JSON_parse accepts store now
              now' key prices Hjson Hne Hacc) as (Hhit & _ & Hframe).
  exists (DataFeed.saveToCache JSON_stringify accepts store now key prices).
  split_and!.
  - unfold DataFeed.fetchPrices, DataFeed.getFromCache. fold key.
    rewrite Hmiss, Hfetch. done.
  - intros k Hk. by destruct (Hframe k Hk).
  - unfold DataFeed.fetchPrices. fold key. by rewrite (Hhit Hnow).
Qed.
End FetchFacts.

Lemma fetchPrices_answers_from_cache_witness :
  let JSON_stringify := λ _ : CacheItem (list PricePoint), "item" in
  let JSON_parse :=
    λ _ : string,
      Some (mkCacheItem (Some [mkPricePoint 1704067200 50])
              (Some 3601000%Z)) in
  let accepts := λ (_ : gmap string string) (_ _ : string), true in
  let toISOString := λ ms : Z, pretty ms in
  let fetch :=
    λ _ : string,
      HttpReply true 200
        (Some (mkChartsData (Some [1704067200%Z; 1704070800%Z])
                 (Some [Some 50; None]))) in
  let fetch' := λ _ : string, NetworkFailure in
  ∃ store1,
    DataFeed.fetchPrices JSON_stringify JSON_parse accepts toISOString fetch
      ∅ 1000 "DE-LU" 0 86400000
    = (inr [mkPricePoint 1704067200 50], store1)
    ∧ (∀ k, k ≠ DataFeed.cacheKey toISOString "DE-LU" 0 86400000 →
         store1 !! k = (∅ : gmap string string) !! k)
    ∧ DataFeed.fetchPrices JSON_stringify JSON_parse accepts toISOString
        fetch' store1 2000 "DE-LU" 0 86400000
      = (inr [mkPricePoint 1704067200 50], store1).
Proof.
  intros JSON_stringify JSON_parse accepts toISOString fetch fetch'.
  apply (fetchPrices_answers_from_cache JSON_stringify JSON_parse accepts
           toISOString fetch fetch' ∅ 1000 2000 "DE-LU" 0 86400000 200
           (mkChartsData (Some [1704067200%Z; 1704070800%Z])
              (Some [Some 50; None]))).
  - reflexivity.
  - done.
  - reflexivity.
  - reflexivity.
  - reflexivity.
  - by vm_compute.
Defined.

(** * Properties of the proxy worker *)

Lemma prefix_app (a b : string) :
  String.prefix a b = true ↔ ∃ rest, b = a +:+ rest.
Proof.
  revert b. induction a as [|c a IH]; intros b.
  - split; [|by destruct b]. intros _. by exists b.
  - destruct b as [|c' b]; simpl.
    + split; [done|]. by intros [rest ?].
    + destruct (Ascii.ascii_dec c c') as [->|Hne].
      * rewrite IH. split.
        -- intros [rest ->]. by exists rest.
        -- intros [rest [= ->]]. by exists rest.
      * split; [done|]. intros [rest [= ? ?]]. done.
Qed.

(** X21. [isAllowedOrigin] accepts exactly the origins that start with
    one of the four allowed origins: whatever follows the allowed origin
    is not looked at, and a missing or empty [Origin] is refused. *)
Theorem isAllowedOrigin_prefix (origin : option string) :
  Worker.isAllowedOrigin origin = true
  ↔ ∃ allowed rest,
      allowed ∈ Worker.ALLOWED_ORIGINS ∧ origin = Some (allowed +:+ rest).
Proof.
  unfold Worker.isAllowedOrigin. destruct origin as [o|].
  2: { split; [done|]. by intros (? & ? & _ & ?). }
  assert (existsb (λ allowed,
                     String.prefix (Worker.strip_trailing_slash allowed) o)
            Worker.ALLOWED_ORIGINS = true
          ↔ ∃ allowed rest,
              allowed ∈ Worker.ALLOWED_ORIGINS ∧ o = allowed +:+ rest) as Hex.
  { rewrite existsb_exists. split.
    - intros (allowed & Hin & Hpre). apply list_elem_of_In in Hin.
      assert (Worker.strip_trailing_slash allowed = allowed) as Hstrip.
      { unfold Worker.ALLOWED_ORIGINS in Hin.
        repeat (apply elem_of_cons in Hin as [->|Hin]; [reflexivity|]).
        by apply elem_of_nil in Hin. }
      rewrite Hstrip in Hpre. apply prefix_app in Hpre as [rest ->].
      by exists allowed, rest.
    - intros (allowed & rest & Hin & ->). exists allowed.
      split; [by apply list_elem_of_In|].
      assert (Worker.strip_trailing_slash allowed = allowed) as ->.
      { unfold Worker.ALLOWED_ORIGINS in Hin.
        repeat (apply elem_of_cons in Hin as [->|Hin]; [reflexivity|]).
        by apply elem_of_nil in Hin. }
      apply prefix_app. by exists rest. }
  destruct (String.eqb_spec o "") as [->|Hne].
  - split; [done|]. intros (allowed & rest & Hin & [= Ho]).
    unfold Worker.ALLOWED_ORIGINS in Hin.
    repeat (apply elem_of_cons in Hin as [->|Hin]; [done|]).
    by apply elem_of_nil in Hin.
  - rewrite Hex. split.
    + intros (allowed & rest & Hin & ->). by exists allowed, rest.
    + intros (allowed & rest & Hin & [= ->]). by exists allowed, rest.
Qed.

Section WorkerFacts.
Variable OPENAI_API_KEY : option string.
Variable callOpenAI : string → string → string → Upstream.

Local Abbreviation handleInsightsRequest :=
  (Worker.handleInsightsRequest OPENAI_API_KEY callOpenAI).
Local Abbreviation fetch := (Worker.fetch OPENAI_API_KEY callOpenAI).

Ltac split_cases :=
  repeat match goal with
         | |- context [match ?x with _ => _ end] => destruct x eqn:?
         end.

(** Every reply of [handleInsightsRequest] is a JSON reply built by
    [jsonResponse] for the origin it was given. *)
Lemma handleInsightsRequest_reply request origin :
  ∃ reply code,
    handleInsightsRequest request origin
    = Worker.jsonResponse reply code origin
    ∧ code ∈ [200; 400; 500; 502; 503]%Z.
Proof.
  unfold Worker.handleInsightsRequest. split_cases;
    eexists _, _; (split; [reflexivity|]); repeat constructor.
Qed.

Lemma truthy_Some (s : option string) :
  Worker.truthy s = true ↔ ∃ v, s = Some v ∧ v ≠ "".
Proof.
  unfold Worker.truthy. destruct s as [v|].
  - destruct (String.eqb_spec v "") as [->|Hne]; simpl.
    + split; [done|]. by intros (? & [= <-] & ?).
    + split; [|done]. intros _. by exists v.
  - split; [done|]. by intros (? & ? & _).
Qed.

(** X22. [handleInsightsRequest] answers 200 exactly when the body has a
    non-empty prompt, an API key is configured, and the upstream reply is
    [ok] with a non-empty message; the reply then carries that message
    with the model and the usage.  Every other answer is an error reply
    with status 400, 500, 502 or 503, and it tells the client to fall
    back except when the prompt is missing (400). *)
Theorem handleInsightsRequest_status request origin :
  let response := handleInsightsRequest request origin in
  (status response = 200%Z
   ↔ ∃ body p apiKey data memo,
       json_body request = Some body
       ∧ prompt body = Some p ∧ p ≠ ""
       ∧ OPENAI_API_KEY = Some apiKey ∧ apiKey ≠ ""
       ∧ callOpenAI apiKey
           (if Worker.truthy (system body) then default "" (system body)
            else "You are an expert energy market analyst.") p
         = UpstreamOk (Some data)
       ∧ content data = Some memo ∧ memo ≠ ""
       ∧ response_body response
         = JsonBody (MemoReply memo (model data) (usage data)))
  ∧ (status response ≠ 200%Z →
     ∃ error fallback,
       response_body response = JsonBody (ErrorReply error fallback)
       ∧ status response ∈ [400; 500; 502; 503]%Z
       ∧ (fallback = false ↔ status response = 400%Z)).
Proof.
  cbv zeta. unfold Worker.handleInsightsRequest.
  assert (∀ error fallback code,
            code ∈ [400; 500; 502; 503]%Z →
            (fallback = false ↔ code = 400%Z) →
            let response :=
              Worker.jsonResponse (ErrorReply error fallback) code origin in
            ¬ status response = 200%Z
            ∧ ∃ error' fallback',
                response_body response = JsonBody (ErrorReply error' fallback')
                ∧ status response ∈ [400; 500; 502; 503]%Z
                ∧ (fallback' = false ↔ status response = 400%Z)) as Hreply.
  { intros error fallback code Hcode Hfb. simpl. split.
    - intros ->.
      repeat (apply elem_of_cons in Hcode as [Hcode|Hcode]; [done|]).
      by apply elem_of_nil in Hcode.
    - by exists error, fallback. }
  destruct (json_body request) as [body|] eqn:Hbody.
  2: { destruct (Hreply "Internal server error" true 500%Z) as [Hno Hyes];
         [repeat constructor|done|].
       split; [|done]. split; [done|]. by intros (? & ? & ? & ? & ? & ? & _). }
  destruct (prompt body) as [p|] eqn:Hprompt.
  2: { destruct (Hreply "Missing prompt" false 400%Z) as [Hno Hyes];
         [repeat constructor|done|].
       split; [|done]. split; [done|].
       intros (? & ? & ? & ? & ? & [= <-] & ? & _). congruence. }
  destruct (String.eqb_spec p "") as [->|Hp].
  { destruct (Hreply "Missing prompt" false 400%Z) as [Hno Hyes];
      [repeat constructor|done|].
    split; [|done]. split; [done|].
    intros (? & ? & ? & ? & ? & [= <-] & ? & ? & _). congruence. }
  destruct OPENAI_API_KEY as [apiKey|].
  2: { destruct (Hreply "Service temporarily unavailable" true 503%Z)
         as [Hno Hyes]; [repeat constructor|done|].
       split; [|done]. split; [done|].
       by intros (? & ? & ? & ? & ? & _ & _ & _ & ? & _). }
  destruct (String.eqb_spec apiKey "") as [->|Hk].
  { destruct (Hreply "Service temporarily unavailable" true 503%Z)
      as [Hno Hyes]; [repeat constructor|done|].
    split; [|done]. split; [done|].
    by intros (? & ? & ? & ? & ? & _ & _ & _ & [= <-] & ? & _). }
  cbv zeta.
  set (systemContent := if Worker.truthy (system body)
                        then default "" (system body)
                        else "You are an expert energy market analyst.").
  assert (∀ body' p' apiKey' data,
            Some body = Some body' → prompt body' = Some p' →
            Some apiKey = Some apiKey' →
            callOpenAI apiKey'
              (if Worker.truthy (system body') then default "" (system body')
               else "You are an expert energy market analyst.") p'
            = UpstreamOk (Some data) →
            callOpenAI apiKey systemContent p = UpstreamOk (Some data))
    as Hsame.
  { intros body' p' apiKey' data [= <-] Hp' [= <-] Hcall.
    rewrite Hprompt in Hp'. injection Hp' as <-. exact Hcall. }
  destruct (callOpenAI apiKey systemContent p) as [|[text|]|[data|]]
    eqn:Hcall.
  - destruct (Hreply "Internal server error" true 500%Z) as [Hno Hyes];
      [repeat constructor|done|].
    split; [|done]. split; [done|].
    intros (? & ? & ? & d & ? & H1 & H2 & _ & H3 & _ & H4 & _).
    by pose proof (Hsame _ _ _ _ H1 H2 H3 H4).
  - destruct (Hreply "AI service error" true 502%Z) as [Hno Hyes];
      [repeat constructor|done|].
    split; [|done]. split; [done|].
    intros (? & ? & ? & d & ? & H1 & H2 & _ & H3 & _ & H4 & _).
    by pose proof (Hsame _ _ _ _ H1 H2 H3 H4).
  - destruct (Hreply "Internal server error" true 500%Z) as [Hno Hyes];
      [repeat constructor|done|].
    split; [|done]. split; [done|].
    intros (? & ? & ? & d & ? & H1 & H2 & _ & H3 & _ & H4 & _).
    by pose proof (Hsame _ _ _ _ H1 H2 H3 H4).
  - destruct (Worker.truthy (content data)) eqn:Hmemo.
    + apply truthy_Some in Hmemo as (memo & Hcontent & Hmemo).
      rewrite Hcontent. simpl. split; [|done]. split; [|done].
      intros _. by exists body, p, apiKey, data, memo.
    + destruct (Hreply "Invalid AI response" true 502%Z) as [Hno Hyes];
        [repeat constructor|done|].
      split; [|done]. split; [done|].
      intros (? & ? & ? & d & memo & H1 & H2 & _ & H3 & _ & H4 & Hc & Hne & _).
      pose proof (Hsame _ _ _ _ H1 H2 H3 H4) as [= <-].
      assert (Worker.truthy (content data) = true) as Ht
        by (apply truthy_Some; eauto).
      by rewrite Hmemo in Ht.
  - destruct (Hreply "Internal server error" true 500%Z) as [Hno Hyes];
      [repeat constructor|done|].
    split; [|done]. split; [done|].
    intros (? & ? & ? & d & ? & H1 & H2 & _ & H3 & _ & H4 & _).
    by pose proof (Hsame _ _ _ _ H1 H2 H3 H4).
Qed.

Lemma isAllowedOrigin_Some origin :
  Worker.isAllowedOrigin origin = true →
  ∃ o, origin = Some o ∧ o ≠ ""
       ∧ Worker.origin_or_default origin = o ∧ default "" origin = o.
Proof.
  unfold Worker.isAllowedOrigin, Worker.origin_or_default.
  destruct origin as [o|]; [|done].
  destruct (String.eqb_spec o "") as [->|Hne]; [done|].
  intros _. by exists o.
Qed.

(** The answers of [fetch], case by case. *)
Lemma fetch_cases request :
  (method request = "OPTIONS"
   ∧ Worker.isAllowedOrigin (origin_header request) = true
   ∧ fetch request
     = mkResponse EmptyBody 204
         (Worker.CORS_HEADERS
            ++ [("Access-Control-Allow-Origin",
                 default "" (origin_header request))]))
  ∨ ((method request = "OPTIONS" ∨ method request = "POST")
     ∧ Worker.isAllowedOrigin (origin_header request) = false
     ∧ fetch request = mkResponse (TextBody "Forbidden") 403 [])
  ∨ (method request ≠ "OPTIONS" ∧ method request ≠ "POST"
     ∧ fetch request = mkResponse (TextBody "Method not allowed") 405 [])
  ∨ (method request = "POST"
     ∧ Worker.isAllowedOrigin (origin_header request) = true
     ∧ pathname request ≠ "/api/insights"
     ∧ fetch request = mkResponse (TextBody "Not found") 404 [])
  ∨ (method request = "POST"
     ∧ Worker.isAllowedOrigin (origin_header request) = true
     ∧ pathname request = "/api/insights"
     ∧ fetch request
       = handleInsightsRequest request (origin_header request)).
Proof.
  unfold Worker.fetch, Worker.handleCORS.
  destruct (String.eqb_spec (method request) "OPTIONS") as [Hm|Hm].
  { destruct (Worker.isAllowedOrigin (origin_header request)) eqn:Ho.
    - left. done.
    - right. left. split_and!; [by left|done..]. }
  destruct (String.eqb_spec (method request) "POST") as [Hp|Hp]; simpl.
  2: { right. right. left. done. }
  destruct (Worker.isAllowedOrigin (origin_header request)) eqn:Ho; simpl.
  2: { right. left. split_and!; [by right|done..]. }
  destruct (String.eqb_spec (pathname request) "/api/insights") as [Hu|Hu].
  - do 4 right. done.
  - do 3 right. left. done.
Qed.


(** X24. A response of the worker that has an
    [Access-Control-Allow-Origin] header names the origin of the request
    itself, and that origin passed [isAllowedOrigin]: the default origin
    of [jsonResponse] is never sent. *)
Theorem allow_origin_is_the_request_origin request value :
  ("Access-Control-Allow-Origin", value) ∈ headers (fetch request) →
  origin_header request = Some value
  ∧ Worker.isAllowedOrigin (Some value) = true.
Proof.
  destruct (handleInsightsRequest_reply request (origin_header request))
    as (reply & code & Hreply & _).
  destruct (fetch_cases request)
    as [(Hm & Ho & ->)|[(Hm & Ho & ->)|[(Hm1 & Hm2 & ->)
        |[(Hm & Ho & Hu & ->)|(Hm & Ho & Hu & ->)]]]];
    cbn [headers]; intros Hin; try (by apply elem_of_nil in Hin).
  - destruct (isAllowedOrigin_Some _ Ho) as (o & Horigin & _ & _ & Hd).
    rewrite Hd in Hin. unfold Worker.CORS_HEADERS in Hin. simpl in Hin.
    repeat (apply elem_of_cons in Hin as [Hin|Hin]; [by injection Hin|]).
    apply elem_of_cons in Hin as [[= ->]|Hin];
      [|by apply elem_of_nil in Hin].
    by rewrite <- Horigin.
  - rewrite Hreply in Hin. cbn [headers Worker.jsonResponse] in Hin.
    destruct (isAllowedOrigin_Some _ Ho) as (o & Horigin & _ & Hd & _).
    rewrite Hd in Hin. unfold Worker.CORS_HEADERS in Hin. simpl in Hin.
    apply elem_of_cons in Hin as [Hin|Hin]; [by injection Hin|].
    apply elem_of_cons in Hin as [[= ->]|Hin]; [by rewrite <- Horigin|].
    repeat (apply elem_of_cons in Hin as [Hin|Hin]; [by injection Hin|]).
    by apply elem_of_nil in Hin.
Qed.
End WorkerFacts.

Lemma allow_origin_is_the_request_origin_witness :
  origin_header
    (mkRequest "OPTIONS" (Some "http://localhost:3000") "/api/insights" None)
  = Some "http://localhost:3000"
  ∧ Worker.isAllowedOrigin (Some "http://localhost:3000") = true.
Proof.
  apply (allow_origin_is_the_request_origin None (λ _ _ _, UpstreamFailure)
           (mkRequest "OPTIONS" (Some "http://localhost:3000")
              "/api/insights" None)
           "http://localhost:3000").
  apply (bool_decide_unpack _). by vm_compute.
Defined.

(** * When the battery simulation returns *)

Section BatteryReturns.
Variable Math_sqrt : Q → Q.
Variable batteryConfig : BatteryConfig.

Lemma charge_step_returns st hour :
  ∃ st', Compute.charge_step Math_sqrt batteryConfig st hour = Ok st'.
Proof.
  unfold Compute.charge_step.
  set (room := Math_min (Math_min (output hour.2) (powerMW batteryConfig))
                 (Compute.maxSOC batteryConfig - Compute.soc st)).
  set (s := Compute.sqrtEfficiency Math_sqrt batteryConfig).
  destruct (is_pos (room * s)) eqn:E; [|eauto].
  apply is_pos_true in E.
  assert (¬ s == 0) as Hs.
  { intros Hz. rewrite Hz in E. lra. }
  rewrite !(divide_Ok _ s) by done. do 2 ok_step.
  destruct (is_neg (price hour.2)); [ok_step|]; ok_step; eauto.
Qed.

Lemma charge_loop_returns hours st :
  ∃ st', foldM (Compute.charge_step Math_sqrt batteryConfig) st hours
         = Ok st'.
Proof.
  revert st. induction hours as [|hour hours IH]; intros st; simpl; [eauto|].
  destruct (charge_step_returns st hour) as [st1 ->]. ok_step. apply IH.
Qed.

Lemma sliceEnd_cases :
  (Compute.sliceEnd batteryConfig = Raise NonFinite
   ∧ default true (oneCyclePerDay batteryConfig) = true
   ∧ powerMW batteryConfig == 0)
  ∨ ((∃ n, Compute.sliceEnd batteryConfig = Ok n)
     ∧ (default true (oneCyclePerDay batteryConfig) = false
        ∨ ¬ powerMW batteryConfig == 0)).
Proof.
  unfold Compute.sliceEnd, divide.
  destruct (default true (oneCyclePerDay batteryConfig)).
  - destruct (Qeq_bool (powerMW batteryConfig) 0) eqn:E.
    + left. apply Qeq_bool_eq in E. done.
    + right. apply Qeq_bool_neq in E. ok_step. split; [eauto|by right].
  - right. split; [eauto|by left].
Qed.

Lemma simulate_day_returns dayData n :
  Compute.sliceEnd batteryConfig = Ok n →
  ∃ st, Compute.simulate_day Math_sqrt batteryConfig dayData = Ok st.
Proof.
  intros Hn.
  unfold Compute.simulate_day, Compute.chargeHours_of,
    Compute.dischargeHours_of.
  rewrite Hn. do 4 ok_step.
  match goal with
  | |- context [foldM _ _ ?hours] =>
      destruct (charge_loop_returns hours (Compute.day_start batteryConfig))
        as [st1 ->]
  end.
  ok_step. eauto.
Qed.

Lemma day_step_returns_with dayData n tot :
  Compute.sliceEnd batteryConfig = Ok n → dayData ≠ [] →
  ∃ tot', Compute.day_step Math_sqrt batteryConfig tot dayData = Ok tot'.
Proof.
  intros Hn Hne. unfold Compute.day_step.
  destruct (simulate_day_returns dayData n Hn) as [st ->]. ok_step.
  destruct dayData; [done|eauto].
Qed.

Lemma days_return days n tot :
  Compute.sliceEnd batteryConfig = Ok n →
  Forall (λ dayData, dayData ≠ []) days →
  ∃ tot', foldM (Compute.day_step Math_sqrt batteryConfig) tot days = Ok tot'.
Proof.
  intros Hn Hdays. revert tot.
  induction Hdays as [|dayData days Hne _ IH]; intros tot; simpl; [eauto|].
  destruct (day_step_returns_with dayData n tot Hn Hne) as [tot1 ->].
  ok_step. apply IH.
Qed.



(** The battery simulation returns as soon as the slice end is a
    number. *)
Lemma simulateBattery_returns_with data n :
  Compute.sliceEnd batteryConfig = Ok n →
  ∃ result, Compute.simulateBattery Math_sqrt batteryConfig data = Ok result.
Proof.
  intros Hn.
  destruct (days_return (Compute.groupByDay (imap (λ i d, (i, d)) data)) n
              (Compute.mkTotals 0 0 0 0 []) Hn) as [tot Htot].
  { eapply Forall_impl; [apply groupByDay_groups|]. by intros day [? _]. }
  by eapply simulateBattery_returns.
Qed.

End BatteryReturns.

(** * The analysis workflow *)

Lemma findRepresentativeWeeks_returns Math_sqrt data :
  ∃ picks, Compute.findRepresentativeWeeks Math_sqrt data = Ok picks.
Proof.
  destruct (groupByWeek_windows data) as [Hwin _].
  unfold Compute.findRepresentativeWeeks.
  destruct (mapM_Ok (Compute.weekMetric Math_sqrt) (Compute.groupByWeek data))
    as (ms & -> & _).
  { eapply Forall_impl; [exact Hwin|]. intros w Hw.
    destruct (weekMetric_returns Math_sqrt w) as (m & Hm & _);
      [destruct w; simpl in *; [lia|done]|eauto]. }
  ok_step. eauto.
Qed.

Lemma number_or_nonzero x d : ¬ d == 0 → ¬ UI.number_or x d == 0.
Proof.
  intros Hd. unfold UI.number_or. destruct x as [v|]; [|done].
  destruct (Qeq_bool v 0) eqn:E; [done|]. by apply Qeq_bool_neq in E.
Qed.

Lemma alignData_shared newDate prices pvProfile ts :
  ts ∈ map timestamp (DataSources.alignData newDate prices pvProfile)
  ↔ ts ∈ map p_timestamp prices ∧ ts ∈ map v_timestamp pvProfile.
Proof.
  rewrite (alignData_timestamps newDate prices pvProfile).
  rewrite list_elem_of_filter. unfold DataSources.allTimestamps_of.
  rewrite elem_of_Set_from, elem_of_app.
  rewrite (priceMap_of_lookup newDate), (pvMap_of_lookup newDate). tauto.
Qed.

(** X26. [runAnalysis] on the data of any form: it stops with "No aligned
    data" exactly when the prices and the PV profile share no timestamp,
    and otherwise the engine never fails on what [getFormData] hands it
    (a battery power of 0 is replaced by the default): the KPIs cover
    every shared timestamp, the battery is simulated unless the box is
    unchecked, and the PPA revenue is there exactly for the route
    ["ppa"]. *)
Theorem runAnalysis_outcome
    newDate localeCompare Math_sqrt raw prices pvProfile :
  let formData := UI.getFormData raw in
  match App.runAnalysis newDate localeCompare Math_sqrt formData prices
          pvProfile with
  | inl NoAlignedData =>
      ∀ ts, ¬ (ts ∈ map p_timestamp prices ∧ ts ∈ map v_timestamp pvProfile)
  | inl (EngineRaised _) => False
  | inr analysis =>
      alignedData analysis = DataSources.alignData newDate prices pvProfile
      ∧ (∃ ts, ts ∈ map p_timestamp prices ∧ ts ∈ map v_timestamp pvProfile)
      ∧ dataPoints (kpis analysis) = length (alignedData analysis)
      ∧ (is_Some (batteryResults analysis)
         ↔ raw_enableBattery raw ≠ Some false)
      ∧ (is_Some (ppaRevenue (kpis analysis)) ↔ raw_rtm raw = Some "ppa")
  end.
Proof.
  cbv zeta. unfold App.runAnalysis.
  set (aligned := DataSources.alignData newDate prices pvProfile).
  destruct (Nat.eqb_spec (length aligned) 0) as [Hlen|Hlen].
  { apply length_zero_iff_nil in Hlen. intros ts Hts.
    apply (alignData_shared newDate) in Hts. fold aligned in Hts.
    rewrite Hlen in Hts. by apply elem_of_nil in Hts. }
  assert (aligned ≠ []) as Hne by (by destruct aligned).
  cbv zeta.
  set (options := mkOptions _ _).
  destruct (calculateKPIs_run localeCompare aligned
              (fd_capacityMW (UI.getFormData raw)) options Hne)
    as (rm & mcr & pd & _ & _ & _ & ->).
  set (cfg := mkBatteryConfig _ _ _ _).
  assert (∃ result, Compute.simulateBattery Math_sqrt cfg aligned = Ok result)
    as [result Hbattery].
  { destruct (sliceEnd_cases cfg) as [(_ & _ & Hzero)|([n Hn] & _)].
    - exfalso. revert Hzero. unfold cfg. cbn [powerMW UI.getFormData
        fd_batteryPower]. by apply number_or_nonzero.
    - by eapply simulateBattery_returns_with. }
  rewrite Hbattery.
  destruct (findRepresentativeWeeks_returns Math_sqrt aligned) as [picks ->].
  assert (∃ ts, ts ∈ map p_timestamp prices ∧ ts ∈ map v_timestamp pvProfile)
    as Hshared.
  { destruct aligned as [|r rest] eqn:E; [done|]. exists (timestamp r).
    apply (alignData_shared newDate). fold aligned. rewrite E. left. }
  assert (String.eqb (fd_routeToMarket (UI.getFormData raw)) "ppa" = true
          ↔ raw_rtm raw = Some "ppa") as Hppa.
  { cbn [UI.getFormData fd_routeToMarket]. unfold UI.string_or.
    destruct (raw_rtm raw) as [v|]; [|done].
    destruct (String.eqb_spec v "") as [->|Hv]; [done|].
    destruct (String.eqb_spec v "ppa") as [->|Hv']; [done|].
    split; [done|]. by intros [= ?]. }
  assert (fd_enableBattery (UI.getFormData raw) = true
          ↔ raw_enableBattery raw ≠ Some false) as Hon.
  { cbn [UI.getFormData fd_enableBattery].
    by destruct (raw_enableBattery raw) as [[|]|]. }
  destruct (fd_enableBattery (UI.getFormData raw)) eqn:Hen.
  - ok_step. cbn [alignedData kpis batteryResults dataPoints ppaRevenue].
    split_and!; try done.
    + split; [intros _; by apply Hon|by eauto].
    + unfold options. cbn [ppaPrice]. unfold Spec.ppaRevenue.
      destruct (String.eqb (fd_routeToMarket (UI.getFormData raw)) "ppa");
        simpl.
      * split; [intros _; by apply Hppa|by eauto].
      * split; [by intros [? ?]|]. intros H. by apply Hppa in H.
  - cbn [alignedData kpis batteryResults dataPoints ppaRevenue].
    split_and!; try done.
    + split; [by intros [? ?]|]. intros H. by apply Hon in H.
    + unfold options. cbn [ppaPrice]. unfold Spec.ppaRevenue.
      destruct (String.eqb (fd_routeToMarket (UI.getFormData raw)) "ppa");
        simpl.
      * split; [intros _; by apply Hppa|by eauto].
      * split; [by intros [? ?]|]. intros H. by apply Hppa in H.
Qed.

(** * The memo templates *)

(** Whether a memo starts with ["#"] is not changed by the
    replacement. *)
Lemma replace_from_head lineStart memo :
  match PromptTemplates.replace_from lineStart memo with
  | c :: _ => (c =? PromptTemplates.hash)%N
  | [] => false
  end
  = match memo with
    | c :: _ => (c =? PromptTemplates.hash)%N
    | [] => false
    end.
Proof.
  destruct memo as [|c rest]; [done|]. simpl.
  destruct (lineStart && (c =? PromptTemplates.hash)%N
            && negb _) eqn:E; [|done].
  simpl. apply andb_true_iff in E as [E _].
  apply andb_true_iff in E as [_ E]. by rewrite E.
Qed.

Lemma replace_from_idempotent lineStart memo :
  PromptTemplates.replace_from lineStart
    (PromptTemplates.replace_from lineStart memo)
  = PromptTemplates.replace_from lineStart memo.
Proof.
  revert lineStart. induction memo as [|c rest IH]; intros lineStart; [done|].
  cbn [PromptTemplates.replace_from].
  destruct (lineStart && (c =? PromptTemplates.hash)%N
            && negb (match rest with
                     | c' :: _ => (c' =? PromptTemplates.hash)%N
                     | [] => false
                     end)) eqn:E.
  - simpl. rewrite andb_false_r. simpl. by rewrite IH.
  - cbn [PromptTemplates.replace_from].
    rewrite replace_from_head, E. by rewrite IH.
Qed.

(** X27. [formatMemoResponse] turns every top-level heading (a line that
    starts with one ["#"] not followed by another) into a third-level
    heading and changes nothing else: the memo grows by two characters
    per such heading, the result has none left, and formatting twice is
    formatting once. *)
Theorem formatMemoResponse_idempotent (memo : list N) :
  let formatted := PromptTemplates.formatMemoResponse memo in
  PromptTemplates.formatMemoResponse formatted = formatted
  ∧ length formatted = (length memo + 2 * headings_from true memo)%nat
  ∧ headings_from true formatted = 0%nat
  ∧ (headings_from true memo = 0%nat → formatted = memo).
Proof.
  cbv zeta. unfold PromptTemplates.formatMemoResponse.
  split; [apply replace_from_idempotent|].
  assert (∀ lineStart,
            length (PromptTemplates.replace_from lineStart memo)
            = (length memo + 2 * headings_from lineStart memo)%nat
            ∧ headings_from lineStart
                (PromptTemplates.replace_from lineStart memo) = 0%nat
            ∧ (headings_from lineStart memo = 0%nat →
               PromptTemplates.replace_from lineStart memo = memo)) as H.
  { induction memo as [|c rest IH]; intros lineStart; [done|].
    cbn [PromptTemplates.replace_from headings_from].
    destruct (lineStart && (c =? PromptTemplates.hash)%N
              && negb (match rest with
                       | c' :: _ => (c' =? PromptTemplates.hash)%N
                       | [] => false
                       end)) eqn:E.
    - destruct (IH false) as (Hlen & Hnone & _). split_and!.
      + simpl. rewrite Hlen. lia.
      + simpl. rewrite andb_false_r. simpl. exact Hnone.
      + done.
    - destruct (IH (PromptTemplates.isLineTerminator c))
        as (Hlen & Hnone & Hsame).
      split_and!.
      + simpl. rewrite Hlen. lia.
      + cbn [headings_from]. by rewrite replace_from_head, E.
      + intros Hz. by rewrite Hsame. }
  apply H.
Qed.

(** * The synthetic PV profile *)

Lemma alignData_output_from_profile newDate prices pvProfile r :
  r ∈ DataSources.alignData newDate prices pvProfile →
  ∃ point, point ∈ pvProfile ∧ output r = v_output point.
Proof.
  intros Hr. apply alignData_records in Hr as (p & o & _ & Ho & ->).
  cbn [timestamp output] in *. unfold DataSources.pvMap_of in Ho.
  rewrite (set_loop_lookup v_timestamp v_output), lookup_empty in Ho.
  destruct (last (filter _ pvProfile)) as [point|] eqn:Hlast; [|done].
  injection Ho as <-. exists point. split; [|done].
  apply last_Some_elem_of in Hlast.
  by apply list_elem_of_filter in Hlast as [_ ?].
Qed.

Section ProfileFacts.
Variable newDate : Z → JSDate.
Variable setMinutes0 : Z → Z.
Variable yearStart : Z → Z.
Variable Math_exp : Q → Q.
Variable Math_cos : Q → Q.
Variable Math_PI : Q.
Variable Math_random : nat → Q.

Local Abbreviation solarOutput :=
  (DataFeed.solarOutput newDate yearStart Math_exp Math_cos Math_PI).
Local Abbreviation profile_loop :=
  (DataFeed.profile_loop newDate yearStart Math_exp Math_cos Math_PI
     Math_random).

(** The sun rises before it sets in every month, so the width of the
    bell curve is never 0. *)
Lemma halfDay_positive (month : fin 12) :
  0 < inject_Z (DataFeed.getSunsetHour month - DataFeed.getSunriseHour month)
      / 2 * (6 # 10).
Proof.
  assert (0 < DataFeed.getSunsetHour month
              - DataFeed.getSunriseHour month)%Z as H.
  { revert month. apply (bool_decide_unpack _). by vm_compute. }
  rewrite Zlt_Qlt in H. change (inject_Z 0) with 0 in H.
  set (w := inject_Z _) in *.
  apply Qmult_lt_0_compat; [|done]. apply Qlt_shift_div_l; lra.
Qed.

Lemma solarOutput_nonneg capacityMW current draw :
  0 <= solarOutput capacityMW current draw.
Proof.
  unfold DataFeed.solarOutput.
  destruct (DataFeed.daylight newDate current); [|lra].
  apply Math_max_0_nonneg.
Qed.

Lemma getSeasonalFactor_range dayOfYear :
  3 # 10 <= DataFeed.getSeasonalFactor Math_cos Math_PI dayOfYear
  ∧ DataFeed.getSeasonalFactor Math_cos Math_PI dayOfYear <= 1.
Proof.
  unfold DataFeed.getSeasonalFactor.
  set (factor := Math_cos _ * _ + _).
  destruct (Math_max_cases (3 # 10) (Math_min 1 factor)) as [[-> ?]|[-> ?]];
    pose proof (Math_min_le 1 factor) as [? _]; split; lra.
Qed.

Lemma solarOutput_le_capacity capacityMW current draw :
  0 <= capacityMW →
  (∀ x, 0 <= Math_exp x ∧ (x <= 0 → Math_exp x <= 1)) →
  0 <= draw → draw < 1 →
  solarOutput capacityMW current draw <= capacityMW.
Proof.
  intros Hcap Hexp Hd0 Hd1. unfold DataFeed.solarOutput.
  destruct (DataFeed.daylight newDate current); [|done].
  set (ratio := Math_abs _ / _).
  destruct (Hexp (- ratio ^ 2)) as [He0 He1].
  assert (Math_exp (- ratio ^ 2) <= 1) as He.
  { apply He1. assert (0 <= ratio ^ 2); [|lra].
    simpl. nra. }
  destruct (getSeasonalFactor_range (DataFeed.getDayOfYear newDate yearStart
                                       current)) as [Hs0 Hs1].
  set (dayFactor := Math_exp _) in *.
  set (seasonalFactor := DataFeed.getSeasonalFactor _ _ _) in *.
  set (weatherFactor := (7 # 10) + draw * (3 # 10)).
  assert (0 <= weatherFactor ∧ weatherFactor <= 1) as [Hw0 Hw1]
    by (unfold weatherFactor; split; lra).
  assert (capacityMW * dayFactor <= capacityMW) as H1 by nra.
  assert (0 <= capacityMW * dayFactor) as H1' by nra.
  assert (capacityMW * dayFactor * seasonalFactor <= capacityMW) as H2
    by nra.
  assert (0 <= capacityMW * dayFactor * seasonalFactor) as H2' by nra.
  assert (capacityMW * dayFactor * seasonalFactor * weatherFactor
          <= capacityMW) as H3 by nra.
  destruct (Math_max_cases 0 (capacityMW * dayFactor * seasonalFactor
                              * weatherFactor)) as [[-> ?]|[-> ?]]; lra.
Qed.

Local Abbreviation hours_left := DataFeed.hours_left.

Lemma hours_left_step endDate current :
  (current ≤ endDate)%Z →
  hours_left endDate current = S (hours_left endDate (current + 3600000)%Z).
Proof.
  intros Hle. unfold DataFeed.hours_left.
  destruct (Z.leb_spec current endDate) as [_|?]; [|lia].
  destruct (Z.leb_spec (current + 3600000) endDate) as [Hnext|Hnext].
  - f_equal.
    replace (endDate - current)%Z
      with ((endDate - (current + 3600000)) + 1 * 3600000)%Z by lia.
    rewrite Z.div_add by lia.
    assert (0 ≤ (endDate - (current + 3600000)) / 3600000)%Z
      by (apply Z.div_pos; lia).
    lia.
  - f_equal. rewrite Z.div_small by lia. done.
Qed.

Lemma profile_loop_spec fuel endDate capacityMW current draws :
  (hours_left endDate current < fuel)%nat →
  ∃ profile,
    profile_loop fuel endDate capacityMW current draws = Some profile
    ∧ map v_timestamp profile
      = map (λ i, (current / 1000 + 3600 * Z.of_nat i)%Z)
          (seq 0 (hours_left endDate current))
    ∧ Forall (λ p, 0 <= v_output p) profile
    ∧ (0 <= capacityMW →
       (∀ x, 0 <= Math_exp x ∧ (x <= 0 → Math_exp x <= 1)) →
       (∀ i, 0 <= Math_random i ∧ Math_random i < 1) →
       Forall (λ p, v_output p <= Spec.to_decimals 3 capacityMW) profile).
Proof.
  revert current draws. induction fuel as [|fuel IH]; intros current draws.
  { intros H. lia. }
  intros Hfuel. cbn [DataFeed.profile_loop].
  destruct (Z.leb_spec current endDate) as [Hle|Hgt].
  2: { exists []. unfold DataFeed.hours_left.
       destruct (Z.leb_spec current endDate); [lia|].
       split_and!; [done|done|constructor|]. intros _ _ _. constructor. }
  rewrite (hours_left_step endDate current Hle) in Hfuel |- *.
  destruct (IH (current + 3600000)%Z
              (if DataFeed.daylight newDate current then S draws else draws))
    as (rest & -> & Hts & Hnonneg & Hbound); [lia|].
  eexists. split; [done|]. cbn [map v_timestamp]. split_and!.
  - rewrite Hts. cbn [seq map]. f_equal.
    + unfold Math_floor. change 1000 with (inject_Z 1000).
      rewrite <- Zdiv_Qdiv. lia.
    + rewrite <- seq_shift, map_map. apply map_ext. intros i.
      replace (current + 3600000)%Z with (current + 3600 * 1000)%Z by lia.
      rewrite Z.div_add by lia. lia.
  - constructor; [|done]. cbn [v_output].
    pose proof (solarOutput_nonneg capacityMW current (Math_random draws))
      as Hout.
    assert (0 ≤ Math_round (solarOutput capacityMW current
                              (Math_random draws) * 1000))%Z as Hr.
    { change 0%Z with (Math_round 0). apply Math_round_le. lra. }
    rewrite Zle_Qle in Hr. change (inject_Z 0) with 0 in Hr.
    apply Qle_shift_div_l; lra.
  - intros Hcap Hexp Hrand. constructor; [|by apply Hbound].
    cbn [v_output]. unfold Spec.to_decimals.
    change (inject_Z (10 ^ Z.of_nat 3)) with 1000.
    destruct (Hrand draws) as [? ?].
    pose proof (solarOutput_le_capacity capacityMW current
                  (Math_random draws) Hcap Hexp) as Hout.
    assert (Math_round (solarOutput capacityMW current
                          (Math_random draws) * 1000)
            ≤ Math_round (capacityMW * 1000))%Z as Hr.
    { apply Math_round_le. apply Qmult_le_compat_r; [by apply Hout|lra]. }
    rewrite Zle_Qle in Hr. apply Qmult_le_compat_r; [done|]. by vm_compute.
Qed.

(** X28. With enough fuel [generateSyntheticPVProfile] returns one point
    per hour from the start, cut to the hour, to the end date: the
    timestamps climb by 3600 seconds, so none is repeated, and no output
    is negative, whatever the host's [Math.exp], [Math.cos] and
    [Math.random] give; hence every series that [alignData] builds from
    the profile has non-negative outputs.  With a capacity that is not
    negative, an exponential within [0, 1] on negative arguments and
    draws in [0, 1), no output exceeds the capacity rounded to three
    decimals.  The width of the daily bell, [halfDay * 0.6], is positive
    in every month, so its exponent never divides by zero. *)
Theorem syntheticProfile_hourly fuel startDate endDate capacityMW :
  let start := setMinutes0 startDate in
  let hours := DataFeed.hours_left endDate start in
  (hours < fuel)%nat →
  ∃ profile,
    DataFeed.generateSyntheticPVProfile newDate setMinutes0 yearStart
      Math_exp Math_cos Math_PI Math_random fuel startDate endDate capacityMW
    = Some profile
    ∧ map v_timestamp profile
      = map (λ i, (start / 1000 + 3600 * Z.of_nat i)%Z) (seq 0 hours)
    ∧ NoDup (map v_timestamp profile)
    ∧ Forall (λ p, 0 <= v_output p) profile
    ∧ (∀ newDate' prices,
         Forall (λ d, 0 <= output d)
           (DataSources.alignData newDate' prices profile))
    ∧ (0 <= capacityMW →
       (∀ x, 0 <= Math_exp x ∧ (x <= 0 → Math_exp x <= 1)) →
       (∀ i, 0 <= Math_random i ∧ Math_random i < 1) →
       Forall (λ p, v_output p <= Spec.to_decimals 3 capacityMW) profile)
    ∧ ∀ month : fin 12,
        0 < inject_Z (DataFeed.getSunsetHour month
                      - DataFeed.getSunriseHour month) / 2 * (6 # 10).
Proof.
  intros start hours Hfuel. unfold DataFeed.generateSyntheticPVProfile.
  destruct (profile_loop_spec fuel endDate capacityMW start 0 Hfuel)
    as (profile & Hrun & Hts & Hnonneg & Hbound).
  exists profile. split_and!; try done.
  - rewrite Hts. apply NoDup_fmap_2; [|apply NoDup_seq].
    intros i j Hij. lia.
  - intros newDate' prices. apply Forall_forall. intros r Hr.
    apply alignData_output_from_profile in Hr as (point & Hin & ->).
    rewrite Forall_forall in Hnonneg. by apply Hnonneg.
  - apply halfDay_positive.
Qed.
End ProfileFacts.

Lemma syntheticProfile_hourly_witness :
  let newDate := λ _ : Z, Example.midnight in
  let setMinutes0 := λ ms : Z, ms in
  let yearStart := λ _ : Z, 0%Z in
  let Math_exp := λ _ : Q, 1 in
  let Math_cos := λ _ : Q, 1 in
  let Math_random := λ _ : nat, 1 # 2 in
  ∃ profile,
    DataFeed.generateSyntheticPVProfile newDate setMinutes0 yearStart
      Math_exp Math_cos 3 Math_random 5 0 7200000 10
    = Some profile
    ∧ map v_timestamp profile
      = map (λ i, (0 / 1000 + 3600 * Z.of_nat i)%Z)
          (seq 0 (DataFeed.hours_left 7200000 0))
    ∧ NoDup (map v_timestamp profile)
    ∧ Forall (λ p, 0 <= v_output p) profile
    ∧ (∀ newDate' prices,
         Forall (λ d, 0 <= output d)
           (DataSources.alignData newDate' prices profile))
    ∧ (0 <= 10 →
       (∀ x, 0 <= Math_exp x ∧ (x <= 0 → Math_exp x <= 1)) →
       (∀ i, 0 <= Math_random i ∧ Math_random i < 1) →
       Forall (λ p, v_output p <= Spec.to_decimals 3 10) profile)
    ∧ ∀ month : fin 12,
        0 < inject_Z (DataFeed.getSunsetHour month
                      - DataFeed.getSunriseHour month) / 2 * (6 # 10).
Proof.
  intros newDate setMinutes0 yearStart Math_exp Math_cos Math_random.
  apply (syntheticProfile_hourly newDate setMinutes0 yearStart Math_exp
           Math_cos 3 Math_random 5 0 7200000 10).
  vm_compute. lia.
Defined.

(** * The capture rate of a week *)


